(** * venom: a shallow embedding of the crawler engine and the fetch helper

    Source files: [src/venom/crawler.py] and [src/venom/fetch.py].

    Python [str] values are modelled as [string]; a character is a code
    point below 256 (the Latin-1 range), which covers every character the
    source names explicitly (the regular expression classes, the ['§']
    separator, quotes and line breaks).  Python [set] values are [gset
    string]; a [deque] is a [list string] appended at the right end. *)

From Stdlib Require Import Ascii.
From Stdlib Require String DecimalString.
From stdpp Require Import base gmap sets list strings.

Set Warnings "-clear-no-such-hyp".

(** * Part I: the embedding *)

(** ** Python string primitives *)

Module Py.

(** The line feed ['\n'], the carriage return, the tab, the two quotes
    and the backslash. *)
Definition LF : ascii := "010"%char.
Definition CR : ascii := "013"%char.
Definition TAB : ascii := "009"%char.
Definition SQUOTE : ascii := "039"%char.
Definition DQUOTE : ascii := "034"%char.
Definition BACKSLASH : ascii := "092"%char.

Definition nl : string := String LF "".

Definition to_list (s : string) : list ascii := String.list_ascii_of_string s.
Definition of_list (l : list ascii) : string := String.string_of_list_ascii l.

(** [len(s)] *)
Definition len (s : string) : nat := String.length s.

(** [str(n)] for a non-negative [int]. *)
Definition str_of_nat (n : nat) : string :=
  DecimalString.NilZero.string_of_uint (Nat.to_uint n).

(** [c.isspace()] on the code points below 256: the ASCII white space
    9-13 and 32, the separators 28-31, NEL (133) and NBSP (160). *)
Definition is_space (c : ascii) : bool :=
  let n := nat_of_ascii c in
  ((9 <=? n) && (n <=? 13)) || ((28 <=? n) && (n <=? 32))
  || (n =? 133) || (n =? 160).

(** [s.strip()] *)
Fixpoint lstrip_list (l : list ascii) : list ascii :=
  match l with
  | [] => []
  | c :: l' => if is_space c then lstrip_list l' else l
  end.

Definition strip_list (l : list ascii) : list ascii :=
  reverse (lstrip_list (reverse (lstrip_list l))).

Definition strip (s : string) : string := of_list (strip_list (to_list s)).

(** [s.split()]: the maximal runs of characters that are not white space. *)
Definition flush (cur : list ascii) : list string :=
  match cur with
  | [] => []
  | _ :: _ => [of_list (reverse cur)]
  end.

Fixpoint words_go (cur : list ascii) (l : list ascii) : list string :=
  match l with
  | [] => flush cur
  | c :: l' =>
      if is_space c then flush cur ++ words_go [] l'
      else words_go (c :: cur) l'
  end.

Definition split_ws (s : string) : list string := words_go [] (to_list s).

(** [s.split(sep)] for a separator of one character: every occurrence
    cuts, so the result has one piece more than there are separators. *)
Fixpoint split_go (sep : ascii) (cur : list ascii) (l : list ascii) : list string :=
  match l with
  | [] => [of_list (reverse cur)]
  | c :: l' =>
      if bool_decide (c = sep) then of_list (reverse cur) :: split_go sep [] l'
      else split_go sep (c :: cur) l'
  end.

Definition split_on (sep : ascii) (s : string) : list string :=
  split_go sep [] (to_list s).

(** [sep.join(parts)] *)
Fixpoint join (sep : string) (parts : list string) : string :=
  match parts with
  | [] => ""
  | [p] => p
  | p :: rest => p +:+ sep +:+ join sep rest
  end.

(** [s.replace(c, by)] for a pattern [c] of one character. *)
Definition replace_char (c : ascii) (by_ : string) (s : string) : string :=
  of_list (flat_map (λ x, if bool_decide (x = c) then to_list by_ else [x])
                    (to_list s)).

(** [s.endswith(suffix)] *)
Definition endswith (s suffix : string) : bool :=
  bool_decide (to_list suffix `suffix_of` to_list s).

(** [sub in s] *)
Fixpoint has_infix (sub l : list ascii) : bool :=
  bool_decide (sub `prefix_of` l)
  || match l with
     | [] => false
     | _ :: l' => has_infix sub l'
     end.

Definition contains (sub s : string) : bool := has_infix (to_list sub) (to_list s).

(** [bool(s)] for an optional string: [None] and [''] are false. *)
Definition truthy (o : option string) : bool :=
  match o with
  | Some s => negb (bool_decide (s = ""))
  | None => false
  end.

(** [repr(s)]: single quotes unless the text holds a single quote and no
    double quote; backslash and the chosen quote are escaped, tab, line
    feed and carriage return get their letters, other characters that are
    not printable get a [\xhh] escape. *)
Definition printable (c : ascii) : bool :=
  let n := nat_of_ascii c in
  negb ((n <? 32) || (n =? 127) || ((128 <=? n) && (n <=? 160)) || (n =? 173)).

Definition hexdigit (n : nat) : ascii :=
  nth n (to_list "0123456789abcdef") "0"%char.

Definition repr_char (quote : ascii) (c : ascii) : list ascii :=
  if bool_decide (c = quote) || bool_decide (c = BACKSLASH) then [BACKSLASH; c]
  else if bool_decide (c = TAB) then [BACKSLASH; "t"%char]
  else if bool_decide (c = LF) then [BACKSLASH; "n"%char]
  else if bool_decide (c = CR) then [BACKSLASH; "r"%char]
  else if printable c then [c]
  else [BACKSLASH; "x"%char;
        hexdigit (nat_of_ascii c / 16); hexdigit (nat_of_ascii c mod 16)].

Definition repr_quote (l : list ascii) : ascii :=
  if bool_decide (SQUOTE ∈ l) && negb (bool_decide (DQUOTE ∈ l))
  then DQUOTE else SQUOTE.

Definition repr (s : string) : string :=
  let l := to_list s in
  let q := repr_quote l in
  of_list (q :: flat_map (repr_char q) l ++ [q]).

(** [repr] of a list of strings, which is also its [str]. *)
Definition repr_list (l : list string) : string :=
  "[" +:+ join ", " (repr <$> l) +:+ "]".

(** [repr] of a set of strings; the order of the elements is the one the
    set is iterated in. *)
Definition repr_set (X : gset string) : string :=
  if bool_decide (X = ∅) then "set()"
  else "{" +:+ join ", " (repr <$> elements X) +:+ "}".

(** [f.readlines()] of a file opened in text mode: a line ends at a line
    feed, at a carriage return, or at the pair of them, and is returned
    with a line feed at its end; the last line may lack one. *)
Fixpoint readlines_go (cur : list ascii) (l : list ascii) : list string :=
  match l with
  | [] => flush cur
  | c :: l' =>
      if bool_decide (c = LF) then
        of_list (reverse (LF :: cur)) :: readlines_go [] l'
      else if bool_decide (c = CR) then
        of_list (reverse (LF :: cur))
          :: match l' with
             | c' :: l'' =>
                 if bool_decide (c' = LF) then readlines_go [] l''
                 else readlines_go [] l'
             | [] => []
             end
      else readlines_go (c :: cur) l'
  end.

Definition readlines (content : string) : list string :=
  readlines_go [] (to_list content).

(** [os.path.join(dir, name)] for a relative [name]. *)
Definition path_join (dir name : string) : string :=
  if bool_decide (dir = "") then name
  else if endswith dir "/" then dir +:+ name
  else dir +:+ "/" +:+ name.

End Py.

(** ** Regular expressions, as far as the source uses the [re] module *)

Module Re.

Inductive regex : Type :=
| Eps
| Chr (c : ascii)                        (* one literal character *)
| Class (p : ascii → bool)               (* a bracket expression or [\w] *)
| Alt (r1 r2 : regex)                    (* r1|r2 *)
| Seq (r1 r2 : regex)                    (* r1 r2 *)
| Rep (r : regex) (lo : nat) (hi : option nat).
                                         (* r{lo,hi}; r? and r+ are
                                            r{0,1} and r{1,} *)

(** A literal run of characters such as [bc1]. *)
Fixpoint lit (s : string) : regex :=
  match s with
  | "" => Eps
  | String c s' => Seq (Chr c) (lit s')
  end.

Section Matcher.
Context {A : Type}.

(** The repetition is greedy: one more round is tried first, the
    continuation [k] only when that fails and [lo] rounds are done. *)
Fixpoint rep_k (m : list ascii → (list ascii → option A) → option A)
    (k : list ascii → option A) (lo hi : nat) (s : list ascii) : option A :=
  match hi with
  | 0 => match lo with 0 => k s | S _ => None end
  | S hi' =>
      match m s (λ s', rep_k m k (pred lo) hi' s') with
      | Some a => Some a
      | None => match lo with 0 => k s | S _ => None end
      end
  end.

(** Backtracking matcher in continuation-passing style: [matchk r s k] is
    the first success, in the order the engine tries the alternatives, of
    matching a prefix of [s] against [r] and handing the rest to [k].  A
    repetition without upper bound is tried for at most [length s] rounds,
    which loses nothing for a body that consumes a character per round, as
    the bodies of the source's patterns do. *)
Fixpoint matchk (r : regex) (s : list ascii) (k : list ascii → option A) : option A :=
  match r with
  | Eps => k s
  | Chr c =>
      match s with
      | x :: s' => if bool_decide (x = c) then k s' else None
      | [] => None
      end
  | Class p =>
      match s with
      | x :: s' => if p x then k s' else None
      | [] => None
      end
  | Alt r1 r2 =>
      match matchk r1 s k with
      | Some a => Some a
      | None => matchk r2 s k
      end
  | Seq r1 r2 => matchk r1 s (λ s', matchk r2 s' k)
  | Rep r lo hi => rep_k (matchk r) k lo (default (length s) hi) s
  end.

End Matcher.

Definition at_end (s : list ascii) : option unit :=
  match s with
  | [] => Some ()
  | _ :: _ => None
  end.

(** [re.fullmatch(r, s)] as a truth value. *)
Definition fullmatch (r : regex) (s : string) : bool :=
  bool_decide (is_Some (matchk r (Py.to_list s) at_end)).

(** [re.search(r, s)] followed by [.group()]: the match at the leftmost
    position where there is one. *)
Fixpoint search_go (r : regex) (s : list ascii) : option (list ascii) :=
  match matchk r s (λ rest, Some rest) with
  | Some rest => Some (take (length s - length rest) s)
  | None =>
      match s with
      | [] => None
      | _ :: s' => search_go r s'
      end
  end.

Definition search (r : regex) (s : string) : option string :=
  Py.of_list <$> search_go r (Py.to_list s).

(** Character classes by code point. *)
Definition in_range (lo hi : nat) (c : ascii) : bool :=
  (lo <=? nat_of_ascii c) && (nat_of_ascii c <=? hi).

Definition digit (c : ascii) : bool := in_range 48 57 c.
Definition lower (c : ascii) : bool := in_range 97 122 c.
Definition upper (c : ascii) : bool := in_range 65 90 c.

(** [[a-zA-Z0-9]] *)
Definition alnum (c : ascii) : bool := lower c || upper c || digit c.

(** [[13]] *)
Definition one_or_three (c : ascii) : bool :=
  bool_decide (c = "1"%char) || bool_decide (c = "3"%char).

(** [\w] of a [str] pattern: the underscore and every character that is
    alphanumeric in Unicode; below 256 these are the ASCII letters and
    digits, the ordinal indicators, micro, the superscript digits, the
    vulgar fractions and the accented letters. *)
Definition word (c : ascii) : bool :=
  alnum c || bool_decide (c = "_"%char)
  || in_range 170 170 c || in_range 178 179 c || in_range 181 181 c
  || in_range 185 186 c || in_range 188 190 c
  || in_range 192 214 c || in_range 216 246 c || in_range 248 255 c.

(** r"(bc1|[13])[a-zA-Z0-9]{25,61}", the pattern shared by
    [DarkCrawler.btc_address_search] and [fetch.is_valid_btc_address]. *)
Definition btc_pattern : regex :=
  Seq (Alt (lit "bc1") (Class one_or_three)) (Rep (Class alnum) 25 (Some 61)).

(** r"https?://\w+\.onion" *)
Definition onion_pattern : regex :=
  Seq (lit "http")
      (Seq (Rep (Chr "s"%char) 0 (Some 1))
           (Seq (lit "://") (Seq (Rep (Class word) 1 None) (lit ".onion")))).

(** The words a pattern stands for; the matcher is checked against this
    reading. *)
Fixpoint power (L : list ascii → Prop) (n : nat) (w : list ascii) : Prop :=
  match n with
  | 0 => w = []
  | S n' => ∃ w1 w2, w = w1 ++ w2 ∧ L w1 ∧ power L n' w2
  end.

Fixpoint lang (r : regex) (w : list ascii) : Prop :=
  match r with
  | Eps => w = []
  | Chr c => w = [c]
  | Class p => ∃ x, w = [x] ∧ p x = true
  | Alt r1 r2 => lang r1 w ∨ lang r2 w
  | Seq r1 r2 => ∃ w1 w2, w = w1 ++ w2 ∧ lang r1 w1 ∧ lang r2 w2
  | Rep r lo hi =>
      ∃ n, lo ≤ n ∧ from_option (λ h, n ≤ h) True hi ∧ power (lang r) n w
  end.

End Re.

(** ** Exceptions and the state-and-error monad of the embedding *)

Inductive exn : Type :=
| AttributeError (name : string)     (* an attribute that was never assigned,
                                        or an attribute of [None] *)
| AssertionError
| FileNotFoundError (path : string)
| EvalError                          (* [eval] could not evaluate a line *)
| RaisedBy (class_name : string).    (* an exception of a library call,
                                        known by the name of its class *)

(** [e.__class__.__name__] *)
Definition class_name (e : exn) : string :=
  match e with
  | AttributeError _ => "AttributeError"
  | AssertionError => "AssertionError"
  | FileNotFoundError _ => "FileNotFoundError"
  | EvalError => "SyntaxError"
  | RaisedBy c => c
  end.

Inductive result (A : Type) : Type :=
| Ok (a : A)
| Raise (e : exn).
Arguments Ok {A} a.
Arguments Raise {A} e.

(** A computation over a state [S] that returns a value or raises, and
    leaves the state as it was at that moment. *)
Definition M (S A : Type) : Type := S → result A * S.

Definition ret {S A} (a : A) : M S A := λ s, (Ok a, s).
Definition raise {S A} (e : exn) : M S A := λ s, (Raise e, s).
Definition bind {S A B} (m : M S A) (f : A → M S B) : M S B :=
  λ s, match m s with
       | (Ok a, s') => f a s'
       | (Raise e, s') => (Raise e, s')
       end.

(** [try: body except Exception as e: handler(e)] *)
Definition try_except {S A} (body : M S A) (handler : exn → M S A) : M S A :=
  λ s, match body s with
       | (Ok a, s') => (Ok a, s')
       | (Raise e, s') => handler e s'
       end.

Definition get {S} : M S S := λ s, (Ok s, s).
Definition modify {S} (f : S → S) : M S unit := λ s, (Ok (), f s).

Declare Scope py_scope.
Delimit Scope py_scope with py.
Notation "x ← m ; k" := (bind m (λ x, k))
  (at level 20, m at level 100, k at level 200, only parsing) : py_scope.
Notation "m ;; k" := (bind m (λ _, k))
  (at level 100, k at level 200, right associativity, only parsing) : py_scope.
Local Open Scope py_scope.

(** [for x in xs: body(x)] *)
Fixpoint for_each {S A} (xs : list A) (body : A → M S unit) : M S unit :=
  match xs with
  | [] => ret ()
  | x :: xs' => body x ;; for_each xs' body
  end.

(** ** The world outside the program: files, the network, the terminal *)

Record world : Type := World {
  files : gmap string string;     (* the content of every file that exists *)
  requests : list string;         (* the URLs requested so far, in order *)
  stdout : list string            (* what [print] was called with, in order *)
}.

(** [f.write(text)] on a file opened with mode ['a']; [open] creates the
    file when it does not exist. *)
Definition file_append (path text : string) (w : world) : world :=
  {| files := <[path := default "" (files w !! path) +:+ text]> (files w);
     requests := requests w;
     stdout := stdout w |}.

(** [f.write(text)] as the only write to a file opened with mode ['w'], or
    after [f.seek(0)] and [f.truncate()]. *)
Definition file_write (path text : string) (w : world) : world :=
  {| files := <[path := text]> (files w);
     requests := requests w;
     stdout := stdout w |}.

Definition send_request (url : string) (w : world) : world :=
  {| files := files w; requests := requests w ++ [url]; stdout := stdout w |}.

Definition print_line (line : string) (w : world) : world :=
  {| files := files w; requests := requests w; stdout := stdout w ++ [line] |}.

(** ** fetch.py *)

Module Fetch.

(** What [requests.get] hands back: a status code, and the text
    [json.dump(res.json(), f)] writes, if the body is JSON at all. *)
Record response : Type := Response {
  status_code : nat;
  json : option string
}.

(** A request either raises (time-out, refused connection, ...) or is
    answered. *)
Inductive reply : Type :=
| Fails (class_name : string)
| Replies (res : response).

Definition is_valid_btc_address (addr : string) : bool :=
  Re.fullmatch Re.btc_pattern addr.

Definition print (line : string) : M world unit := modify (print_line line).

(** [requests.get(url, timeout=10)] *)
Definition requests_get (answer : reply) (url : string) : M world response :=
  modify (send_request url) ;;
  match answer with
  | Fails c => raise (RaisedBy c)
  | Replies res => ret res
  end.

(** [res.json()] *)
Definition res_json (res : response) : M world string :=
  match json res with
  | Some text => ret text
  | None => raise (RaisedBy "JSONDecodeError")
  end.

(** [blockstream_fetch(addr, output_path)]; [answer] is what the network
    does with the one request of the call.  [print(e)] shows the message of
    the exception, which the class name stands for here. *)
Definition blockstream_fetch (answer : reply) (addr output_path : string)
    : M world unit :=
  if negb (is_valid_btc_address addr) then raise AssertionError
  else
    let url := "https://blockstream.info/api/address/" +:+ addr in
    try_except
      (res ← requests_get answer url;
       print (addr +:+ " " +:+ Py.str_of_nat (status_code res)) ;;
       if status_code res =? 200 then
         modify (file_append output_path "") ;;
         text ← res_json res;
         modify (file_append output_path text) ;;
         modify (file_append output_path Py.nl)
       else ret ())
      (λ e, print (class_name e)).

(** [open(path)] for reading, in text mode: [FileNotFoundError] when the
    file does not exist; [f.read()] hands out the lines that
    [f.readlines()] would, one after the other. *)
Definition open_read (path : string) : M world string :=
  w ← get;
  match files w !! path with
  | Some content => ret content
  | None => raise (FileNotFoundError path)
  end.

Definition read (content : string) : string := Py.join "" (Py.readlines content).

(** One call that [executor.map] submitted: what the call raises stays in
    its future, and [blockstream_fetch_all] never asks a future for its
    result. *)
Definition blockstream_task (answer : reply) (addr output_path : string)
    : M world unit :=
  try_except (blockstream_fetch answer addr output_path) (λ _, ret ()).

(** [blockstream_fetch_all(addr_path, output_path)].  The calls run on the
    threads of the executor; here each call is one step, [order] lists the
    positions of the addresses in the order in which their calls run, and
    the call for position [i] meets [answers i].  [executor.shutdown()]
    waits for all of them. *)
Definition blockstream_fetch_all (answers : nat → reply) (order : list nat)
    (addr_path output_path : string) : M world unit :=
  content ← open_read addr_path;
  let btc_addrs := Py.strip <$> Py.readlines content in
  for_each order (λ i,
    match btc_addrs !! i with
    | Some addr => blockstream_task (answers i) addr output_path
    | None => ret ()
    end) ;;
  print "All calls done.".

Definition PROXIES_PATH : string := "proxies.txt".
Definition ACTIVE_PROXIES_PATH : string := "active-proxies.txt".

(** [proxy_is_active(proxy, save_active_proxies)]; the result is
    [res is not None]. *)
Definition proxy_is_active (answer : reply) (proxy : string)
    (save_active_proxies : bool) : M world bool :=
  try_except
    (res ← requests_get answer "http://httpbin.org/ip";
     if 400 <=? status_code res then ret false
     else
       print ("proxy ok " +:+ proxy) ;;
       (if save_active_proxies
        then modify (file_append ACTIVE_PROXIES_PATH (proxy +:+ Py.nl))
        else ret ()) ;;
       ret true)
    (λ e, print (class_name e) ;; ret false).

(** [list(filter(proxy_is_active, proxies))]: the probe of the entry at
    position [i] meets [answers i]. *)
Fixpoint filter_active (answers : nat → reply) (i : nat) (proxies : list string)
    : M world (list string) :=
  match proxies with
  | [] => ret []
  | proxy :: rest =>
      active ← proxy_is_active (answers i) proxy false;
      kept ← filter_active answers (S i) rest;
      ret (if active : bool then proxy :: kept else kept)
  end.

(** [get_active_proxies(refresh)] *)
Definition get_active_proxies (answers : nat → reply) (refresh : bool)
    : M world (list string) :=
  print "Checking for active proxies:" ;;
  let proxies_path := if refresh then PROXIES_PATH else ACTIVE_PROXIES_PATH in
  content ← open_read proxies_path;
  filter_active answers 0 (Py.split_on Py.LF (Py.strip (read content))).

(** The first component of what [blockcypher_fetch] and [blockchain_fetch]
    return: the decoded body, known by the text [json.dump] writes for
    it, or the exception that was caught. *)
Inductive fetched : Type :=
| Body (text : string)
| Caught (e : exn).

(** What the two [_all] loops do with a call: the [for] loop goes on with
    the proxies that are left, the function returned, or the fuel of the
    embedding ran out inside [while True:]; [calls] counts the calls of the
    fetch function so far. *)
Inductive outcome : Type :=
| Next (proxies : list string) (calls : nat)
| Returned (calls : nat)
| Spinning.

(** [proxies.remove(proxy)] for a [proxy] of the list: the first
    occurrence goes. *)
Fixpoint remove_first (x : string) (l : list string) : list string :=
  match l with
  | [] => []
  | y :: l' => if bool_decide (y = x) then l' else y :: remove_first x l'
  end.

Section Proxied.
(** [str(res.json())], as [print] shows it. *)
Variable str_of_json : string → string.

(** [blockcypher_fetch(addr, proxy)]; the request goes through [via],
    the entry for ["http"] of its [proxies] argument ([None]: no such
    argument), and [answer via] is what the network does with it. *)
Definition blockcypher_fetch (answer : option string → reply) (addr : string)
    (proxy : option string) : M world (fetched * nat) :=
  if negb (is_valid_btc_address addr) then raise AssertionError
  else
    let url := "http://api.blockcypher.com/v1/btc/main/addrs/" +:+ addr +:+ "/balance" in
    let via := match proxy with
               | Some p => if Py.truthy proxy then Some ("http://" +:+ p) else None
               | None => None
               end in
    try_except
      (res ← requests_get (answer via) url;
       shown ← res_json res;
       print (Py.str_of_nat (status_code res) +:+ " " +:+ str_of_json shown) ;;
       body ← res_json res;
       ret (Body body, status_code res))
      (λ e, print (class_name e) ;; ret (Caught e, 0)).

(** [blockchain_fetch(addr, proxy)]; the [proxies] argument is always
    there, for [proxy=None] with the entry ["http://None"]. *)
Definition blockchain_fetch (answer : option string → reply) (addr : string)
    (proxy : option string) : M world (fetched * nat) :=
  if negb (is_valid_btc_address addr) then raise AssertionError
  else
    let url := "https://blockchain.info/rawaddr/" +:+ addr in
    let via := Some ("http://" +:+ default "None" proxy) in
    try_except
      (res ← requests_get (answer via) url;
       shown ← res_json res;
       print (Py.str_of_nat (status_code res) +:+ " " +:+ str_of_json shown) ;;
       body ← res_json res;
       ret (Body body, status_code res))
      (λ e, print (class_name e) ;; ret (Caught e, 0)).

(** The body that [blockcypher_fetch_all] and [blockchain_fetch_all]
    share, for the fetch function [fetch] of the one or the other.  The
    call number [n] meets the network [net n], and [random.choice] picks
    the entry at position [choice n] modulo the length of the list. *)
Variable fetch : (option string → reply) → string → option string
                 → M world (fetched * nat).
Variable net : nat → option string → reply.
Variable choice : nat → nat.

(** The [while True:] loop for one address. *)
Fixpoint while_true (fuel : nat) (addr output_path : string)
    (proxies : list string) (n : nat) : M world outcome :=
  match fuel with
  | 0 => ret Spinning
  | S fuel' =>
      match proxies with
      | [] => print "All proxies reached the API limit." ;; ret (Returned n)
      | first :: _ =>
          let proxy := nth (choice n mod length proxies) proxies first in
          print ("using proxy " +:+ proxy) ;;
          r ← fetch (net n) addr (Some proxy);
          if r.2 =? 200 then
            modify (file_append output_path "") ;;
            match r.1 with
            | Body text => modify (file_append output_path text)
            | Caught _ => raise (RaisedBy "TypeError")
            end ;;
            modify (file_append output_path Py.nl) ;;
            ret (Next proxies (S n))
          else if r.2 =? 429 then
            print (proxy +:+ " API limit reached") ;;
            while_true fuel' addr output_path (remove_first proxy proxies) (S n)
          else ret (Next proxies (S n))
      end
  end.

(** [for i, btc_addr in enumerate(f.readlines()):] from position [i] on. *)
Fixpoint for_lines (fuel : nat) (lines : list string) (i : nat)
    (output_path : string) (proxies : list string) (n : nat) : M world outcome :=
  match lines with
  | [] => ret (Next proxies n)
  | btc_addr :: rest =>
      print (Py.nl +:+ Py.str_of_nat i +:+ ": " +:+ Py.strip btc_addr) ;;
      r ← while_true fuel (Py.strip btc_addr) output_path proxies n;
      match r with
      | Next proxies' n' => for_lines fuel rest (S i) output_path proxies' n'
      | Returned n' => ret (Returned n')
      | Spinning => ret Spinning
      end
  end.

(** The probes of [get_active_proxies()] meet [probes]. *)
Definition fetch_all (probes : nat → reply) (fuel : nat)
    (addr_path output_path : string) : M world outcome :=
  proxies ← get_active_proxies probes false;
  content ← open_read addr_path;
  for_lines fuel (Py.readlines content) 0 output_path proxies 0.

End Proxied.

(** [blockcypher_fetch_all(addr_path, output_path)] *)
Definition blockcypher_fetch_all (str_of_json : string → string)
    (net : nat → option string → reply) (choice : nat → nat)
    (probes : nat → reply) (fuel : nat) (addr_path output_path : string)
    : M world outcome :=
  fetch_all (blockcypher_fetch str_of_json) net choice probes fuel
    addr_path output_path.

(** [blockchain_fetch_all(addr_path, output_path)] *)
Definition blockchain_fetch_all (str_of_json : string → string)
    (net : nat → option string → reply) (choice : nat → nat)
    (probes : nat → reply) (fuel : nat) (addr_path output_path : string)
    : M world outcome :=
  fetch_all (blockchain_fetch str_of_json) net choice probes fuel
    addr_path output_path.

End Fetch.

(** ** process.py: the addresses handed from the crawler to the fetcher *)

Module Process.

(** A value of the dict that [eval] makes of the data file: the record of
    a fetched page, or a status text. *)
Inductive value : Type :=
| Page (btc_addrs : list string) (title : string)
| Status (text : string).

(** The inner loop of [save_btc_addrs_from_crawler] over the addresses of
    one page; the set [btc_addrs] of the function is handed on. *)
Fixpoint save_new (output_path : string) (addrs : list string)
    (btc_addrs : gset string) : M world (gset string) :=
  match addrs with
  | [] => ret btc_addrs
  | addr :: rest =>
      if bool_decide (addr ∉ btc_addrs) then
        modify (file_append output_path (addr +:+ Py.nl)) ;;
        save_new output_path rest ({[addr]} ∪ btc_addrs)
      else save_new output_path rest btc_addrs
  end.

(** The outer loop, over the values of the dict. *)
Fixpoint save_values (output_path : string) (values : list value)
    (btc_addrs : gset string) : M world (gset string) :=
  match values with
  | [] => ret btc_addrs
  | Page addrs _ :: rest =>
      btc_addrs' ← save_new output_path addrs btc_addrs;
      save_values output_path rest btc_addrs'
  | Status _ :: rest => save_values output_path rest btc_addrs
  end.

(** [save_btc_addrs_from_crawler(crawler_data_path, output_path)];
    [eval_data] is [eval] on the text of the data file, giving the values
    of the dict in the order of its keys. *)
Definition save_btc_addrs_from_crawler (eval_data : string → option (list value))
    (crawler_data_path output_path : string) : M world unit :=
  content ← Fetch.open_read crawler_data_path;
  match eval_data (Fetch.read content) with
  | None => raise EvalError
  | Some onion_to_data_values =>
      modify (file_append output_path "") ;;
      save_values output_path onion_to_data_values ∅ ;;
      ret ()
  end.

(** [c.lower()] on the code points below 256: the ASCII capitals and
    the accented capitals (all of 192-222 but the multiplication sign)
    move up by 32. *)
Definition lower_char (c : ascii) : ascii :=
  let n := nat_of_ascii c in
  if ((65 <=? n) && (n <=? 90))
     || ((192 <=? n) && (n <=? 222) && negb (n =? 215))
  then ascii_of_nat (n + 32) else c.

Definition lower (s : string) : string :=
  Py.of_list (lower_char <$> Py.to_list s).

Definition topic_keywords : list string :=
  ["bitcoin"; "btc"; "bit"; "mixer";
   "miner"; "double"; "triple"; "multipl";
   "private key"; "generat"; "wallet";
   "card"; "paypal"; "western union"; "hack";
   "money"; "cash"; "transfer"; "buy"; "market"; "sell";
   "sale"; "list"; "link"; "dir"; "fuck"; "porn"; "cp";
   "rape"; "pedo"; "teen"; "child"; "underage"; "young"].

(** The set [matches] of [categorize_by_title]. *)
Definition matches (title : string) : gset string :=
  list_to_set (filter (λ kw, Py.contains kw (lower title) = true) topic_keywords).

(** [has_match(keywords)] *)
Definition has_match (title : string) (keywords : list string) : bool :=
  existsb (λ kw, bool_decide (kw ∈ matches title)) keywords.

(** The list [topics] of [categorize_by_title] at its [return]. *)
Definition topics_of (title : string) : list string :=
  let topics :=
    (if has_match title ["bitcoin"; "btc"; "bit"] then
       (if has_match title ["mixer"] then ["bitcoin_mixer"] else [])
         ++ (if has_match title ["generat"; "miner"; "double"; "triple"; "multipl"]
             then ["bitcoin_generator"] else [])
         ++ (if has_match title ["wallet"; "hack"; "private key"]
             then ["stolen_bitcoin"] else [])
     else if has_match title ["hack"] then ["hacking"] else [])
      ++ (if has_match title
               ["card"; "paypal"; "western union"; "transfer"; "money"; "cash"]
          then ["stolen_funds"] else [])
      ++ (if has_match title ["market"; "buy"; "sale"; "sell"]
          then ["market"] else [])
      ++ (if has_match title ["list"; "link"; "dir"] then ["website_list"] else [])
      ++ (if has_match title ["porn"; "fuck"] then ["pornography"] else [])
      ++ (if has_match title
               ["cp"; "rape"; "pedo"; "teen"; "child"; "underage"; "young"]
          then ["abusive_content"] else []) in
  match topics with
  | [] => ["other"]
  | _ :: _ => topics
  end.

Definition categorize_by_title (title : string) : string :=
  Py.join ", " (topics_of title).

(** The topics in the order of the list in the source. *)
Definition topic_names : list string :=
  ["bitcoin_mixer"; "bitcoin_generator"; "stolen_bitcoin"; "hacking";
   "stolen_funds"; "market"; "website_list"; "pornography"; "abusive_content";
   "other"].

End Process.

(** ** crawler.py: what the three classes share *)

(** [search_limit]: a number, or [math.inf]. *)
Inductive limit : Type :=
| Finite (n : nat)
| Inf.

(** [len(self.searched) >= self.search_limit] *)
Definition limit_reached (n : nat) (l : limit) : bool :=
  match l with
  | Finite k => k <=? n
  | Inf => false
  end.

(** The arguments of [__init__]. *)
Record config : Type := Config {
  seeds : list string;
  search_limit : limit;
  output_dir : string;
  resume_path : option string;
  ahmia_keyword_path : option string
}.

(** The string attributes [BaseCrawler.__init__] assigns, by name; the
    subclasses assign no further string attribute. *)
Definition attrs (c : config) : gmap string string :=
  <["output_dir" := output_dir c]>
    (<["data_path" := Py.path_join (output_dir c) "data.txt"]>
       (<["log_path" := Py.path_join (output_dir c) "log.txt"]>
          (<["savestate_path" := Py.path_join (output_dir c) "savestate.txt"]> ∅))).

(** The parsed page, as far as the source queries it:
    [a.get("href")] for the anchors of [findAll('a')] in document order,
    the text nodes that [get_text] joins, and [bsoup.title] together with
    its [.string] (each of the two may be [None]). *)
Record soup : Type := Soup {
  hrefs : list (option string);
  strings : list string;
  title : option (option string)
}.

Record response : Type := Response {
  status_code : nat;
  parsed : soup        (* [BeautifulSoup(response.text, "html.parser")] *)
}.

Inductive reply : Type :=
| Fails (class_name : string)
| Replies (res : response).

(** What one call of [scrape_url] meets: the fate of its request, the name
    of the thread it runs on, and the rounded time it took, as printed. *)
Record env : Type := Env {
  answer : reply;
  thread_name : string;
  render_time : string
}.

(** The mutable attributes of the crawler, and the world. *)
Record state : Type := State {
  queue : list string;         (* [self.queue], a deque *)
  searched : gset string;      (* [self.searched] *)
  seen : gset string;          (* [self.seen], MultiThreadedDarkCrawler only *)
  work : list string;          (* [self.executor._work_queue]: submitted, not started *)
  outside : world
}.

Definition set_queue (q : list string) (s : state) : state :=
  {| queue := q; searched := searched s; seen := seen s; work := work s;
     outside := outside s |}.
Definition set_searched (X : gset string) (s : state) : state :=
  {| queue := queue s; searched := X; seen := seen s; work := work s;
     outside := outside s |}.
Definition set_seen (X : gset string) (s : state) : state :=
  {| queue := queue s; searched := searched s; seen := X; work := work s;
     outside := outside s |}.
Definition set_work (l : list string) (s : state) : state :=
  {| queue := queue s; searched := searched s; seen := seen s; work := l;
     outside := outside s |}.
Definition on_world (f : world → world) (s : state) : state :=
  {| queue := queue s; searched := searched s; seen := seen s; work := work s;
     outside := f (outside s) |}.

(** [self.<name>] for a string attribute: [AttributeError] when no
    [__init__] of the hierarchy assigned it. *)
Definition getattr (c : config) (name : string) : M state string :=
  match attrs c !! name with
  | Some v => ret v
  | None => raise (AttributeError name)
  end.

Definition print (line : string) : M state unit := modify (on_world (print_line line)).

(** [open(path, 'r')] (or ['r+']) followed by reading the whole file. *)
Definition open_read (path : string) : M state string :=
  s ← get;
  match files (outside s) !! path with
  | Some content => ret content
  | None => raise (FileNotFoundError path)
  end.

(** [requests.get(url=url, ...)] *)
Definition requests_get (e : env) (url : string) : M state response :=
  modify (on_world (send_request url)) ;;
  match answer e with
  | Fails c => raise (RaisedBy c)
  | Replies res => ret res
  end.

(** The three files of a crawler, and what a file holds (nothing when it
    does not exist). *)
Definition data_path (c : config) : string := Py.path_join (output_dir c) "data.txt".
Definition log_path (c : config) : string := Py.path_join (output_dir c) "log.txt".
Definition savestate_path (c : config) : string :=
  Py.path_join (output_dir c) "savestate.txt".

Definition file_text (path : string) (s : state) : string :=
  default "" (files (outside s) !! path).

(** The state after [_log_iter] marked [url] as searched and wrote [line]
    to the terminal and to the log. *)
Definition logged (c : config) (url line : string) (s : state) : state :=
  on_world (file_append (log_path c) line)
    (on_world (print_line line) (set_searched ({[url]} ∪ searched s) s)).

(** The V2 test of [scrape_url]:
    [url.endswith(".onion") and len(url) <= 30]. *)
Definition is_v2 (url : string) : bool :=
  Py.endswith url ".onion" && (Py.len url <=? 30).

(** What a call of [scrape_url] that took the V2 exit leaves behind: the
    call returned, no request went out, the data file grew by the V2 record
    of [url], the log by a line that ends in the V2 marker, and [url] is
    searched. *)
Definition recorded_as_deprecated (c : config) (url : string) (s : state)
    (out : result unit * state) : Prop :=
  out.1 = Ok ()
  ∧ requests (outside out.2) = requests (outside s)
  ∧ file_text (data_path c) out.2
    = file_text (data_path c) s
        +:+ "  '" +:+ url +:+ "': 'V2 address (deprecated)'," +:+ Py.nl
  ∧ (∃ head,
       file_text (log_path c) out.2
       = file_text (log_path c) s +:+ head +:+ "V2 address (deprecated)" +:+ Py.nl)
  ∧ searched out.2 = {[url]} ∪ searched s.

(** [eval] of a line of the savestate file is the Python interpreter at
    work; the embedding takes its two uses as given functions. *)
Record evaluator : Type := Evaluator {
  eval_deque : string → option (list string);
  eval_set : string → option (gset string)
}.

(** ** class BaseCrawler *)

Module BaseCrawler.
Section Methods.
Variable py : evaluator.
Variable self : config.

Definition _write_data (text : string) : M state unit :=
  path ← getattr self "data_path";
  modify (on_world (file_append path text)).

Definition _write_log (text : string) : M state unit :=
  path ← getattr self "log_path";
  modify (on_world (file_append path text)).

Definition _load_prev_crawl : M state unit :=
  content ← open_read (default "" (resume_path self));
  let lines := Py.readlines content in
  match eval_deque py (nth 0 lines "") with
  | None => raise EvalError
  | Some q =>
      modify (set_queue q) ;;
      match eval_set py (nth 1 lines "") with
      | None => raise EvalError
      | Some X => modify (set_searched X)
      end
  end.

Definition _setup_structs : M state unit :=
  if Py.truthy (resume_path self) then _load_prev_crawl
  else modify (set_queue (seeds self)) ;; modify (set_searched ∅).

Definition _on_shutdown : M state unit :=
  print "Exiting crawler." ;;
  path ← getattr self "savestate_path";
  s ← get;
  modify (on_world (file_write path
    ("deque(" +:+ Py.repr_list (queue s) +:+ ")" +:+ Py.nl
       +:+ Py.repr_set (searched s)))).

Definition _is_new_address (addr : string) (s : state) : bool :=
  bool_decide (addr ∉ queue s) && bool_decide (addr ∉ searched s).

Definition _log_iter (e : env) (url result : string) : M state unit :=
  modify (λ s, set_searched ({[url]} ∪ searched s) s) ;;
  s ← get;
  let log_info :=
    Py.join " | " ["#" +:+ Py.str_of_nat (size (searched s)); url;
                   "In queue: " +:+ Py.str_of_nat (length (queue s));
                   "Render time: " +:+ render_time e +:+ " s";
                   result +:+ Py.nl] in
  print log_info ;;
  _write_log log_info.

(** [addr and ".com" in addr] *)
Definition _is_valid_com_address (addr : option string) : bool :=
  match addr with
  | Some a => Py.truthy addr && Py.contains ".com" a
  | None => false
  end.

Definition _scrape_links (bsoup : soup) : M state unit :=
  for_each (hrefs bsoup) (λ href,
    s ← get;
    match href with
    | Some h =>
        if _is_valid_com_address href && _is_new_address h s
        then modify (set_queue (queue s ++ [h]))
        else ret ()
    | None => ret ()
    end).

Definition scrape_url (e : env) (url : string) : M state unit :=
  r ← try_except
        (response ← requests_get e url;
         _log_iter e url ("HTTP " +:+ Py.str_of_nat (status_code response)) ;;
         ret (Some response))
        (λ ex, _log_iter e url (class_name ex) ;; ret None);
  match r with
  | None => ret ()
  | Some response =>
      _write_data (url +:+ Py.nl) ;;
      if status_code response =? 200 then _scrape_links (parsed response)
      else print ("HTTP Error: " +:+ Py.str_of_nat (status_code response))
  end.

(** The [while self.queue:] loop of [crawl]; the call number [i] of
    [scrape_url] meets [envs i].  The result is [true] when the loop was
    left and [false] when the fuel ran out first. *)
Fixpoint crawl_loop (envs : nat → env) (fuel i : nat) : M state bool :=
  match fuel with
  | 0 => ret false
  | S fuel' =>
      s ← get;
      match queue s with
      | [] => ret true
      | url :: rest =>
          if limit_reached (size (searched s)) (search_limit self)
          then print "Search limit reached." ;; ret true
          else
            modify (set_queue rest) ;;
            scrape_url (envs i) url ;;
            crawl_loop envs fuel' (S i)
      end
  end.

Definition crawl (envs : nat → env) (fuel : nat) : M state bool :=
  _setup_structs ;;
  print ("Running BaseCrawler " +:+ Py.nl) ;;
  left ← crawl_loop envs fuel 0;
  if left : bool then _on_shutdown ;; ret true else ret false.

End Methods.
End BaseCrawler.

(** ** class DarkCrawler(BaseCrawler) *)

Module DarkCrawler.

(** The separator ['§'] handed to [get_text]. *)
Definition SECTION_SIGN : ascii := "167"%char.

Definition onion_address_search (text : option string) : option string :=
  match text with
  | Some t => if Py.truthy text then Re.search Re.onion_pattern t else None
  | None => None
  end.

Definition btc_address_search (text : string) : option string :=
  if Py.truthy (Some text) then
    if Re.fullmatch Re.btc_pattern text then Some text else None
  else None.

(** [bsoup.get_text(separator='§')] *)
Definition get_text (separator : string) (bsoup : soup) : string :=
  Py.join separator (strings bsoup).

(** The set [btc_addresses] that the two loops of [_scrape_btc_addresses]
    build. *)
Definition btc_addresses_of (bsoup : soup) : gset string :=
  let url_text := Py.split_on SECTION_SIGN (get_text (String SECTION_SIGN "") bsoup) in
  let links : gset (option string) := list_to_set (hrefs bsoup) in
  foldl (λ acc elem_text,
           foldl (λ acc text,
                    match btc_address_search text with
                    | Some btc_addr =>
                        if negb (Py.truthy (Some btc_addr))
                           || bool_decide (Some (btc_addr +:+ ".onion") ∈ links)
                        then acc
                        else {[btc_addr]} ∪ acc
                    | None => acc
                    end)
                 acc (Py.split_ws elem_text))
        ∅ url_text.

(** [bsoup.title.string.replace('\n', '').strip()]; each of the two
    attribute accesses fails on [None]. *)
Definition title_of (bsoup : soup) : M state string :=
  match title bsoup with
  | None => raise (AttributeError "string")
  | Some None => raise (AttributeError "replace")
  | Some (Some t) => ret (Py.strip (Py.replace_char Py.LF "" t))
  end.

(** [str(out_value)] *)
Definition str_of_out_value (btc_addrs : list string) (title : string) : string :=
  "{'btc_addrs': " +:+ Py.repr_list btc_addrs
    +:+ ", 'title': " +:+ Py.repr title +:+ "}".

(** The texts [onion_pattern] matches: [http] or [https], [://], one or
    more word characters, [.onion]. *)
Definition onion_shape (a : string) : Prop :=
  ∃ scheme name,
    a = scheme +:+ "://" +:+ name +:+ ".onion"
    ∧ (scheme = "http" ∨ scheme = "https")
    ∧ name ≠ ""
    ∧ Forall (λ c, Re.word c = true) (Py.to_list name).

(** The address [_load_ahmia_seeds] derives from one line [kw] of the
    keyword file: [ahmia_link + kw.strip().replace(' ', '+')]. *)
Definition keyword_link (kw : string) : string :=
  "https://ahmia.fi/search/?q=" +:+ Py.replace_char " " "+" (Py.strip kw).

(** The body of the inner loop of [_scrape_btc_addresses]. *)
Definition add_unless_linked (links : gset (option string)) (acc : gset string)
    (text : string) : gset string :=
  match DarkCrawler.btc_address_search text with
  | Some btc_addr =>
      if negb (Py.truthy (Some btc_addr))
         || bool_decide (Some (btc_addr +:+ ".onion") ∈ links)
      then acc
      else {[btc_addr]} ∪ acc
  | None => acc
  end.

(** The white-space separated tokens of the page text, in the order the
    two loops of [_scrape_btc_addresses] visit them. *)
Definition tokens_of (bsoup : soup) : list string :=
  concat (Py.split_ws
            <$> Py.split_on SECTION_SIGN (get_text (String SECTION_SIGN "") bsoup)).

Section Methods.
Variable py : evaluator.
Variable self : config.

(** Inherited; [MultiThreadedDarkCrawler] wraps it in [write_data_lock]. *)
Definition _write_data : string → M state unit := BaseCrawler._write_data self.

(** [self._load_prev_crawl] is resolved on the class of the object. *)
Variable self__load_prev_crawl : M state unit.

Definition _load_ahmia_seeds : M state unit :=
  let ahmia_link := "https://ahmia.fi/search/?q=" in
  content ← open_read (default "" (ahmia_keyword_path self));
  for_each (Py.readlines content) (λ kw,
    let kw_link := ahmia_link +:+ Py.replace_char " " "+" (Py.strip kw) in
    s ← get;
    if bool_decide (kw_link ∉ searched s)
    then modify (set_queue (queue s ++ [kw_link]))
    else ret ()).

Definition _setup_structs : M state unit :=
  (if Py.truthy (resume_path self) then self__load_prev_crawl
   else
     modify (set_queue (seeds self)) ;;
     modify (set_searched ∅) ;;
     _write_data ("{" +:+ Py.nl)) ;;
  if Py.truthy (ahmia_keyword_path self) then _load_ahmia_seeds else ret ().

Definition _on_shutdown : M state unit :=
  print "Exiting crawler." ;;
  _write_data ("}" +:+ Py.nl) ;;
  path ← getattr self "savestate_path";
  s ← get;
  modify (on_world (file_write path
    ("deque(" +:+ Py.repr_list (queue s) +:+ ")" +:+ Py.nl
       +:+ Py.repr_set (searched s)))).

Definition _load_prev_crawl : M state unit :=
  BaseCrawler._load_prev_crawl py self ;;
  output_path ← getattr self "output_path";
  content ← open_read output_path;
  let lines := Py.readlines content in
  modify (on_world (file_write output_path "")) ;;
  for_each (removelast lines) (λ line,
    modify (on_world (file_append output_path line))).

Definition _is_new_onion_address (addr : string) (s : state) : bool :=
  bool_decide (addr ∉ queue s) && bool_decide (addr ∉ searched s).

Definition _scrape_links (bsoup : soup) : M state unit :=
  for_each (hrefs bsoup) (λ href,
    let onion_addr := onion_address_search href in
    s ← get;
    match onion_addr with
    | Some a =>
        if Py.truthy onion_addr && _is_new_onion_address a s
        then modify (set_queue (queue s ++ [a]))
        else ret ()
    | None => ret ()
    end).

Definition _scrape_btc_addresses (bsoup : soup) (url : string) : M state unit :=
  let btc_addresses := btc_addresses_of bsoup in
  title ← title_of bsoup;
  let out_value := str_of_out_value (elements btc_addresses) title in
  _write_data ("  '" +:+ url +:+ "': " +:+ out_value +:+ "," +:+ Py.nl).

Definition scrape_url (e : env) (url : string) : M state unit :=
  r ← try_except
        (if Py.endswith url ".onion" && (Py.len url <=? 30) then
           BaseCrawler._log_iter self e url "V2 address (deprecated)" ;;
           _write_data ("  '" +:+ url +:+ "': 'V2 address (deprecated)'," +:+ Py.nl) ;;
           ret None
         else
           response ← requests_get e url;
           BaseCrawler._log_iter self e url
             ("HTTP " +:+ Py.str_of_nat (status_code response)) ;;
           ret (Some response))
        (λ ex,
           BaseCrawler._log_iter self e url (class_name ex) ;;
           _write_data ("  '" +:+ url +:+ "': 'Exception: " +:+ class_name ex
                          +:+ "'," +:+ Py.nl) ;;
           ret None);
  match r with
  | None => ret ()
  | Some response =>
      if status_code response =? 200 then
        _scrape_links (parsed response) ;;
        _scrape_btc_addresses (parsed response) url
      else
        _write_data ("  '" +:+ url +:+ "': 'HTTP error: "
                       +:+ Py.str_of_nat (status_code response) +:+ "'," +:+ Py.nl)
  end.

(** [crawl] is the one of [BaseCrawler]; on an object of this class
    [self._setup_structs], [self.scrape_url] and [self._on_shutdown] are
    the methods above.  The result of the loop is [true] when it was left
    and [false] when the fuel ran out first. *)
Fixpoint crawl_loop (envs : nat → env) (fuel i : nat) : M state bool :=
  match fuel with
  | 0 => ret false
  | S fuel' =>
      s ← get;
      match queue s with
      | [] => ret true
      | url :: rest =>
          if limit_reached (size (searched s)) (search_limit self)
          then print "Search limit reached." ;; ret true
          else
            modify (set_queue rest) ;;
            scrape_url (envs i) url ;;
            crawl_loop envs fuel' (S i)
      end
  end.

Definition crawl (envs : nat → env) (fuel : nat) : M state bool :=
  _setup_structs ;;
  print ("Running DarkCrawler " +:+ Py.nl) ;;
  left ← crawl_loop envs fuel 0;
  if left : bool then _on_shutdown ;; ret true else ret false.

End Methods.
End DarkCrawler.

(** ** class MultiThreadedDarkCrawler(DarkCrawler) *)

Module MultiThreadedDarkCrawler.
Section Methods.
Variable py : evaluator.
Variable self : config.

Definition _write_data : string → M state unit := BaseCrawler._write_data self.
Definition _write_log : string → M state unit := BaseCrawler._write_log self.

Definition _load_prev_crawl : M state unit :=
  DarkCrawler._load_prev_crawl py self ;;
  modify (λ s, set_seen (list_to_set (queue s) ∪ searched s) s).

(** The locks carry no data; the executor starts with nothing submitted. *)
Definition _setup_structs : M state unit :=
  modify (set_seen ∅) ;;
  modify (set_work []) ;;
  DarkCrawler._setup_structs self _load_prev_crawl.

(** [executor.shutdown(cancel_futures=True)] drops what was submitted
    and not started. *)
Definition _on_shutdown : M state unit :=
  print "Shutting down. Waiting for tasks to finish." ;;
  modify (set_work []) ;;
  print "Exiting crawler." ;;
  _write_data ("}" +:+ Py.nl) ;;
  path ← getattr self "savestate_path";
  s ← get;
  modify (on_world (file_write path
    ("deque(" +:+ Py.repr_list (elements (seen s ∖ searched s)) +:+ ")" +:+ Py.nl
       +:+ Py.repr_set (searched s)))).

Definition _is_new_onion_address (addr : string) (s : state) : bool :=
  bool_decide (addr ∉ seen s).

Definition _log_iter (e : env) (url result : string) : M state unit :=
  modify (λ s, set_searched ({[url]} ∪ searched s) s) ;;
  s ← get;
  let log_info :=
    Py.join " | " ["#" +:+ Py.str_of_nat (size (searched s)); url;
                   "Called by: " +:+ thread_name e;
                   "In queue: " +:+ Py.str_of_nat (length (work s));
                   "Render time: " +:+ render_time e +:+ " s";
                   result +:+ Py.nl] in
  print log_info ;;
  _write_log log_info.

(** The block under [with self.queue_lock:] for one anchor. *)
Definition try_enqueue (onion_addr : option string) : M state unit :=
  s ← get;
  match onion_addr with
  | Some a =>
      if Py.truthy onion_addr && _is_new_onion_address a s
      then modify (λ s, set_seen ({[a]} ∪ seen s) s) ;;
           modify (λ s, set_queue (queue s ++ [a]) s)
      else ret ()
  | None => ret ()
  end.

(** [_scrape_links] when no other thread runs in between. *)
Definition _scrape_links (bsoup : soup) : M state unit :=
  for_each (hrefs bsoup) (λ href,
    try_enqueue (DarkCrawler.onion_address_search href)).

Definition _scrape_btc_addresses : soup → string → M state unit :=
  DarkCrawler._scrape_btc_addresses self.

Definition scrape_url (e : env) (url : string) : M state unit :=
  r ← try_except
        (if Py.endswith url ".onion" && (Py.len url <=? 30) then
           _log_iter e url "V2 address (deprecated)" ;;
           _write_data ("  '" +:+ url +:+ "': 'V2 address (deprecated)'," +:+ Py.nl) ;;
           ret None
         else
           response ← requests_get e url;
           _log_iter e url ("HTTP " +:+ Py.str_of_nat (status_code response)) ;;
           ret (Some response))
        (λ ex,
           _log_iter e url (class_name ex) ;;
           _write_data ("  '" +:+ url +:+ "': 'Exception: " +:+ class_name ex
                          +:+ "'," +:+ Py.nl) ;;
           ret None);
  match r with
  | None => ret ()
  | Some response =>
      if status_code response =? 200 then
        _scrape_links (parsed response) ;;
        _scrape_btc_addresses (parsed response) url
      else
        _write_data ("  '" +:+ url +:+ "': 'HTTP error: "
                       +:+ Py.str_of_nat (status_code response) +:+ "'," +:+ Py.nl)
  end.

(** One round of the [while True:] loop of [crawl] when the limit is not
    reached: under [queue_lock], every queued address is submitted to the
    executor and the queue is replaced by an empty one. *)
Definition drain : M state unit :=
  modify (λ s, set_work (work s ++ queue s) s) ;;
  modify (set_queue []).

(** The main thread alone: the [while True:] loop, [true] when it was left
    by [break] and [false] when the fuel ran out with the loop still
    going. *)
Fixpoint crawl_loop (fuel : nat) : M state bool :=
  match fuel with
  | 0 => ret false
  | S fuel' =>
      s ← get;
      if limit_reached (size (searched s)) (search_limit self) then
        print "Search limit reached." ;;
        _on_shutdown ;;
        ret true
      else drain ;; crawl_loop fuel'
  end.

(** A run of the whole crawler, one event after the other: a round of the
    main loop, or a worker thread that takes the oldest submitted address
    and runs [scrape_url] on it.  An exception of [scrape_url] ends that
    task only: it stays in a future nobody reads.  The end of the list is
    the keyboard interrupt, the one other way out of the loop. *)
Inductive event : Type :=
| MainRound
| WorkerRuns (e : env).

Definition worker (e : env) : M state unit :=
  s ← get;
  match work s with
  | [] => ret ()
  | url :: rest =>
      modify (set_work rest) ;;
      try_except (scrape_url e url) (λ _, ret ())
  end.

Fixpoint run (events : list event) : M state unit :=
  match events with
  | [] => _on_shutdown
  | MainRound :: rest =>
      s ← get;
      if limit_reached (size (searched s)) (search_limit self) then
        print "Search limit reached." ;;
        _on_shutdown
      else drain ;; run rest
  | WorkerRuns e :: rest => worker e ;; run rest
  end.

Definition crawl (events : list event) : M state unit :=
  _setup_structs ;;
  print ("Running MultiThreadedDarkCrawler " +:+ Py.nl) ;;
  run events.

End Methods.
End MultiThreadedDarkCrawler.

(** ** Threads: [_scrape_links] and the main loop, statement by statement

    The worker threads of the executor run [_scrape_links] concurrently
    with each other and with the main thread.  Here every statement is a
    step of its own, and a schedule picks which thread moves next; a thread
    that asks for [queue_lock] while another one holds it cannot move. *)

Module Threads.

Inductive actor : Type :=
| MainThread
| WorkerThread (i : nat).

Global Instance actor_eq_dec : EqDecision actor.
Proof. solve_decision. Defined.

(** Where a worker stands in [MultiThreadedDarkCrawler._scrape_links];
    [rest] are the [href] values of the anchors not visited yet. *)
Inductive pc : Type :=
| AtFor (rest : list (option string))
    (* for a in bsoup.findAll('a'): onion_addr = ... *)
| AtWith (onion_addr : option string) (rest : list (option string))
    (* with self.queue_lock: *)
| AtIf (onion_addr : option string) (rest : list (option string))
    (* if onion_addr and self._is_new_onion_address(onion_addr): *)
| AtAdd (a : string) (rest : list (option string))
    (* self.seen.add(onion_addr) *)
| AtAppend (a : string) (rest : list (option string))
    (* self.queue.append(onion_addr) *)
| AtRelease (rest : list (option string)).
    (* the end of the with block *)

(** Where the main thread stands in the loop of [crawl]. *)
Inductive main_pc : Type :=
| MainWith       (* with self.queue_lock: *)
| MainMap        (* exec.map(self.scrape_url, self.queue) *)
| MainReset      (* self.queue = deque([]) *)
| MainRelease.   (* the end of the with block *)

Record system : Type := System {
  shared : state;
  queue_lock : option actor;      (* who holds [self.queue_lock] *)
  main : main_pc;
  threads : list pc
}.

Definition with_shared (f : state → state) (σ : system) : system :=
  {| shared := f (shared σ); queue_lock := queue_lock σ; main := main σ;
     threads := threads σ |}.
Definition with_lock (l : option actor) (σ : system) : system :=
  {| shared := shared σ; queue_lock := l; main := main σ; threads := threads σ |}.
Definition with_main (m : main_pc) (σ : system) : system :=
  {| shared := shared σ; queue_lock := queue_lock σ; main := m;
     threads := threads σ |}.
Definition with_thread (i : nat) (p : pc) (σ : system) : system :=
  {| shared := shared σ; queue_lock := queue_lock σ; main := main σ;
     threads := <[i := p]> (threads σ) |}.

(** One statement of worker [i]; the second component lists the addresses
    appended to the queue by the step.  [None]: the thread cannot move,
    because it waits for the lock or has left the function. *)
Definition worker_step (i : nat) (σ : system) : option (system * list string) :=
  match threads σ !! i with
  | None => None
  | Some (AtFor []) => None
  | Some (AtFor (href :: rest)) =>
      Some (with_thread i (AtWith (DarkCrawler.onion_address_search href) rest) σ, [])
  | Some (AtWith onion_addr rest) =>
      match queue_lock σ with
      | None =>
          Some (with_thread i (AtIf onion_addr rest)
                  (with_lock (Some (WorkerThread i)) σ), [])
      | Some _ => None
      end
  | Some (AtIf onion_addr rest) =>
      match onion_addr with
      | Some a =>
          if Py.truthy onion_addr
             && MultiThreadedDarkCrawler._is_new_onion_address a (shared σ)
          then Some (with_thread i (AtAdd a rest) σ, [])
          else Some (with_thread i (AtRelease rest) σ, [])
      | None => Some (with_thread i (AtRelease rest) σ, [])
      end
  | Some (AtAdd a rest) =>
      Some (with_thread i (AtAppend a rest)
              (with_shared (λ s, set_seen ({[a]} ∪ seen s) s) σ), [])
  | Some (AtAppend a rest) =>
      Some (with_thread i (AtRelease rest)
              (with_shared (λ s, set_queue (queue s ++ [a]) s) σ), [a])
  | Some (AtRelease rest) =>
      Some (with_thread i (AtFor rest) (with_lock None σ), [])
  end.

(** One statement of the main thread. *)
Definition main_step (σ : system) : option (system * list string) :=
  match main σ with
  | MainWith =>
      match queue_lock σ with
      | None => Some (with_main MainMap (with_lock (Some MainThread) σ), [])
      | Some _ => None
      end
  | MainMap =>
      Some (with_main MainReset
              (with_shared (λ s, set_work (work s ++ queue s) s) σ), [])
  | MainReset =>
      Some (with_main MainRelease (with_shared (set_queue []) σ), [])
  | MainRelease =>
      Some (with_main MainWith (with_lock None σ), [])
  end.

Definition step (a : actor) (σ : system) : option (system * list string) :=
  match a with
  | MainThread => main_step σ
  | WorkerThread i => worker_step i σ
  end.

(** [reaches σ tr σ']: some schedule leads from [σ] to [σ'], and [tr]
    lists, in order, every address appended to the queue on the way. *)
Inductive reaches (σ : system) : list string → system → Prop :=
| reaches_here : reaches σ [] σ
| reaches_next tr σ' a σ'' ev :
    reaches σ tr σ' →
    step a σ' = Some (σ'', ev) →
    reaches σ (tr ++ ev) σ''.

(** A given schedule, run; a thread that cannot move is skipped. *)
Fixpoint exec (schedule : list actor) (σ : system) : system * list string :=
  match schedule with
  | [] => (σ, [])
  | a :: schedule' =>
      match step a σ with
      | Some (σ', ev) =>
          let '(σ'', tr) := exec schedule' σ' in (σ'', ev ++ tr)
      | None => exec schedule' σ
      end
  end.

(** The workers start at the top of the loop, one per fetched page; nobody
    holds the lock. *)
Definition init (s0 : state) (pages : list (list (option string))) : system :=
  {| shared := s0; queue_lock := None; main := MainWith;
     threads := AtFor <$> pages |}.

(** Every worker has left [_scrape_links]. *)
Definition finished (σ : system) : Prop :=
  ∀ i p, threads σ !! i = Some p → p = AtFor [].

(** Inside the [with self.queue_lock:] block. *)
Definition in_block (p : pc) : Prop :=
  match p with
  | AtFor _ | AtWith _ _ => False
  | AtIf _ _ | AtAdd _ _ | AtAppend _ _ | AtRelease _ => True
  end.

Definition main_in_block (m : main_pc) : Prop :=
  match m with
  | MainWith => False
  | MainMap | MainReset | MainRelease => True
  end.

(** The address one value of [onion_addr] feeds into the check: the
    value itself when it is a non-empty string, nothing otherwise. *)
Definition fed (onion_addr : option string) : gset string :=
  match onion_addr with
  | Some a => if Py.truthy onion_addr then {[a]} else ∅
  | None => ∅
  end.

(** The addresses a list of [href] values feeds into the check. *)
Fixpoint addresses (page : list (option string)) : gset string :=
  match page with
  | [] => ∅
  | href :: rest => fed (DarkCrawler.onion_address_search href) ∪ addresses rest
  end.

(** The addresses a worker has still to mark as seen from where it
    stands. *)
Definition pending (p : pc) : gset string :=
  match p with
  | AtFor rest => addresses rest
  | AtWith onion_addr rest | AtIf onion_addr rest => fed onion_addr ∪ addresses rest
  | AtAdd a rest => {[a]} ∪ addresses rest
  | AtAppend _ rest | AtRelease rest => addresses rest
  end.

(** The invariant of the lock discipline, for the run that started from
    [s0] with one worker per page of [pages] and has appended [tr] so far. *)
Definition thread_ok (s0 : state) (page : list (option string)) (tr : list string)
    (σ : system) (i : nat) (p : pc) : Prop :=
  (in_block p ↔ queue_lock σ = Some (WorkerThread i))
  ∧ addresses page ⊆ seen (shared σ) ∪ pending p
  ∧ pending p ⊆ addresses page
  ∧ match p with
    | AtAdd a _ => a ∉ seen (shared σ)
    | AtAppend a _ =>
        a ∈ seen (shared σ) ∧ (a ∉ tr) ∧ (a ∉ seen s0) ∧ a ∈ addresses page
    | _ => True
    end.

Definition invariant (s0 : state) (pages : list (list (option string)))
    (tr : list string) (σ : system) : Prop :=
  length (threads σ) = length pages
  ∧ (∀ i page p, pages !! i = Some page → threads σ !! i = Some p →
       thread_ok s0 page tr σ i p)
  ∧ (main_in_block (main σ) ↔ queue_lock σ = Some MainThread)
  ∧ NoDup tr
  ∧ (∀ a, a ∈ seen (shared σ) →
       a ∈ seen s0 ∨ a ∈ tr ∨ ∃ i rest, threads σ !! i = Some (AtAppend a rest))
  ∧ (∀ a, a ∈ tr →
       a ∈ seen (shared σ) ∧ (a ∉ seen s0) ∧ a ∈ addresses (concat pages))
  ∧ seen s0 ⊆ seen (shared σ).

End Threads.

(** ** An invariant of the sequential crawlers

    No address waits twice in the queue, none that waits was searched
    before, no address was requested twice, and the searched set is the set
    of the addresses requested. *)
Definition no_refetch (s : state) : Prop :=
  NoDup (queue s)
  ∧ (∀ a, a ∈ queue s → a ∉ searched s)
  ∧ NoDup (requests (outside s))
  ∧ searched s = list_to_set (requests (outside s)).

(** The same for [DarkCrawler], which marks a V2 address as searched
    without a request: every address requested is searched and is no V2
    address. *)
Definition no_refetch_dark (s : state) : Prop :=
  NoDup (queue s)
  ∧ (∀ a, a ∈ queue s → a ∉ searched s)
  ∧ NoDup (requests (outside s))
  ∧ (∀ a, a ∈ requests (outside s) → a ∈ searched s ∧ is_v2 a = false).

(** A text without a line break: [f.readline()] cannot end inside it. *)
Definition one_line (text : string) : Prop :=
  Forall (λ c, c ≠ Py.LF ∧ c ≠ Py.CR) (Py.to_list text).

(** ** The words of the specification, for comparison with the code *)

Module Spec.

(** "starts with bc1, 1, or 3, followed by 25-61 alphanumeric characters
    (total length 26-62)" *)
Definition payment_address (token : string) : Prop :=
  ∃ start rest,
    token = start +:+ rest
    ∧ (start = "bc1" ∨ start = "1" ∨ start = "3")
    ∧ 25 ≤ Py.len rest ≤ 61
    ∧ Forall (λ c, Re.alnum c = true) (Py.to_list rest)
    ∧ 26 ≤ Py.len token ≤ 62.

(** The same without the bound on the total length. *)
Definition payment_address_shape (token : string) : Prop :=
  ∃ start rest,
    token = start +:+ rest
    ∧ (start = "bc1" ∨ start = "1" ∨ start = "3")
    ∧ 25 ≤ Py.len rest ≤ 61
    ∧ Forall (λ c, Re.alnum c = true) (Py.to_list rest).

(** [tryEnqueue]: "returns false and does nothing if addr is in Seen;
    otherwise adds addr to Seen and to Pending". *)
Definition tryEnqueue (frontier : list string * gset string) (addr : string)
    : list string * gset string :=
  let '(pending, seen) := frontier in
  if bool_decide (addr ∈ seen) then frontier
  else (pending ++ [addr], {[addr]} ∪ seen).

(** "one derived search-query address per non-empty keyword line" *)
Definition derived_addresses (keyword_file : string) : list string :=
  (λ kw, "https://ahmia.fi/search/?q=" +:+ Py.replace_char " " "+" (Py.strip kw))
    <$> filter (λ kw, Py.strip kw ≠ "") (Py.readlines keyword_file).

(** "fresh run seeds Pending/Seen from the provided seed list plus ... one
    derived search-query address per non-empty keyword line, each subject
    to the same dedup check" *)
Definition fresh_frontier (seeds : list string) (keyword_file : option string)
    : list string * gset string :=
  foldl tryEnqueue ([], ∅)
        (seeds ++ from_option derived_addresses [] keyword_file).

(** The data model's failure descriptors: "V2 address (deprecated)",
    "Exception: <kind>", "HTTP error: <code>". *)
Definition status_text (text : string) : Prop :=
  text = "V2 address (deprecated)"
  ∨ (∃ kind, text = "Exception: " +:+ kind)
  ∨ (∃ code : nat, text = "HTTP error: " +:+ Py.str_of_nat code).

(** "<value> is either a nested map literal {'btc_addrs': [...],
    'title': '...'} or a quoted status string" *)
Definition record_value (value : string) : Prop :=
  (∃ text, status_text text ∧ value = "'" +:+ text +:+ "'")
  ∨ (∃ btc_addrs title,
       value = "{'btc_addrs': " +:+ Py.repr_list btc_addrs
                 +:+ ", 'title': " +:+ Py.repr title +:+ "}").

(** "each subsequent line an entry   '<address>': <value>,": the entry
    is one line of the file, so it holds no line break before the line
    feed at its end; the address stands between the quotes as it is. *)
Definition record_line (address line : string) : Prop :=
  ∃ value,
    record_value value
    ∧ one_line ("  '" +:+ address +:+ "': " +:+ value +:+ ",")
    ∧ line = "  '" +:+ address +:+ "': " +:+ value +:+ "," +:+ Py.nl.

(** "opened with { + newline at fresh start, ..., closed with } + newline
    at shutdown" *)
Definition record_file (content : string) : Prop :=
  ∃ lines : list string,
    Forall (λ line, ∃ address, record_line address line) lines
    ∧ content = "{" +:+ Py.nl +:+ foldr String.app "" lines +:+ "}" +:+ Py.nl.

End Spec.

(** What [scrape_url] appends to the data file for [url], whatever
    characters [url] and the name of the exception are made of: the
    f-strings of the source put both in as they are. *)
Definition written_record (url text : string) : Prop :=
  ∃ value,
    Spec.record_value value
    ∧ text = "  '" +:+ url +:+ "': " +:+ value +:+ "," +:+ Py.nl.

(** ** Sample inputs *)

Definition sample_config : config :=
  {| seeds := ["http://seedxxxxxxxxxxxxxxx.onion"];
     search_limit := Inf;
     output_dir := "output/crawler";
     resume_path := None;
     ahmia_keyword_path := None |}.

Definition no_eval : evaluator :=
  {| eval_deque := λ _, None; eval_set := λ _, None |}.

(** A savestate of one pending and one searched address, and an
    evaluator that reads its two lines. *)
Definition savestate_text : string :=
  "deque(['http://pendingaddressxxxxxxxxxxxxxxxxxxxxxxxxxxxxxxxxxxxxxxxxxxxxxxx.onion'])"
    +:+ Py.nl +:+ "{'http://seedxxxxxxxxxxxxxxx.onion'}".

Definition savestate_eval : evaluator :=
  {| eval_deque := λ line,
       if bool_decide (line = "deque(['http://pendingaddressxxxxxxxxxxxxxxxxxxxxxxxxxxxxxxxxxxxxxxxxxxxxxxx.onion'])" +:+ Py.nl)
       then Some ["http://pendingaddressxxxxxxxxxxxxxxxxxxxxxxxxxxxxxxxxxxxxxxxxxxxxxxx.onion"]
       else None;
     eval_set := λ line,
       if bool_decide (line = "{'http://seedxxxxxxxxxxxxxxx.onion'}")
       then Some {["http://seedxxxxxxxxxxxxxxx.onion"]}
       else None |}.

Definition resumed_config : config :=
  {| seeds := [];
     search_limit := Inf;
     output_dir := "";
     resume_path := Some "savestate.txt";
     ahmia_keyword_path := None |}.

(** The files a run that shut down in order has left. *)
Definition resumed_state : state :=
  {| queue := []; searched := ∅; seen := ∅; work := [];
     outside :=
       {| files :=
            {["savestate.txt" := savestate_text;
              "data.txt" := "{" +:+ Py.nl
                 +:+ "  'http://seedxxxxxxxxxxxxxxx.onion': 'V2 address (deprecated)',"
                 +:+ Py.nl +:+ "}" +:+ Py.nl]};
          requests := []; stdout := [] |} |}.

Definition empty_world : world := {| files := ∅; requests := []; stdout := [] |}.

Definition empty_state : state :=
  {| queue := []; searched := ∅; seen := ∅; work := []; outside := empty_world |}.

(** A page with a payment address in its text, one link and no title. *)
Definition untitled_page : soup :=
  {| hrefs := [Some "http://abcdefghijklmnopqrstuvwxyzabcdefghijklmnopqrstuvwxyz2345.onion/"];
     strings := ["Donate: 1A1zP1eP5QGefi2DMPTfTL5SLmv7DivfNa"];
     title := None |}.

(** A seed given twice, and a keyword file with one phrase and one blank
    line. *)
Definition twice_seeded_config : config :=
  {| seeds := ["http://seedxxxxxxxxxxxxxxx.onion"; "http://seedxxxxxxxxxxxxxxx.onion"];
     search_limit := Inf;
     output_dir := "";
     resume_path := None;
     ahmia_keyword_path := Some "keywords.txt" |}.

Definition keyword_text : string := "bitcoin mixer" +:+ Py.nl +:+ Py.nl.

Definition keyword_state : state :=
  {| queue := []; searched := ∅; seen := ∅; work := [];
     outside := {| files := {["keywords.txt" := keyword_text]};
                   requests := []; stdout := [] |} |}.

(** A page whose one payment-address-shaped token is also the target of
    a link, with [.onion] appended. *)
Definition reused_token_page : soup :=
  {| hrefs := [Some "1A1zP1eP5QGefi2DMPTfTL5SLmv7DivfNa.onion"];
     strings := ["Mirror:"; "1A1zP1eP5QGefi2DMPTfTL5SLmv7DivfNa"];
     title := Some (Some "Mirrors") |}.

(** Two pages that link to the same address, and a schedule in which the
    two workers alternate, the second one waiting for the lock. *)
Definition two_pages : list (list (option string)) :=
  [[Some "http://aaaaaaaaaaaaaaaaaaaaaaaaaaaaaaaaaaaaaaaaaaaaaaaaaaaaaaaa.onion/x"; None];
   [Some "see http://aaaaaaaaaaaaaaaaaaaaaaaaaaaaaaaaaaaaaaaaaaaaaaaaaaaaaaaa.onion"]].

Definition alternating : list Threads.actor :=
  [Threads.WorkerThread 0; Threads.WorkerThread 1;
   Threads.WorkerThread 0; Threads.WorkerThread 1;
   Threads.MainThread;
   Threads.WorkerThread 0; Threads.WorkerThread 1;
   Threads.WorkerThread 0; Threads.WorkerThread 1;
   Threads.WorkerThread 0; Threads.WorkerThread 1;
   Threads.WorkerThread 0; Threads.WorkerThread 0; Threads.WorkerThread 0;
   Threads.WorkerThread 0; Threads.WorkerThread 0;
   Threads.MainThread; Threads.MainThread; Threads.MainThread; Threads.MainThread;
   Threads.WorkerThread 1; Threads.WorkerThread 1; Threads.WorkerThread 1;
   Threads.WorkerThread 1; Threads.WorkerThread 1].

(** A crawl of the open web: one seed, a limit of two addresses, and a
    network on which every page links to the same three addresses. *)
Definition com_config : config :=
  {| seeds := ["http://a.com"];
     search_limit := Finite 2;
     output_dir := "";
     resume_path := None;
     ahmia_keyword_path := None |}.

Definition com_page : soup :=
  {| hrefs := [Some "http://a.com"; Some "http://b.com"; None; Some "http://c.com";
               Some "http://b.com"; Some "mailto:x@example.org"];
     strings := [];
     title := None |}.

Definition com_envs (i : nat) : env :=
  {| answer := Replies {| status_code := 200; parsed := com_page |};
     thread_name := "MainThread"; render_time := "0.1" |}.

Definition sample_env (a : reply) : env :=
  {| answer := a; thread_name := "Thread_0"; render_time := "0.42" |}.

(** A crawl that was interrupted with one address pending and one
    searched. *)
Definition interrupted_state : state :=
  {| queue := ["http://pendingaddressxxxxxxxxxxxxxxxxxxxxxxxxxxxxxxxxxxxxxxxxxxxxxxx.onion"];
     searched := {["http://seedxxxxxxxxxxxxxxx.onion"]};
     seen := ∅; work := []; outside := empty_world |}.

(** A data file, known by what [eval] makes of it: a page that lists two
    addresses, the first of them twice, a status text, and a page that
    lists the two in the other order and a third one after them. *)
Definition crawled_world : world :=
  {| files := {["data.txt" := "{}"]}; requests := []; stdout := [] |}.

Definition crawled_values : list Process.value :=
  [Process.Page ["bc1qar0srrr7xfkvy5l643lydnw9re59gtzzwf5mdq";
                 "1A1zP1eP5QGefi2DMPTfTL5SLmv7DivfNa";
                 "bc1qar0srrr7xfkvy5l643lydnw9re59gtzzwf5mdq"] "Donate";
   Process.Status "V2 address (deprecated)";
   Process.Page ["1A1zP1eP5QGefi2DMPTfTL5SLmv7DivfNa";
                 "bc1qar0srrr7xfkvy5l643lydnw9re59gtzzwf5mdq";
                 "3J98t1WpEZ73CNmQviecrnyiWrnqRhWNLy"] "Mirror"].

(** A seed with a line feed in it; by its length and its ending it is
    taken for a V2 address. *)
Definition line_break_config : config :=
  {| seeds := ["http://a" +:+ Py.nl +:+ "b.onion"];
     search_limit := Inf;
     output_dir := "";
     resume_path := None;
     ahmia_keyword_path := None |}.

(** One seed, and a page that links back to it. *)
Definition self_linking_config : config :=
  {| seeds := ["http://aaaaaaaaaaaaaaaaaaaaaaaaaaaaaaaaaaaaaaaaaaaaaaaaaaaaaaaa.onion"];
     search_limit := Inf;
     output_dir := "";
     resume_path := None;
     ahmia_keyword_path := None |}.

Definition self_linking_page : soup :=
  {| hrefs := [Some "http://aaaaaaaaaaaaaaaaaaaaaaaaaaaaaaaaaaaaaaaaaaaaaaaaaaaaaaaa.onion"];
     strings := [];
     title := None |}.

(** Two seeds under a search limit of one. *)
Definition limited_config : config :=
  {| seeds := ["http://aaaaaaaaaaaaaaaaaaaaaaaaaaaaaaaaaaaaaaaaaaaaaaaaaaaaaaaa.onion";
               "http://bbbbbbbbbbbbbbbbbbbbbbbbbbbbbbbbbbbbbbbbbbbbbbbbbbbbbbbb.onion"];
     search_limit := Finite 1;
     output_dir := "";
     resume_path := None;
     ahmia_keyword_path := None |}.

(** The files of a fetch run: two proxies known as active, and an address
    file of one address and one blank line. *)
Definition proxied_world : world :=
  {| files :=
       {["active-proxies.txt" := "10.0.0.1:8080" +:+ Py.nl +:+ "10.0.0.2:8080" +:+ Py.nl;
         "btc-addrs.txt" := "1A1zP1eP5QGefi2DMPTfTL5SLmv7DivfNa" +:+ Py.nl +:+ Py.nl]};
     requests := []; stdout := [] |}.

(** [bc1] followed by sixty-one times the letter [a]. *)
Definition longest_bech32 : string :=
  "bc1aaaaaaaaaaaaaaaaaaaaaaaaaaaaaaaaaaaaaaaaaaaaaaaaaaaaaaaaaaaaa".



(** * Part II: lemmas and theorems *)

(** ** Strings as lists of characters *)

Lemma to_list_app s t : Py.to_list (s +:+ t) = Py.to_list s ++ Py.to_list t.
Proof.
  unfold Py.to_list. induction s as [|c s IH]; [done|].
  change (String c s +:+ t) with (String c (s +:+ t)). simpl. by rewrite IH.
Qed.

Lemma to_list_length s : length (Py.to_list s) = Py.len s.
Proof.
  unfold Py.to_list, Py.len. induction s as [|c s IH]; [done|].
  simpl. by rewrite IH.
Qed.

Lemma of_to_list s : Py.of_list (Py.to_list s) = s.
Proof. apply String.string_of_list_ascii_of_string. Qed.

Lemma to_of_list l : Py.to_list (Py.of_list l) = l.
Proof. apply String.list_ascii_of_string_of_list_ascii. Qed.

Lemma to_list_inj s t : Py.to_list s = Py.to_list t → s = t.
Proof. intros H. by rewrite <- (of_to_list s), <- (of_to_list t), H. Qed.

Lemma len_app s t : Py.len (s +:+ t) = Py.len s + Py.len t.
Proof. by rewrite <- !to_list_length, to_list_app, length_app. Qed.

Lemma str_app_assoc (s t u : string) : (s +:+ t) +:+ u = s +:+ t +:+ u.
Proof. apply to_list_inj. by rewrite !to_list_app, (assoc_L (++)). Qed.

Lemma str_app_nil_r (s : string) : s +:+ "" = s.
Proof. apply to_list_inj. rewrite to_list_app. apply (right_id_L [] (++)). Qed.

(** ** The matcher on the shapes the payment-address pattern is made of *)

Lemma is_Some_first {A} (a b : option A) :
  is_Some (match a with Some x => Some x | None => b end) ↔ is_Some a ∨ is_Some b.
Proof. destruct a; split; eauto. intros [[? [=]]|?]; done. Qed.

Lemma matchk_lit {A} (t : string) (s : list ascii) (k : list ascii → option A) :
  is_Some (Re.matchk (Re.lit t) s k)
  ↔ ∃ rest, s = Py.to_list t ++ rest ∧ is_Some (k rest).
Proof.
  revert s. induction t as [|c t IH]; intros s; cbn.
  - split; [eauto|]. by intros (rest & -> & ?).
  - destruct s as [|x s].
    + split; [by intros [? [=]]|]. by intros (rest & [=] & ?).
    + case_bool_decide as Hx.
      * subst x. rewrite IH. split.
        -- intros (rest & -> & ?). eauto.
        -- intros (rest & [= ->] & ?). eauto.
      * split; [by intros [? [=]]|]. intros (rest & [= ? ?] & ?). done.
Qed.

Lemma rep_class_at_end (p : ascii → bool) (lo hi : nat) (s : list ascii) :
  is_Some (Re.rep_k (Re.matchk (Re.Class p)) Re.at_end lo hi s)
  ↔ lo ≤ length s ≤ hi ∧ Forall (λ c, p c = true) s.
Proof.
  revert lo s. induction hi as [|hi IH]; intros lo s.
  - cbn. destruct lo as [|lo].
    + destruct s as [|x s]; cbn.
      * split; [intros _; split; [lia|constructor]|by eexists].
      * split; [by intros [? [=]]|]. intros [? _]. lia.
    + split; [by intros [? [=]]|]. intros [? _]. lia.
  - cbn [Re.rep_k]. rewrite is_Some_first. destruct s as [|x s]; cbn [Re.matchk].
    + destruct lo as [|lo]; cbn.
      * split; [intros _; split; [lia|constructor]|]. intros _. right. by eexists.
      * split; [by intros [[? [=]]|[? [=]]]|]. intros [? _]. lia.
    + destruct (p x) eqn:Hp.
      * rewrite IH. split.
        -- intros [[? ?]|Hk].
           ++ cbn. split; [lia|]. by constructor.
           ++ destruct lo; cbn in Hk; by destruct Hk as [? [=]].
        -- intros [Hl HF]. cbn in Hl. inversion_clear HF. left. split; [lia|done].
      * split.
        -- intros [[? [=]]|Hk]. destruct lo; cbn in Hk; by destruct Hk as [? [=]].
        -- intros [_ HF]. inversion_clear HF. congruence.
Qed.

Lemma fullmatch_btc (token : string) :
  Re.fullmatch Re.btc_pattern token = true ↔ Spec.payment_address_shape token.
Proof.
  unfold Re.fullmatch. rewrite bool_decide_eq_true.
  unfold Re.btc_pattern. cbn [Re.matchk]. rewrite is_Some_first.
  rewrite (matchk_lit "bc1").
  split.
  - intros [(rest & Hs & Hk)|Hk].
    + cbn [default] in Hk. apply rep_class_at_end in Hk as [Hl HF]. unfold id in Hl.
      exists "bc1", (Py.of_list rest). rewrite to_of_list, <- to_list_length, to_of_list.
      split_and!; auto; try lia.
      { apply to_list_inj. by rewrite to_list_app, to_of_list. }
    + destruct (Py.to_list token) as [|x rest] eqn:Hs; [by destruct Hk as [? [=]]|].
      destruct (Re.one_or_three x) eqn:Hx; [|by destruct Hk as [? [=]]].
      cbn [default] in Hk. apply rep_class_at_end in Hk as [Hl HF]. unfold id in Hl.
      exists (String x ""), (Py.of_list rest).
      rewrite to_of_list, <- to_list_length, to_of_list.
      split_and!; auto; try lia.
      * apply to_list_inj. by rewrite to_list_app, to_of_list.
      * unfold Re.one_or_three in Hx. apply orb_true_iff in Hx as [Hx|Hx];
          apply bool_decide_eq_true in Hx; subst; auto.
  - intros (start & rest & -> & Hstart & Hl & HF).
    rewrite <- to_list_length in Hl. rewrite to_list_app.
    destruct Hstart as [->|[->| ->]].
    + left. exists (Py.to_list rest). split; [done|].
      by apply rep_class_at_end.
    + right. change (Py.to_list "1") with ["1"%char].
      cbn [app]. change (Re.one_or_three "1") with true. cbv iota.
      by apply rep_class_at_end.
    + right. change (Py.to_list "3") with ["3"%char].
      cbn [app]. change (Re.one_or_three "3") with true. cbv iota.
      by apply rep_class_at_end.
Qed.

Lemma btc_address_search_eq (token : string) :
  DarkCrawler.btc_address_search token
  = if Fetch.is_valid_btc_address token then Some token else None.
Proof.
  unfold DarkCrawler.btc_address_search, Fetch.is_valid_btc_address, Py.truthy.
  case_bool_decide as Hempty; [|done]. by subst token.
Qed.

Lemma payment_address_shape_len (token : string) :
  Spec.payment_address_shape token → 26 ≤ Py.len token ≤ 64.
Proof.
  intros (start & rest & -> & Hstart & Hl & _). rewrite len_app.
  destruct Hstart as [->|[->| ->]]; cbn; lia.
Qed.

(** ** C3: the payment-address grammar *)

(** C3, as stated, fails: a token of [bc1] and 61 alphanumeric characters
    is accepted by the recognizer although its total length, 64, is outside
    26-62. *)
Lemma btc_grammar_total_length_fails :
  ¬ (Fetch.is_valid_btc_address longest_bech32 = true
     ↔ Spec.payment_address longest_bech32).
Proof.
  intros [Hto _].
  assert (Fetch.is_valid_btc_address longest_bech32 = true) as Hv
    by (vm_compute; reflexivity).
  destruct (Hto Hv) as (start & rest & _ & _ & _ & _ & Hlen).
  change (Py.len longest_bech32) with 64 in Hlen. lia.
Qed.

(** C3, amended: a token is accepted by [is_valid_btc_address] and returned
    by [btc_address_search] exactly when it is [bc1], [1] or [3] followed
    by 25 to 61 characters of [a-zA-Z0-9], as a match of the whole token;
    its total length then lies between 26 and 64.  The two sample addresses
    are accepted; [0xAbC123] and every token of 20 characters are not. *)
Theorem btc_grammar_amended :
  (∀ token,
     (Fetch.is_valid_btc_address token = true ↔ Spec.payment_address_shape token)
     ∧ (DarkCrawler.btc_address_search token = Some token
        ↔ Spec.payment_address_shape token)
     ∧ (¬ Spec.payment_address_shape token
        → DarkCrawler.btc_address_search token = None)
     ∧ (Spec.payment_address_shape token → 26 ≤ Py.len token ≤ 64))
  ∧ Fetch.is_valid_btc_address "1A1zP1eP5QGefi2DMPTfTL5SLmv7DivfNa" = true
  ∧ Fetch.is_valid_btc_address "bc1qar0srrr7xfkvy5l643lydnw9re59gtzzwf5mdq" = true
  ∧ Fetch.is_valid_btc_address "0xAbC123" = false
  ∧ (∀ token, Py.len token = 20 → Fetch.is_valid_btc_address token = false).
Proof.
  split_and!; try done.
  - intros token. split_and!.
    + apply fullmatch_btc.
    + rewrite btc_address_search_eq, <- fullmatch_btc.
      unfold Fetch.is_valid_btc_address.
      destruct (Re.fullmatch Re.btc_pattern token); naive_solver.
    + rewrite btc_address_search_eq, <- fullmatch_btc.
      unfold Fetch.is_valid_btc_address.
      destruct (Re.fullmatch Re.btc_pattern token); naive_solver.
    + apply payment_address_shape_len.
  - intros token Hlen.
    destruct (Fetch.is_valid_btc_address token) eqn:Hv; [|done].
    apply fullmatch_btc, payment_address_shape_len in Hv. lia.
Qed.

Lemma btc_grammar_amended_witness :
  Spec.payment_address_shape "3J98t1WpEZ73CNmQviecrnyiWrnqRhWNLy"
  ∧ 26 ≤ Py.len "3J98t1WpEZ73CNmQviecrnyiWrnqRhWNLy" ≤ 64.
Proof.
  assert (Spec.payment_address_shape "3J98t1WpEZ73CNmQviecrnyiWrnqRhWNLy") as H.
  { apply (proj1 btc_grammar_amended "3J98t1WpEZ73CNmQviecrnyiWrnqRhWNLy").
    vm_compute. reflexivity. }
  split; [exact H|].
  exact (proj2 (proj2 (proj2 (proj1 btc_grammar_amended
           "3J98t1WpEZ73CNmQviecrnyiWrnqRhWNLy"))) H).
Defined.

(** ** The files of a crawler *)

Lemma path_join_inj (dir name1 name2 : string) :
  Py.path_join dir name1 = Py.path_join dir name2 → name1 = name2.
Proof.
  unfold Py.path_join. case_bool_decide as Hdir; [done|].
  destruct (Py.endswith dir "/"); intros H.
  - by apply (inj (String.app dir)) in H.
  - apply (inj (String.app dir)) in H. by apply (inj (String.app "/")) in H.
Qed.

Lemma log_path_ne_data_path self : log_path self ≠ data_path self.
Proof. intros H. by apply path_join_inj in H. Qed.

Lemma savestate_path_ne_data_path self : savestate_path self ≠ data_path self.
Proof. intros H. by apply path_join_inj in H. Qed.

Lemma savestate_path_ne_log_path self : savestate_path self ≠ log_path self.
Proof. intros H. by apply path_join_inj in H. Qed.

Lemma getattr_data_path self s :
  getattr self "data_path" s = (Ok (data_path self), s).
Proof. done. Qed.

Lemma getattr_log_path self s :
  getattr self "log_path" s = (Ok (log_path self), s).
Proof. done. Qed.

Lemma getattr_savestate_path self s :
  getattr self "savestate_path" s = (Ok (savestate_path self), s).
Proof. done. Qed.

Lemma getattr_output_path self s :
  getattr self "output_path" s = (Raise (AttributeError "output_path"), s).
Proof. done. Qed.

Lemma file_text_append_eq path text s :
  file_text path (on_world (file_append path text) s) = file_text path s +:+ text.
Proof. unfold file_text. cbn. by rewrite lookup_insert_eq. Qed.

Lemma file_text_append_ne path path' text s :
  path' ≠ path →
  file_text path (on_world (file_append path' text) s) = file_text path s.
Proof. intros. unfold file_text. cbn. by rewrite lookup_insert_ne. Qed.

Lemma file_text_write_ne path path' text s :
  path' ≠ path →
  file_text path (on_world (file_write path' text) s) = file_text path s.
Proof. intros. unfold file_text. cbn. by rewrite lookup_insert_ne. Qed.

Lemma write_data_eq self text s :
  BaseCrawler._write_data self text s
  = (Ok (), on_world (file_append (data_path self) text) s).
Proof. done. Qed.

Lemma write_log_eq self text s :
  BaseCrawler._write_log self text s
  = (Ok (), on_world (file_append (log_path self) text) s).
Proof. done. Qed.

(** ** What one call of [scrape_url] does *)

Lemma join_log_line (a b c d result : string) :
  ∃ head, Py.join " | " [a; b; c; d; result +:+ Py.nl] = head +:+ result +:+ Py.nl.
Proof.
  exists (a +:+ " | " +:+ b +:+ " | " +:+ c +:+ " | " +:+ d +:+ " | ").
  cbn [Py.join]. by rewrite !str_app_assoc.
Qed.

Lemma join_log_line_mt (a b c d d' result : string) :
  ∃ head,
    Py.join " | " [a; b; c; d; d'; result +:+ Py.nl] = head +:+ result +:+ Py.nl.
Proof.
  exists (a +:+ " | " +:+ b +:+ " | " +:+ c +:+ " | " +:+ d +:+ " | " +:+ d' +:+ " | ").
  cbn [Py.join]. by rewrite !str_app_assoc.
Qed.

Lemma mt_log_iter_eq self e url result s :
  ∃ head,
    MultiThreadedDarkCrawler._log_iter self e url result s
    = (Ok (), logged self url (head +:+ result +:+ Py.nl) s).
Proof.
  unfold MultiThreadedDarkCrawler._log_iter.
  destruct (join_log_line_mt
    ("#" +:+ Py.str_of_nat (size ({[url]} ∪ searched s))) url
    ("Called by: " +:+ thread_name e)
    ("In queue: " +:+ Py.str_of_nat (length (work s)))
    ("Render time: " +:+ render_time e +:+ " s") result) as [head Hhead].
  exists head. cbn. by rewrite <- Hhead.
Qed.

Lemma base_log_iter_eq self e url result s :
  ∃ head,
    BaseCrawler._log_iter self e url result s
    = (Ok (), logged self url (head +:+ result +:+ Py.nl) s).
Proof.
  unfold BaseCrawler._log_iter.
  destruct (join_log_line
    ("#" +:+ Py.str_of_nat (size ({[url]} ∪ searched s))) url
    ("In queue: " +:+ Py.str_of_nat (length (queue s)))
    ("Render time: " +:+ render_time e +:+ " s") result) as [head Hhead].
  exists head. cbn. by rewrite <- Hhead.
Qed.

Lemma try_enqueue_frame a s :
  ∃ s',
    MultiThreadedDarkCrawler.try_enqueue a s = (Ok (), s')
    ∧ outside s' = outside s ∧ searched s' = searched s ∧ work s' = work s.
Proof.
  unfold MultiThreadedDarkCrawler.try_enqueue. cbn.
  destruct a as [a|]; [|by eexists].
  destruct (_ && _); by eexists.
Qed.

Lemma mt_scrape_links_frame bsoup s :
  ∃ s',
    MultiThreadedDarkCrawler._scrape_links bsoup s = (Ok (), s')
    ∧ outside s' = outside s ∧ searched s' = searched s ∧ work s' = work s.
Proof.
  unfold MultiThreadedDarkCrawler._scrape_links.
  revert s. induction (hrefs bsoup) as [|href l IH]; intros s.
  - by eexists.
  - cbn [for_each]. unfold bind at 1.
    destruct (try_enqueue_frame (DarkCrawler.onion_address_search href) s)
      as (s1 & -> & Ho & Hs & Hw).
    destruct (IH s1) as (s2 & -> & Ho2 & Hs2 & Hw2).
    exists s2. split_and!; congruence.
Qed.

Lemma dark_scrape_links_frame bsoup s :
  ∃ s',
    DarkCrawler._scrape_links bsoup s = (Ok (), s')
    ∧ outside s' = outside s ∧ searched s' = searched s ∧ work s' = work s.
Proof.
  unfold DarkCrawler._scrape_links.
  revert s. induction (hrefs bsoup) as [|href l IH]; intros s.
  - by eexists.
  - cbn [for_each]. unfold bind at 1.
    assert (∃ s1,
      (s0 ← get;
       match DarkCrawler.onion_address_search href with
       | Some a =>
           if Py.truthy (DarkCrawler.onion_address_search href)
              && DarkCrawler._is_new_onion_address a s0
           then modify (set_queue (queue s0 ++ [a]))
           else ret ()
       | None => ret ()
       end) s = (Ok (), s1)
      ∧ outside s1 = outside s ∧ searched s1 = searched s ∧ work s1 = work s)
      as (s1 & -> & Ho & Hs & Hw).
    { cbn. destruct (DarkCrawler.onion_address_search href); [|by eexists].
      destruct (_ && _); by eexists. }
    destruct (IH s1) as (s2 & -> & Ho2 & Hs2 & Hw2).
    exists s2. split_and!; congruence.
Qed.

(** ** Running the monad step by step *)

Lemma bind_ok {S A B} (m : M S A) (f : A → M S B) s a s1 r :
  m s = (Ok a, s1) → f a s1 = r → bind m f s = r.
Proof. intros Hm Hf. unfold bind. by rewrite Hm. Qed.

Lemma bind_raise {S A B} (m : M S A) (f : A → M S B) s e s1 :
  m s = (Raise e, s1) → bind m f s = (Raise e, s1).
Proof. intros Hm. unfold bind. by rewrite Hm. Qed.

Lemma try_ok {S A} (body : M S A) (handler : exn → M S A) s a s1 :
  body s = (Ok a, s1) → try_except body handler s = (Ok a, s1).
Proof. intros Hm. unfold try_except. by rewrite Hm. Qed.

Lemma try_raise {S A} (body : M S A) (handler : exn → M S A) s e s1 r :
  body s = (Raise e, s1) → handler e s1 = r → try_except body handler s = r.
Proof. intros Hm Hh. unfold try_except. by rewrite Hm. Qed.

Lemma requests_get_replies e url s res :
  answer e = Replies res →
  requests_get e url s = (Ok res, on_world (send_request url) s).
Proof. intros H. unfold requests_get, bind, modify. by rewrite H. Qed.

Lemma requests_get_fails e url s c :
  answer e = Fails c →
  requests_get e url s = (Raise (RaisedBy c), on_world (send_request url) s).
Proof. intros H. unfold requests_get, bind, modify. by rewrite H. Qed.

Lemma mt_scrape_url_v2 self e url s :
  is_v2 url = true →
  ∃ head,
    MultiThreadedDarkCrawler.scrape_url self e url s
    = (Ok (),
       on_world (file_append (data_path self)
                   ("  '" +:+ url +:+ "': 'V2 address (deprecated)'," +:+ Py.nl))
         (logged self url (head +:+ "V2 address (deprecated)" +:+ Py.nl) s)).
Proof.
  intros Hv2. unfold is_v2 in Hv2.
  destruct (mt_log_iter_eq self e url "V2 address (deprecated)" s) as [head Hlog].
  exists head. unfold MultiThreadedDarkCrawler.scrape_url. rewrite Hv2.
  eapply bind_ok;
    [eapply try_ok, bind_ok;
       [exact Hlog|eapply bind_ok; [apply write_data_eq|reflexivity]]
    |reflexivity].
Qed.

Lemma mt_scrape_url_fails self e url s c :
  is_v2 url = false →
  answer e = Fails c →
  ∃ head,
    MultiThreadedDarkCrawler.scrape_url self e url s
    = (Ok (),
       on_world (file_append (data_path self)
                   ("  '" +:+ url +:+ "': 'Exception: " +:+ c +:+ "'," +:+ Py.nl))
         (logged self url (head +:+ c +:+ Py.nl)
            (on_world (send_request url) s))).
Proof.
  intros Hv2 Hans. unfold is_v2 in Hv2.
  destruct (mt_log_iter_eq self e url c (on_world (send_request url) s)) as [head Hlog].
  exists head. unfold MultiThreadedDarkCrawler.scrape_url. rewrite Hv2.
  eapply bind_ok;
    [eapply try_raise;
       [eapply bind_raise; by apply requests_get_fails
       |eapply bind_ok;
          [exact Hlog|eapply bind_ok; [apply write_data_eq|reflexivity]]]
    |reflexivity].
Qed.

Lemma mt_scrape_url_http_error self e url s res :
  is_v2 url = false →
  answer e = Replies res →
  status_code res ≠ 200 →
  ∃ head,
    MultiThreadedDarkCrawler.scrape_url self e url s
    = (Ok (),
       on_world (file_append (data_path self)
                   ("  '" +:+ url +:+ "': 'HTTP error: "
                      +:+ Py.str_of_nat (status_code res) +:+ "'," +:+ Py.nl))
         (logged self url
            (head +:+ ("HTTP " +:+ Py.str_of_nat (status_code res)) +:+ Py.nl)
            (on_world (send_request url) s))).
Proof.
  intros Hv2 Hans Hst. unfold is_v2 in Hv2.
  destruct (mt_log_iter_eq self e url ("HTTP " +:+ Py.str_of_nat (status_code res))
              (on_world (send_request url) s)) as [head Hlog].
  exists head. unfold MultiThreadedDarkCrawler.scrape_url. rewrite Hv2.
  eapply bind_ok.
  - eapply try_ok, bind_ok; [by apply requests_get_replies|].
    eapply bind_ok; [exact Hlog|reflexivity].
  - cbv beta iota. apply Nat.eqb_neq in Hst. rewrite Hst. apply write_data_eq.
Qed.

Lemma scrape_btc_addresses_eq self bsoup url s :
  DarkCrawler._scrape_btc_addresses self bsoup url s
  = match title bsoup with
    | None => (Raise (AttributeError "string"), s)
    | Some None => (Raise (AttributeError "replace"), s)
    | Some (Some t) =>
        (Ok (),
         on_world (file_append (data_path self)
           ("  '" +:+ url +:+ "': "
              +:+ DarkCrawler.str_of_out_value
                    (elements (DarkCrawler.btc_addresses_of bsoup))
                    (Py.strip (Py.replace_char Py.LF "" t))
              +:+ "," +:+ Py.nl)) s)
    end.
Proof.
  unfold DarkCrawler._scrape_btc_addresses, DarkCrawler.title_of, bind.
  by destruct (title bsoup) as [[t|]|].
Qed.

Lemma mt_scrape_url_200 self e url s res :
  is_v2 url = false →
  answer e = Replies res →
  status_code res = 200 →
  ∃ head s1,
    outside s1 = outside (logged self url (head +:+ "HTTP 200" +:+ Py.nl)
                            (on_world (send_request url) s))
    ∧ searched s1 = {[url]} ∪ searched s
    ∧ work s1 = work s
    ∧ MultiThreadedDarkCrawler.scrape_url self e url s
      = DarkCrawler._scrape_btc_addresses self (parsed res) url s1.
Proof.
  intros Hv2 Hans Hst. unfold is_v2 in Hv2.
  destruct (mt_log_iter_eq self e url ("HTTP " +:+ Py.str_of_nat (status_code res))
              (on_world (send_request url) s)) as [head Hlog].
  rewrite Hst in Hlog. change (Py.str_of_nat 200) with "200" in Hlog.
  change ("HTTP " +:+ "200") with "HTTP 200" in Hlog.
  destruct (mt_scrape_links_frame (parsed res)
              (logged self url (head +:+ "HTTP 200" +:+ Py.nl)
                 (on_world (send_request url) s))) as (s1 & Hlinks & Ho & Hs & Hw).
  exists head, s1. split_and!; [done..|].
  unfold MultiThreadedDarkCrawler.scrape_url. rewrite Hv2.
  eapply bind_ok.
  - eapply try_ok, bind_ok; [by apply requests_get_replies|].
    rewrite Hst. change (Py.str_of_nat 200) with "200".
    change ("HTTP " +:+ "200") with "HTTP 200".
    eapply bind_ok; [exact Hlog|reflexivity].
  - cbv beta iota. rewrite Hst. cbn [Nat.eqb].
    eapply bind_ok; [exact Hlinks|reflexivity].
Qed.

Lemma dark_scrape_url_v2 self e url s :
  is_v2 url = true →
  ∃ head,
    DarkCrawler.scrape_url self e url s
    = (Ok (),
       on_world (file_append (data_path self)
                   ("  '" +:+ url +:+ "': 'V2 address (deprecated)'," +:+ Py.nl))
         (logged self url (head +:+ "V2 address (deprecated)" +:+ Py.nl) s)).
Proof.
  intros Hv2. unfold is_v2 in Hv2.
  destruct (base_log_iter_eq self e url "V2 address (deprecated)" s) as [head Hlog].
  exists head. unfold DarkCrawler.scrape_url. rewrite Hv2.
  eapply bind_ok;
    [eapply try_ok, bind_ok;
       [exact Hlog|eapply bind_ok; [apply write_data_eq|reflexivity]]
    |reflexivity].
Qed.

Lemma dark_scrape_url_fails self e url s c :
  is_v2 url = false →
  answer e = Fails c →
  ∃ head,
    DarkCrawler.scrape_url self e url s
    = (Ok (),
       on_world (file_append (data_path self)
                   ("  '" +:+ url +:+ "': 'Exception: " +:+ c +:+ "'," +:+ Py.nl))
         (logged self url (head +:+ c +:+ Py.nl)
            (on_world (send_request url) s))).
Proof.
  intros Hv2 Hans. unfold is_v2 in Hv2.
  destruct (base_log_iter_eq self e url c (on_world (send_request url) s)) as [head Hlog].
  exists head. unfold DarkCrawler.scrape_url. rewrite Hv2.
  eapply bind_ok;
    [eapply try_raise;
       [eapply bind_raise; by apply requests_get_fails
       |eapply bind_ok;
          [exact Hlog|eapply bind_ok; [apply write_data_eq|reflexivity]]]
    |reflexivity].
Qed.

Lemma dark_scrape_url_http_error self e url s res :
  is_v2 url = false →
  answer e = Replies res →
  status_code res ≠ 200 →
  ∃ head,
    DarkCrawler.scrape_url self e url s
    = (Ok (),
       on_world (file_append (data_path self)
                   ("  '" +:+ url +:+ "': 'HTTP error: "
                      +:+ Py.str_of_nat (status_code res) +:+ "'," +:+ Py.nl))
         (logged self url
            (head +:+ ("HTTP " +:+ Py.str_of_nat (status_code res)) +:+ Py.nl)
            (on_world (send_request url) s))).
Proof.
  intros Hv2 Hans Hst. unfold is_v2 in Hv2.
  destruct (base_log_iter_eq self e url ("HTTP " +:+ Py.str_of_nat (status_code res))
              (on_world (send_request url) s)) as [head Hlog].
  exists head. unfold DarkCrawler.scrape_url. rewrite Hv2.
  eapply bind_ok.
  - eapply try_ok, bind_ok; [by apply requests_get_replies|].
    eapply bind_ok; [exact Hlog|reflexivity].
  - cbv beta iota. apply Nat.eqb_neq in Hst. rewrite Hst. apply write_data_eq.
Qed.

Lemma dark_scrape_url_200 self e url s res :
  is_v2 url = false →
  answer e = Replies res →
  status_code res = 200 →
  ∃ head s1,
    outside s1 = outside (logged self url (head +:+ "HTTP 200" +:+ Py.nl)
                            (on_world (send_request url) s))
    ∧ searched s1 = {[url]} ∪ searched s
    ∧ work s1 = work s
    ∧ DarkCrawler.scrape_url self e url s
      = DarkCrawler._scrape_btc_addresses self (parsed res) url s1.
Proof.
  intros Hv2 Hans Hst. unfold is_v2 in Hv2.
  destruct (base_log_iter_eq self e url ("HTTP " +:+ Py.str_of_nat (status_code res))
              (on_world (send_request url) s)) as [head Hlog].
  rewrite Hst in Hlog. change (Py.str_of_nat 200) with "200" in Hlog.
  change ("HTTP " +:+ "200") with "HTTP 200" in Hlog.
  destruct (dark_scrape_links_frame (parsed res)
              (logged self url (head +:+ "HTTP 200" +:+ Py.nl)
                 (on_world (send_request url) s))) as (s1 & Hlinks & Ho & Hs & Hw).
  exists head, s1. split_and!; [done..|].
  unfold DarkCrawler.scrape_url. rewrite Hv2.
  eapply bind_ok.
  - eapply try_ok, bind_ok; [by apply requests_get_replies|].
    rewrite Hst. change (Py.str_of_nat 200) with "200".
    change ("HTTP " +:+ "200") with "HTTP 200".
    eapply bind_ok; [exact Hlog|reflexivity].
  - cbv beta iota. rewrite Hst. cbn [Nat.eqb].
    eapply bind_ok; [exact Hlinks|reflexivity].
Qed.

Lemma endswith_app (stem suffix : string) :
  Py.endswith (stem +:+ suffix) suffix = true.
Proof.
  unfold Py.endswith. apply bool_decide_eq_true.
  rewrite to_list_app. by apply suffix_app_r.
Qed.

Lemma endswith_inv (s suffix : string) :
  Py.endswith s suffix = true → ∃ stem, s = stem +:+ suffix.
Proof.
  unfold Py.endswith. intros [k Hk]%bool_decide_eq_true.
  exists (Py.of_list k). apply to_list_inj. by rewrite to_list_app, to_of_list.
Qed.

Lemma file_text_logged_log self url line s :
  file_text (log_path self) (logged self url line s)
  = file_text (log_path self) s +:+ line.
Proof. unfold logged. by rewrite file_text_append_eq. Qed.

Lemma file_text_logged_data self url line s :
  file_text (data_path self) (logged self url line s)
  = file_text (data_path self) s.
Proof.
  unfold logged. rewrite file_text_append_ne by apply log_path_ne_data_path. done.
Qed.

Lemma is_v2_true stem url :
  url = stem +:+ ".onion" → Py.len url ≤ 30 → is_v2 url = true.
Proof.
  intros -> Hlen. unfold is_v2. rewrite endswith_app. cbn [andb].
  by apply Nat.leb_le.
Qed.

Lemma is_v2_long url : 30 < Py.len url → is_v2 url = false.
Proof.
  intros Hlen. unfold is_v2. apply andb_false_iff. right. apply Nat.leb_gt. lia.
Qed.

Lemma mt_scrape_url_requests self e url s :
  is_v2 url = false →
  requests (outside (MultiThreadedDarkCrawler.scrape_url self e url s).2)
  = requests (outside s) ++ [url].
Proof.
  intros Hv2. destruct (answer e) as [c|res] eqn:Hans.
  - destruct (mt_scrape_url_fails self e url s c Hv2 Hans) as [head ->]. done.
  - destruct (decide (status_code res = 200)) as [Hst|Hst].
    + destruct (mt_scrape_url_200 self e url s res Hv2 Hans Hst)
        as (head & s1 & Ho & _ & _ & ->).
      rewrite scrape_btc_addresses_eq.
      destruct (title (parsed res)) as [[t|]|]; cbn; by rewrite Ho.
    + destruct (mt_scrape_url_http_error self e url s res Hv2 Hans Hst) as [head ->].
      done.
Qed.

Lemma dark_scrape_url_requests self e url s :
  is_v2 url = false →
  requests (outside (DarkCrawler.scrape_url self e url s).2)
  = requests (outside s) ++ [url].
Proof.
  intros Hv2. destruct (answer e) as [c|res] eqn:Hans.
  - destruct (dark_scrape_url_fails self e url s c Hv2 Hans) as [head ->]. done.
  - destruct (decide (status_code res = 200)) as [Hst|Hst].
    + destruct (dark_scrape_url_200 self e url s res Hv2 Hans Hst)
        as (head & s1 & Ho & _ & _ & ->).
      rewrite scrape_btc_addresses_eq.
      destruct (title (parsed res)) as [[t|]|]; cbn; by rewrite Ho.
    + destruct (dark_scrape_url_http_error self e url s res Hv2 Hans Hst) as [head ->].
      done.
Qed.

Lemma v2_exit_recorded self url head s :
  recorded_as_deprecated self url s
    (Ok (),
     on_world (file_append (data_path self)
                 ("  '" +:+ url +:+ "': 'V2 address (deprecated)'," +:+ Py.nl))
       (logged self url (head +:+ "V2 address (deprecated)" +:+ Py.nl) s)).
Proof.
  unfold recorded_as_deprecated. cbn [fst snd]. split_and!.
  - done.
  - done.
  - by rewrite file_text_append_eq, file_text_logged_data.
  - exists head.
    rewrite file_text_append_ne by (apply not_eq_sym, log_path_ne_data_path).
    by rewrite file_text_logged_log.
  - done.
Qed.

(** ** C5: the shortcut for deprecated V2 addresses *)



(** ** C2: one record per processed address *)

Lemma written_record_status (url text : string) :
  Spec.status_text text →
  written_record url ("  '" +:+ url +:+ "': '" +:+ text +:+ "'," +:+ Py.nl).
Proof.
  intros Htext. exists ("'" +:+ text +:+ "'"). split.
  - left. by exists text.
  - do 2 f_equal. rewrite !str_app_assoc. reflexivity.
Qed.

Lemma written_record_map (url title : string) (btc_addrs : list string) :
  written_record url
    ("  '" +:+ url +:+ "': " +:+ DarkCrawler.str_of_out_value btc_addrs title
       +:+ "," +:+ Py.nl).
Proof.
  exists (DarkCrawler.str_of_out_value btc_addrs title). split; [|done].
  right. by exists btc_addrs, title.
Qed.

(** Every call of [scrape_url] marks the address as searched and leaves the
    executor alone; it returns after appending exactly one record of the
    address to the data file, unless the page came with status 200 and
    without a title text, in which case it raises and appends nothing. *)
Lemma mt_scrape_url_summary self e url s :
  ∃ r s',
    MultiThreadedDarkCrawler.scrape_url self e url s = (r, s')
    ∧ work s' = work s
    ∧ searched s' = {[url]} ∪ searched s
    ∧ ((r = Ok ()
        ∧ ∃ line, written_record url line
                  ∧ file_text (data_path self) s'
                    = file_text (data_path self) s +:+ line)
       ∨ ((∃ name, r = Raise (AttributeError name))
          ∧ file_text (data_path self) s' = file_text (data_path self) s
          ∧ ∃ res, answer e = Replies res ∧ status_code res = 200
                   ∧ (title (parsed res) = None
                      ∨ title (parsed res) = Some None))).
Proof.
  destruct (is_v2 url) eqn:Hv2.
  { destruct (mt_scrape_url_v2 self e url s Hv2) as [head ->].
    eexists _, _. split; [done|]. split_and!; [done..|]. left. split; [done|].
    eexists. split.
    - apply (written_record_status url "V2 address (deprecated)"). by left.
    - by rewrite file_text_append_eq, file_text_logged_data. }
  destruct (answer e) as [c|res] eqn:Hans.
  { destruct (mt_scrape_url_fails self e url s c Hv2 Hans) as [head ->].
    eexists _, _. split; [done|]. split_and!; [done..|]. left. split; [done|].
    eexists. split.
    - apply (written_record_status url ("Exception: " +:+ c)). right. left. by eexists.
    - rewrite file_text_append_eq, file_text_logged_data.
      do 2 f_equal; try (rewrite !str_app_assoc; reflexivity). }
  destruct (decide (status_code res = 200)) as [Hst|Hst].
  - destruct (mt_scrape_url_200 self e url s res Hv2 Hans Hst)
      as (head & s1 & Ho & Hs1 & Hw1 & ->).
    rewrite scrape_btc_addresses_eq.
    assert (file_text (data_path self) s1 = file_text (data_path self) s) as Hdata.
    { unfold file_text at 1. rewrite Ho.
      apply (file_text_logged_data self url _ (on_world (send_request url) s)). }
    destruct (title (parsed res)) as [[t|]|] eqn:Htitle.
    + eexists _, _. split; [done|]. split_and!; [done..|]. left. split; [done|].
      eexists. split; [apply written_record_map|].
      by rewrite file_text_append_eq, Hdata.
    + eexists _, _. split; [done|]. split_and!; [done..|]. right.
      split; [by eexists|]. split; [done|]. exists res. auto.
    + eexists _, _. split; [done|]. split_and!; [done..|]. right.
      split; [by eexists|]. split; [done|]. exists res. auto.
  - destruct (mt_scrape_url_http_error self e url s res Hv2 Hans Hst) as [head ->].
    eexists _, _. split; [done|]. split_and!; [done..|]. left. split; [done|].
    eexists. split.
    + apply (written_record_status url ("HTTP error: " +:+ Py.str_of_nat (status_code res))).
      right. right. by eexists.
    + rewrite file_text_append_eq, file_text_logged_data.
      do 2 f_equal; try (rewrite !str_app_assoc; reflexivity).
Qed.

(** C2, where the code departs from it: a page fetched with status 200
    that has no title element makes [scrape_url] raise [AttributeError]
    after the address was logged and marked as searched; the data file
    holds no record of the address. *)
Theorem missing_title_leaves_no_record self e url s res :
  is_v2 url = false →
  answer e = Replies res →
  status_code res = 200 →
  title (parsed res) = None →
  ∃ s',
    MultiThreadedDarkCrawler.scrape_url self e url s
      = (Raise (AttributeError "string"), s')
    ∧ file_text (data_path self) s' = file_text (data_path self) s
    ∧ url ∈ searched s'
    ∧ requests (outside s') = requests (outside s) ++ [url].
Proof.
  intros Hv2 Hans Hst Htitle.
  destruct (mt_scrape_url_200 self e url s res Hv2 Hans Hst)
    as (head & s1 & Ho & Hs1 & Hw1 & ->).
  rewrite scrape_btc_addresses_eq, Htitle. exists s1. split_and!.
  - done.
  - unfold file_text at 1. rewrite Ho.
    apply (file_text_logged_data self url _ (on_world (send_request url) s)).
  - rewrite Hs1. apply elem_of_union_l. by apply elem_of_singleton.
  - by rewrite Ho.
Qed.

Lemma missing_title_leaves_no_record_witness :
  ∃ s',
    MultiThreadedDarkCrawler.scrape_url sample_config
      (sample_env (Replies {| status_code := 200; parsed := untitled_page |}))
      "http://abcdefghijklmnopqrstuvwxyzabcdefghijklmnopqrstuvwx2345.onion"
      empty_state
      = (Raise (AttributeError "string"), s')
    ∧ file_text (data_path sample_config) s' = ""
    ∧ "http://abcdefghijklmnopqrstuvwxyzabcdefghijklmnopqrstuvwx2345.onion"
        ∈ searched s'
    ∧ requests (outside s')
      = ["http://abcdefghijklmnopqrstuvwxyzabcdefghijklmnopqrstuvwx2345.onion"].
Proof.
  apply (missing_title_leaves_no_record sample_config
           (sample_env (Replies {| status_code := 200; parsed := untitled_page |}))
           "http://abcdefghijklmnopqrstuvwxyzabcdefghijklmnopqrstuvwx2345.onion"
           empty_state {| status_code := 200; parsed := untitled_page |});
    reflexivity.
Defined.

(** ** Start-up and shutdown *)

Lemma set_queue_same s : set_queue (queue s) s = s.
Proof. by destruct s. Qed.

Lemma load_ahmia_loop (lines : list string) (s : state) :
  for_each lines (λ kw,
    let kw_link := DarkCrawler.keyword_link kw in
    s0 ← get;
    if bool_decide (kw_link ∉ searched s0)
    then modify (set_queue (queue s0 ++ [kw_link]))
    else ret ()) s
  = (Ok (),
     set_queue (queue s ++ filter (λ a, a ∉ searched s)
                                  (DarkCrawler.keyword_link <$> lines)) s).
Proof.
  revert s. induction lines as [|kw lines IH]; intros s.
  - cbn. by rewrite (right_id_L [] (++)), set_queue_same.
  - cbn [for_each]. unfold bind at 1. cbn [get]. unfold bind at 1. cbn [get].
    rewrite fmap_cons, filter_cons.
    case_bool_decide as Hnew; case_decide; try done.
    + unfold modify at 1. rewrite IH. cbn.
      by rewrite <- (assoc_L (++)).
    + unfold ret at 1. by rewrite IH.
Qed.

Lemma load_ahmia_seeds_eq self s path content :
  ahmia_keyword_path self = Some path →
  files (outside s) !! path = Some content →
  DarkCrawler._load_ahmia_seeds self s
  = (Ok (),
     set_queue (queue s ++ filter (λ a, a ∉ searched s)
                             (DarkCrawler.keyword_link <$> Py.readlines content)) s).
Proof.
  intros Hpath Hfile. unfold DarkCrawler._load_ahmia_seeds.
  eapply bind_ok.
  - unfold open_read, bind, get. rewrite Hpath. cbn [from_option id]. by rewrite Hfile.
  - apply load_ahmia_loop.
Qed.

Lemma load_ahmia_seeds_missing self s path :
  ahmia_keyword_path self = Some path →
  files (outside s) !! path = None →
  DarkCrawler._load_ahmia_seeds self s = (Raise (FileNotFoundError path), s).
Proof.
  intros Hpath Hfile. unfold DarkCrawler._load_ahmia_seeds.
  eapply bind_raise.
  unfold open_read, bind, get. rewrite Hpath. cbn [from_option id]. by rewrite Hfile.
Qed.

(** The state a fresh [_setup_structs] reaches before the keyword file is
    read. *)
Lemma mt_setup_fresh_eq py self s :
  Py.truthy (resume_path self) = false →
  MultiThreadedDarkCrawler._setup_structs py self s
  = (if Py.truthy (ahmia_keyword_path self)
     then DarkCrawler._load_ahmia_seeds self else ret ())
      (on_world (file_append (data_path self) ("{" +:+ Py.nl))
         (set_searched ∅ (set_queue (seeds self) (set_work [] (set_seen ∅ s))))).
Proof.
  intros Hfresh.
  unfold MultiThreadedDarkCrawler._setup_structs, DarkCrawler._setup_structs.
  rewrite Hfresh. reflexivity.
Qed.

Lemma mt_on_shutdown_eq self s :
  ∃ s',
    MultiThreadedDarkCrawler._on_shutdown self s = (Ok (), s')
    ∧ file_text (data_path self) s'
      = file_text (data_path self) s +:+ "}" +:+ Py.nl
    ∧ searched s' = searched s ∧ seen s' = seen s ∧ queue s' = queue s
    ∧ work s' = []
    ∧ file_text (savestate_path self) s'
      = "deque(" +:+ Py.repr_list (elements (seen s ∖ searched s)) +:+ ")"
          +:+ Py.nl +:+ Py.repr_set (searched s).
Proof.
  eexists. split; [reflexivity|]. split_and!; try done.
  - rewrite file_text_write_ne by apply savestate_path_ne_data_path.
    by rewrite file_text_append_eq.
  - unfold file_text. cbn. by rewrite lookup_insert_eq.
Qed.

(** ** What a run appends to the data file *)

Lemma foldr_app_app (lines1 lines2 : list string) :
  foldr String.app "" (lines1 ++ lines2)
  = foldr String.app "" lines1 +:+ foldr String.app "" lines2.
Proof.
  induction lines1 as [|l lines1 IH]; [done|].
  cbn [foldr app]. by rewrite IH, str_app_assoc.
Qed.

(** A worker appends at most one record to the data file, and always
    returns. *)
Lemma worker_summary self e s :
  ∃ s' lines,
    MultiThreadedDarkCrawler.worker self e s = (Ok (), s')
    ∧ Forall (λ line, ∃ address, written_record address line) lines
    ∧ file_text (data_path self) s'
      = file_text (data_path self) s +:+ foldr String.app "" lines.
Proof.
  unfold MultiThreadedDarkCrawler.worker, bind at 1, get.
  destruct (work s) as [|url rest] eqn:Hwork.
  - exists s, []. split_and!; [done|constructor|]. cbn. by rewrite str_app_nil_r.
  - unfold bind at 1, modify at 1.
    destruct (mt_scrape_url_summary self e url (set_work rest s))
      as (r & s' & Hrun & _ & _ & [[-> (line & Hline & Hdata)]|[[name ->] [Hdata _]]]).
    + exists s', [line]. split_and!.
      * unfold try_except. by rewrite Hrun.
      * constructor; [by exists url|constructor].
      * cbn [foldr]. by rewrite str_app_nil_r, Hdata.
    + exists s', []. split_and!.
      * unfold try_except. by rewrite Hrun.
      * constructor.
      * cbn [foldr]. by rewrite str_app_nil_r, Hdata.
Qed.

Lemma run_summary self (events : list MultiThreadedDarkCrawler.event) s :
  ∃ s' lines,
    MultiThreadedDarkCrawler.run self events s = (Ok (), s')
    ∧ Forall (λ line, ∃ address, written_record address line) lines
    ∧ file_text (data_path self) s'
      = file_text (data_path self) s
          +:+ foldr String.app "" lines +:+ "}" +:+ Py.nl.
Proof.
  revert s. induction events as [|ev events IH]; intros s.
  - destruct (mt_on_shutdown_eq self s) as (s' & Hrun & Hdata & _).
    exists s', []. split_and!; [done|constructor|done].
  - destruct ev as [|e]; cbn [MultiThreadedDarkCrawler.run].
    + unfold bind at 1, get.
      destruct (limit_reached _ _).
      * destruct (mt_on_shutdown_eq self
                    (on_world (print_line "Search limit reached.") s))
          as (s' & Hrun & Hdata & _).
        exists s', []. split_and!; [|constructor|done].
        eapply bind_ok; [reflexivity|exact Hrun].
      * destruct (IH (set_queue [] (set_work (work s ++ queue s) s)))
          as (s' & lines & Hrun & Hlines & Hdata).
        exists s', lines. split_and!; [|done..].
        eapply bind_ok; [reflexivity|exact Hrun].
    + destruct (worker_summary self e s) as (s1 & lines1 & Hw & Hlines1 & Hdata1).
      destruct (IH s1) as (s' & lines & Hrun & Hlines & Hdata).
      exists s', (lines1 ++ lines). split_and!.
      * eapply bind_ok; [exact Hw|exact Hrun].
      * by apply Forall_app.
      * by rewrite Hdata, Hdata1, foldr_app_app, !str_app_assoc.
Qed.

(** ** C7: the frontier of a fresh run *)

Lemma filter_not_in_empty (X : gset string) (l : list string) :
  X = ∅ → filter (λ a, a ∉ X) l = l.
Proof.
  intros ->. induction l as [|a l IH]; [done|].
  rewrite filter_cons. case_decide as H; [by rewrite IH|]. set_solver.
Qed.

(** C7, as stated, fails: with a seed listed twice and a keyword file of
    one keyword and one blank line, the queue of a fresh run holds the seed
    twice and an address for the blank line, and the seen set is empty,
    where the dedup check of the claim gives each address once, none for
    the blank line, and all of them seen. *)
Lemma fresh_frontier_not_deduplicated :
  let s' := (MultiThreadedDarkCrawler._setup_structs no_eval
               twice_seeded_config keyword_state).2 in
  queue s' = ["http://seedxxxxxxxxxxxxxxx.onion"; "http://seedxxxxxxxxxxxxxxx.onion";
              "https://ahmia.fi/search/?q=bitcoin+mixer";
              "https://ahmia.fi/search/?q="]
  ∧ seen s' = ∅
  ∧ Spec.fresh_frontier (seeds twice_seeded_config) (Some keyword_text)
    = (["http://seedxxxxxxxxxxxxxxx.onion";
        "https://ahmia.fi/search/?q=bitcoin+mixer"],
       {["http://seedxxxxxxxxxxxxxxx.onion";
         "https://ahmia.fi/search/?q=bitcoin+mixer"]})
  ∧ (queue s', seen s')
    ≠ Spec.fresh_frontier (seeds twice_seeded_config) (Some keyword_text).
Proof.
  cbv zeta. split_and!.
  - vm_compute. reflexivity.
  - vm_compute. reflexivity.
  - vm_compute. reflexivity.
  - intros H. apply (f_equal (λ p, length p.1)) in H. vm_compute in H. discriminate.
Qed.

(** C7, amended: a fresh run sets the queue to the seed list as given,
    followed, when a keyword file is named, by one address per line of that
    file, blank lines included: the search prefix and the stripped line
    with every space replaced by a plus sign.  The seeds pass no check; a
    derived address is only checked against the searched set, which a fresh
    run has just emptied. *)
Theorem fresh_queue_is_seeds_then_keywords py self s :
  Py.truthy (resume_path self) = false →
  (Py.truthy (ahmia_keyword_path self) = false →
   ∃ s', MultiThreadedDarkCrawler._setup_structs py self s = (Ok (), s')
         ∧ queue s' = seeds self ∧ searched s' = ∅)
  ∧ (∀ path content,
       ahmia_keyword_path self = Some path → path ≠ "" →
       path ≠ data_path self →
       files (outside s) !! path = Some content →
       ∃ s', MultiThreadedDarkCrawler._setup_structs py self s = (Ok (), s')
             ∧ queue s'
               = seeds self ++ (DarkCrawler.keyword_link <$> Py.readlines content)
             ∧ searched s' = ∅).
Proof.
  intros Hfresh. rewrite (mt_setup_fresh_eq _ _ _ Hfresh). split.
  - intros ->. by eexists.
  - intros path content Hpath Hne Hdata Hfile.
    assert (Py.truthy (ahmia_keyword_path self) = true) as ->.
    { rewrite Hpath. cbn. by rewrite bool_decide_eq_false_2. }
    rewrite (load_ahmia_seeds_eq self _ path content Hpath).
    + eexists. split; [done|]. split; [|done].
      cbn [queue set_queue]. f_equal. by apply filter_not_in_empty.
    + cbn. by rewrite lookup_insert_ne.
Qed.

Lemma fresh_queue_is_seeds_then_keywords_witness :
  ∃ s', MultiThreadedDarkCrawler._setup_structs no_eval twice_seeded_config
          keyword_state = (Ok (), s')
        ∧ queue s'
          = seeds twice_seeded_config
              ++ (DarkCrawler.keyword_link <$> Py.readlines keyword_text)
        ∧ searched s' = ∅.
Proof.
  apply (proj2 (fresh_queue_is_seeds_then_keywords no_eval twice_seeded_config
                  keyword_state eq_refl) "keywords.txt" keyword_text).
  - reflexivity.
  - discriminate.
  - vm_compute. discriminate.
  - vm_compute. reflexivity.
Defined.

(** ** C6: resuming from a savestate *)

Lemma base_load_prev_crawl_eq py self s path content q X :
  resume_path self = Some path →
  files (outside s) !! path = Some content →
  eval_deque py (nth 0 (Py.readlines content) "") = Some q →
  eval_set py (nth 1 (Py.readlines content) "") = Some X →
  BaseCrawler._load_prev_crawl py self s = (Ok (), set_searched X (set_queue q s)).
Proof.
  intros Hpath Hfile Hq HX. unfold BaseCrawler._load_prev_crawl.
  eapply bind_ok.
  - unfold open_read, bind, get. rewrite Hpath. cbn [from_option id]. by rewrite Hfile.
  - cbv beta zeta. rewrite Hq, HX. reflexivity.
Qed.

Lemma open_read_eq path s :
  open_read path s
  = match files (outside s) !! path with
    | Some content => (Ok content, s)
    | None => (Raise (FileNotFoundError path), s)
    end.
Proof. unfold open_read, bind, get. by destruct (files (outside s) !! path). Qed.

Lemma base_load_prev_crawl_files py self s r s' :
  BaseCrawler._load_prev_crawl py self s = (r, s') →
  outside s' = outside s ∧ seen s' = seen s.
Proof.
  unfold BaseCrawler._load_prev_crawl. unfold bind at 1. rewrite open_read_eq.
  destruct (files (outside s) !! default "" (resume_path self)) as [content|];
    [|by intros [= <- <-]].
  cbv zeta.
  destruct (eval_deque py (nth 0 (Py.readlines content) ""));
    [|by intros [= <- <-]].
  unfold bind, modify.
  destruct (eval_set py (nth 1 (Py.readlines content) "")); by intros [= <- <-].
Qed.

(** C6, where the code departs from it: [DarkCrawler._load_prev_crawl]
    opens [self.output_path], an attribute that no [__init__] assigns.
    Loading a savestate therefore never returns: once the two lines are
    read and evaluated the call raises [AttributeError], the seen set is
    not rebuilt from the queue and the searched set, and the data file
    keeps its last line. *)
Theorem resume_raises_attribute_error py self s :
  (∀ r s',
     MultiThreadedDarkCrawler._load_prev_crawl py self s = (r, s') →
     (∃ e, r = Raise e) ∧ outside s' = outside s ∧ seen s' = seen s)
  ∧ (∀ path content q X,
       resume_path self = Some path →
       files (outside s) !! path = Some content →
       eval_deque py (nth 0 (Py.readlines content) "") = Some q →
       eval_set py (nth 1 (Py.readlines content) "") = Some X →
       MultiThreadedDarkCrawler._load_prev_crawl py self s
       = (Raise (AttributeError "output_path"), set_searched X (set_queue q s))).
Proof.
  split.
  - intros r s'.
    unfold MultiThreadedDarkCrawler._load_prev_crawl, DarkCrawler._load_prev_crawl.
    unfold bind at 1. unfold bind at 1.
    destruct (BaseCrawler._load_prev_crawl py self s) as [[[]|e] s1] eqn:Hbase;
      apply base_load_prev_crawl_files in Hbase as [Ho Hseen].
    + unfold bind at 1. rewrite getattr_output_path. intros [= <- <-]. eauto.
    + intros [= <- <-]. eauto.
  - intros path content q X Hpath Hfile Hq HX.
    unfold MultiThreadedDarkCrawler._load_prev_crawl, DarkCrawler._load_prev_crawl.
    eapply bind_raise, bind_ok.
    + by eapply base_load_prev_crawl_eq.
    + eapply bind_raise. apply getattr_output_path.
Qed.

Lemma resume_raises_attribute_error_witness :
  MultiThreadedDarkCrawler._load_prev_crawl savestate_eval resumed_config resumed_state
  = (Raise (AttributeError "output_path"),
     set_searched {["http://seedxxxxxxxxxxxxxxx.onion"]}
       (set_queue
          ["http://pendingaddressxxxxxxxxxxxxxxxxxxxxxxxxxxxxxxxxxxxxxxxxxxxxxxx.onion"]
          resumed_state)).
Proof.
  apply (proj2 (resume_raises_attribute_error savestate_eval resumed_config
                  resumed_state) "savestate.txt" savestate_text).
  - reflexivity.
  - vm_compute. reflexivity.
  - vm_compute. reflexivity.
  - vm_compute. reflexivity.
Defined.

(** ** C9: the two run loops *)

Lemma drain_idle s :
  queue s = [] → MultiThreadedDarkCrawler.drain s = (Ok (), s).
Proof.
  intros Hq. unfold MultiThreadedDarkCrawler.drain, bind, modify.
  destruct s as [q se sn w o]. cbn in *. subst q.
  by rewrite (right_id_L [] (++)).
Qed.

(** C9: with the default limit [math.inf] the loop of
    [MultiThreadedDarkCrawler.crawl] is never left, however many rounds it
    is given, and with an empty queue a round changes nothing, so the loop
    spins; the loop of [BaseCrawler.crawl] is left at once when the queue
    is empty. *)
Theorem mt_loop_spins_base_loop_stops self :
  search_limit self = Inf →
  (∀ fuel s, ∃ s', MultiThreadedDarkCrawler.crawl_loop self fuel s = (Ok false, s'))
  ∧ (∀ fuel s, queue s = [] →
       MultiThreadedDarkCrawler.crawl_loop self fuel s = (Ok false, s))
  ∧ (∀ envs fuel i s, queue s = [] →
       BaseCrawler.crawl_loop self envs (S fuel) i s = (Ok true, s)).
Proof.
  intros Hinf. split_and!.
  - induction fuel as [|fuel IH]; intros s; [by eexists|].
    cbn [MultiThreadedDarkCrawler.crawl_loop]. unfold bind at 1, get.
    rewrite Hinf. cbn [limit_reached].
    destruct (IH (set_queue [] (set_work (work s ++ queue s) s))) as [s' Hs'].
    exists s'. eapply bind_ok; [reflexivity|exact Hs'].
  - induction fuel as [|fuel IH]; intros s Hq; [done|].
    cbn [MultiThreadedDarkCrawler.crawl_loop]. unfold bind at 1, get.
    rewrite Hinf. cbn [limit_reached].
    eapply bind_ok; [by apply drain_idle|by apply IH].
  - intros envs fuel i s Hq. cbn [BaseCrawler.crawl_loop].
    unfold bind, get. by rewrite Hq.
Qed.

Lemma mt_loop_spins_base_loop_stops_witness :
  MultiThreadedDarkCrawler.crawl_loop sample_config 1000 empty_state
    = (Ok false, empty_state)
  ∧ BaseCrawler.crawl_loop sample_config (λ _, sample_env (Fails "Timeout")) 1 0
      empty_state
    = (Ok true, empty_state).
Proof.
  split.
  - apply (proj1 (proj2 (mt_loop_spins_base_loop_stops sample_config eq_refl))).
    reflexivity.
  - apply (proj2 (proj2 (mt_loop_spins_base_loop_stops sample_config eq_refl))).
    reflexivity.
Defined.

(** ** C10: the assertion of [blockstream_fetch] *)

Lemma blockstream_fetch_valid answer addr output_path w :
  Fetch.is_valid_btc_address addr = true →
  Fetch.blockstream_fetch answer addr output_path w
  = let url := "https://blockstream.info/api/address/" +:+ addr in
    let w1 := send_request url w in
    match answer with
    | Fetch.Fails c => (Ok (), print_line c w1)
    | Fetch.Replies res =>
        let w2 := print_line (addr +:+ " " +:+ Py.str_of_nat (Fetch.status_code res)) w1 in
        if Fetch.status_code res =? 200 then
          match Fetch.json res with
          | Some text =>
              (Ok (),
               file_append output_path Py.nl
                 (file_append output_path text (file_append output_path "" w2)))
          | None =>
              (Ok (), print_line "JSONDecodeError" (file_append output_path "" w2))
          end
        else (Ok (), w2)
    end.
Proof.
  intros Hvalid. unfold Fetch.blockstream_fetch. rewrite Hvalid. cbn [negb].
  cbv [try_except bind Fetch.requests_get Fetch.res_json Fetch.print
       modify raise ret].
  destruct answer as [c|res]; [reflexivity|].
  destruct (Fetch.status_code res =? 200); [|reflexivity].
  destruct (Fetch.json res); reflexivity.
Qed.

(** C10: [blockstream_fetch] checks the address first.  For an address
    that [is_valid_btc_address] accepts the call returns after exactly one
    request, to the address's URL, and the files change only when the
    answer has status 200; then the output file gains the JSON text and a
    line feed.  For any other address the call raises [AssertionError]
    with no request sent and no file touched. *)
Theorem blockstream_fetch_asserts_first answer addr output_path w :
  (Fetch.is_valid_btc_address addr = true →
   ∃ w',
     Fetch.blockstream_fetch answer addr output_path w = (Ok (), w')
     ∧ requests w'
       = requests w ++ ["https://blockstream.info/api/address/" +:+ addr]
     ∧ (files w' ≠ files w →
        ∃ res, answer = Fetch.Replies res ∧ Fetch.status_code res = 200)
     ∧ (∀ res text,
          answer = Fetch.Replies res → Fetch.status_code res = 200 →
          Fetch.json res = Some text →
          files w' !! output_path
          = Some (default "" (files w !! output_path) +:+ text +:+ Py.nl)))
  ∧ (Fetch.is_valid_btc_address addr = false →
     Fetch.blockstream_fetch answer addr output_path w = (Raise AssertionError, w)).
Proof.
  split.
  - intros Hvalid. rewrite (blockstream_fetch_valid _ _ _ _ Hvalid). cbv zeta.
    destruct answer as [c|res].
    + eexists. split; [done|]. split_and!; [done|done|]. by intros res text [=].
    + destruct (Fetch.status_code res =? 200) eqn:Hst.
      * apply Nat.eqb_eq in Hst.
        destruct (Fetch.json res) as [text|] eqn:Hjson.
        -- eexists. split; [done|]. split_and!; [done|by eauto|].
           intros res' text' [= <-] _ Hjson'. rewrite Hjson in Hjson'.
           injection Hjson' as <-. cbn.
           rewrite lookup_insert_eq. cbn. rewrite lookup_insert_eq. cbn.
           rewrite lookup_insert_eq. cbn.
           by rewrite str_app_nil_r, str_app_assoc.
        -- eexists. split; [done|]. split_and!; [done|by eauto|].
           intros res' text' [= <-] _ Hjson'. congruence.
      * apply Nat.eqb_neq in Hst.
        eexists. split; [done|]. split_and!; [done|done|].
        intros res' text' [= <-] ?. done.
  - intros Hinvalid. unfold Fetch.blockstream_fetch. by rewrite Hinvalid.
Qed.

Lemma blockstream_fetch_asserts_first_witness :
  (∃ w',
     Fetch.blockstream_fetch
       (Fetch.Replies {| Fetch.status_code := 200; Fetch.json := Some "{}" |})
       "1A1zP1eP5QGefi2DMPTfTL5SLmv7DivfNa" "blockstream.txt" empty_world
     = (Ok (), w')
     ∧ requests w'
       = [] ++ ["https://blockstream.info/api/address/"
                  +:+ "1A1zP1eP5QGefi2DMPTfTL5SLmv7DivfNa"]
     ∧ (files w' ≠ files empty_world →
        ∃ res,
          Fetch.Replies {| Fetch.status_code := 200; Fetch.json := Some "{}" |}
            = Fetch.Replies res
          ∧ Fetch.status_code res = 200)
     ∧ (∀ res text,
          Fetch.Replies {| Fetch.status_code := 200; Fetch.json := Some "{}" |}
            = Fetch.Replies res →
          Fetch.status_code res = 200 →
          Fetch.json res = Some text →
          files w' !! "blockstream.txt"
          = Some (default "" (files empty_world !! "blockstream.txt")
                    +:+ text +:+ Py.nl)))
  ∧ Fetch.blockstream_fetch (Fetch.Fails "Timeout") "0xAbC123" "blockstream.txt"
      empty_world
    = (Raise AssertionError, empty_world).
Proof.
  split.
  - apply (proj1 (blockstream_fetch_asserts_first
                    (Fetch.Replies {| Fetch.status_code := 200;
                                      Fetch.json := Some "{}" |})
                    "1A1zP1eP5QGefi2DMPTfTL5SLmv7DivfNa" "blockstream.txt"
                    empty_world)).
    vm_compute. reflexivity.
  - apply (proj2 (blockstream_fetch_asserts_first (Fetch.Fails "Timeout")
                    "0xAbC123" "blockstream.txt" empty_world)).
    vm_compute. reflexivity.
Defined.

(** ** C4: payment addresses that are link targets *)

Lemma btc_addresses_of_tokens bsoup :
  DarkCrawler.btc_addresses_of bsoup
  = foldl (DarkCrawler.add_unless_linked (list_to_set (hrefs bsoup))) ∅
          (DarkCrawler.tokens_of bsoup).
Proof.
  unfold DarkCrawler.btc_addresses_of, DarkCrawler.tokens_of.
  generalize (∅ : gset string).
  induction (Py.split_on _ _) as [|elem l IH]; intros acc; [done|].
  cbn [foldl fmap list_fmap concat]. rewrite foldl_app. apply IH.
Qed.

Lemma valid_token_nonempty token :
  Fetch.is_valid_btc_address token = true → Py.truthy (Some token) = true.
Proof.
  intros Hvalid. unfold Py.truthy. case_bool_decide as Hempty; [|done].
  by subst token.
Qed.

Lemma elem_of_add_unless_linked links tokens acc a :
  a ∈ foldl (DarkCrawler.add_unless_linked links) acc tokens
  ↔ a ∈ acc
    ∨ (a ∈ tokens ∧ Fetch.is_valid_btc_address a = true
       ∧ Some (a +:+ ".onion") ∉ links).
Proof.
  revert acc. induction tokens as [|text tokens IH]; intros acc.
  - cbn. rewrite elem_of_nil. naive_solver.
  - cbn [foldl]. rewrite IH, elem_of_cons. unfold DarkCrawler.add_unless_linked.
    rewrite btc_address_search_eq.
    destruct (Fetch.is_valid_btc_address text) eqn:Hvalid.
    + rewrite (valid_token_nonempty _ Hvalid). cbn [negb orb].
      case_bool_decide as Hlink.
      * naive_solver.
      * rewrite elem_of_union, elem_of_singleton. naive_solver.
    + naive_solver congruence.
Qed.

(** C4: the addresses [_scrape_btc_addresses] extracts are the tokens of
    the page text that the recognizer accepts and that do not occur, with
    [.onion] appended, as the target of a link of the page.  So a page on
    which every accepted token has such a link yields no address at all:
    the set is empty and the record lists [[]]. *)
Theorem link_tokens_are_suppressed bsoup :
  (∀ a, a ∈ DarkCrawler.btc_addresses_of bsoup
        ↔ a ∈ DarkCrawler.tokens_of bsoup
          ∧ Fetch.is_valid_btc_address a = true
          ∧ Some (a +:+ ".onion") ∉ hrefs bsoup)
  ∧ ((∀ token, token ∈ DarkCrawler.tokens_of bsoup →
               Fetch.is_valid_btc_address token = true →
               Some (token +:+ ".onion") ∈ hrefs bsoup) →
     DarkCrawler.btc_addresses_of bsoup = ∅
     ∧ Py.repr_list (elements (DarkCrawler.btc_addresses_of bsoup)) = "[]").
Proof.
  assert (∀ a, a ∈ DarkCrawler.btc_addresses_of bsoup
        ↔ a ∈ DarkCrawler.tokens_of bsoup
          ∧ Fetch.is_valid_btc_address a = true
          ∧ Some (a +:+ ".onion") ∉ hrefs bsoup) as Hchar.
  { intros a. rewrite btc_addresses_of_tokens, elem_of_add_unless_linked.
    rewrite elem_of_list_to_set. set_solver. }
  split; [exact Hchar|].
  intros Hall.
  assert (DarkCrawler.btc_addresses_of bsoup = ∅) as ->.
  { apply set_eq. intros a. rewrite Hchar. split; [|set_solver].
    intros (Hin & Hvalid & Hnot). destruct Hnot. by apply Hall. }
  split; [done|]. by rewrite elements_empty.
Qed.

Lemma link_tokens_are_suppressed_witness :
  DarkCrawler.btc_addresses_of reused_token_page = ∅
  ∧ Py.repr_list (elements (DarkCrawler.btc_addresses_of reused_token_page)) = "[]".
Proof.
  apply (proj2 (link_tokens_are_suppressed reused_token_page)).
  intros token Hin Hvalid.
  change (DarkCrawler.tokens_of reused_token_page)
    with ["Mirror:"; "1A1zP1eP5QGefi2DMPTfTL5SLmv7DivfNa"] in Hin.
  apply elem_of_cons in Hin as [->|Hin]; [discriminate Hvalid|].
  apply list_elem_of_singleton in Hin as ->. by apply list_elem_of_singleton.
Defined.

(** ** The enqueue check under [queue_lock] *)

Lemma elem_of_fed (onion_addr : option string) (a : string) :
  a ∈ Threads.fed onion_addr ↔ onion_addr = Some a ∧ Py.truthy onion_addr = true.
Proof.
  unfold Threads.fed. destruct onion_addr as [b|]; [|set_solver].
  destruct (Py.truthy (Some b)) eqn:Ht.
  - rewrite elem_of_singleton. naive_solver.
  - rewrite elem_of_empty. naive_solver.
Qed.

Lemma fed_truthy (a : string) :
  Py.truthy (Some a) = true → Threads.fed (Some a) = {[a]}.
Proof. intros H. unfold Threads.fed. by rewrite H. Qed.

Lemma addresses_app (l1 l2 : list (option string)) :
  Threads.addresses (l1 ++ l2) = Threads.addresses l1 ∪ Threads.addresses l2.
Proof.
  induction l1 as [|href l1 IH]; cbn [Threads.addresses app]; [set_solver|].
  rewrite IH. set_solver.
Qed.

Lemma elem_of_addresses_concat (pages : list (list (option string))) (a : string) :
  a ∈ Threads.addresses (concat pages)
  ↔ ∃ page, page ∈ pages ∧ a ∈ Threads.addresses page.
Proof.
  induction pages as [|page pages IH]; cbn [concat].
  - cbn. rewrite elem_of_empty. split; [done|]. intros (page & Hin & _).
    by apply elem_of_nil in Hin.
  - rewrite addresses_app, elem_of_union, IH. split.
    + intros [?|(page' & ? & ?)].
      * exists page. split; [apply elem_of_cons; by left|done].
      * exists page'. split; [apply elem_of_cons; by right|done].
    + intros (page' & [->|?]%elem_of_cons & ?); [by left|]. right. eauto.
Qed.

Lemma lookup_with_thread σ i p' j q :
  Threads.threads (Threads.with_thread i p' σ) !! j = Some q →
  (j = i ∧ q = p') ∨ (j ≠ i ∧ Threads.threads σ !! j = Some q).
Proof.
  cbn. intros H. apply list_lookup_insert_Some in H. naive_solver.
Qed.

Lemma thread_ok_mono s0 page tr tr' σ σ' j q :
  Threads.thread_ok s0 page tr σ j q →
  seen (Threads.shared σ) ⊆ seen (Threads.shared σ') →
  (Threads.in_block q ↔ Threads.queue_lock σ' = Some (Threads.WorkerThread j)) →
  (Threads.in_block q →
   seen (Threads.shared σ') = seen (Threads.shared σ) ∧ tr' = tr) →
  Threads.thread_ok s0 page tr' σ' j q.
Proof.
  intros (Hlock & Hfed & Hpend & Hat) Hmono Hlock' Hsame.
  split_and!; [done|set_solver|done|].
  destruct q; try done.
  - destruct Hsame as [-> ->]; done.
  - destruct Hsame as [-> ->]; done.
Qed.

Lemma invariant_init s0 pages :
  Threads.invariant s0 pages [] (Threads.init s0 pages).
Proof.
  unfold Threads.invariant. cbn. split_and!.
  - by rewrite length_fmap.
  - intros i page p Hpage Hp. rewrite list_lookup_fmap, Hpage in Hp.
    injection Hp as <-. split_and!; cbn; [naive_solver|set_solver|set_solver|done].
  - naive_solver.
  - constructor.
  - auto.
  - intros a Ha. by apply elem_of_nil in Ha.
  - done.
Qed.

Lemma invariant_main_step s0 pages tr σ σ' ev :
  Threads.invariant s0 pages tr σ →
  Threads.main_step σ = Some (σ', ev) →
  Threads.invariant s0 pages (tr ++ ev) σ'.
Proof.
  intros (Hlen & Hth & Hmain & Hnd & Hseen & Htr & Hs0) Hstep.
  unfold Threads.main_step in Hstep.
  assert (∀ i page p, pages !! i = Some page → Threads.threads σ !! i = Some p →
          Threads.in_block p ↔ Threads.queue_lock σ = Some (Threads.WorkerThread i))
    as Hlock by (intros i page p Hpage Hp; apply (Hth i page p Hpage Hp)).
  assert (∀ σ'',
    Threads.threads σ'' = Threads.threads σ →
    seen (Threads.shared σ'') = seen (Threads.shared σ) →
    (Threads.main_in_block (Threads.main σ'')
     ↔ Threads.queue_lock σ'' = Some Threads.MainThread) →
    (∀ i page p, pages !! i = Some page → Threads.threads σ !! i = Some p →
       Threads.in_block p
       ↔ Threads.queue_lock σ'' = Some (Threads.WorkerThread i)) →
    Threads.invariant s0 pages tr σ'') as Hframe.
  { intros σ'' Hthreads Hsame Hmain' Hlock'.
    unfold Threads.invariant. rewrite Hthreads, Hsame. split_and!; try done.
    intros i page p Hpage Hp.
    apply (thread_ok_mono s0 page tr tr σ σ'' i p (Hth i page p Hpage Hp)).
    - by rewrite Hsame.
    - by apply (Hlock' i page p).
    - done. }
  destruct (Threads.main σ) eqn:Hm.
  - destruct (Threads.queue_lock σ) eqn:Hl; [done|].
    injection Hstep as <- <-. rewrite (right_id_L [] (++)).
    apply Hframe; cbn; [done|done|done|].
    intros i page p Hpage Hp. specialize (Hlock i page p Hpage Hp). naive_solver.
  - injection Hstep as <- <-. rewrite (right_id_L [] (++)).
    apply Hframe; cbn; [done|done|naive_solver|done].
  - injection Hstep as <- <-. rewrite (right_id_L [] (++)).
    apply Hframe; cbn; [done|done|naive_solver|done].
  - injection Hstep as <- <-. rewrite (right_id_L [] (++)).
    cbn in Hmain.
    apply Hframe; cbn; [done|done|naive_solver|].
    intros i page p Hpage Hp. specialize (Hlock i page p Hpage Hp). naive_solver.
Qed.

Lemma invariant_page s0 pages tr σ i p :
  Threads.invariant s0 pages tr σ →
  Threads.threads σ !! i = Some p →
  ∃ page, pages !! i = Some page ∧ Threads.thread_ok s0 page tr σ i p.
Proof.
  intros (Hlen & Hth & _) Hp.
  destruct (pages !! i) as [page|] eqn:Hpage.
  - exists page. split; [done|]. by apply Hth.
  - apply lookup_lt_Some in Hp. apply lookup_ge_None in Hpage. lia.
Qed.

Lemma invariant_lock s0 pages tr σ i p :
  Threads.invariant s0 pages tr σ →
  Threads.threads σ !! i = Some p →
  Threads.in_block p ↔ Threads.queue_lock σ = Some (Threads.WorkerThread i).
Proof.
  intros Hinv Hp. destruct (invariant_page _ _ _ _ _ _ Hinv Hp) as (page & _ & Hok).
  apply Hok.
Qed.

Lemma invariant_worker_update s0 pages tr tr' σ σ' i p p' page :
  Threads.invariant s0 pages tr σ →
  Threads.threads σ !! i = Some p →
  pages !! i = Some page →
  Threads.threads σ' = <[i := p']> (Threads.threads σ) →
  Threads.main σ' = Threads.main σ →
  seen (Threads.shared σ) ⊆ seen (Threads.shared σ') →
  (Threads.main_in_block (Threads.main σ)
   ↔ Threads.queue_lock σ' = Some Threads.MainThread) →
  (∀ j q, j ≠ i → Threads.threads σ !! j = Some q →
     (Threads.in_block q
      ↔ Threads.queue_lock σ' = Some (Threads.WorkerThread j))
     ∧ (Threads.in_block q →
        seen (Threads.shared σ') = seen (Threads.shared σ) ∧ tr' = tr)) →
  Threads.thread_ok s0 page tr' σ' i p' →
  NoDup tr' →
  (∀ a, a ∈ seen (Threads.shared σ') →
     a ∈ seen s0 ∨ a ∈ tr'
     ∨ ∃ j rest, Threads.threads σ' !! j = Some (Threads.AtAppend a rest)) →
  (∀ a, a ∈ tr' →
     a ∈ seen (Threads.shared σ') ∧ (a ∉ seen s0)
     ∧ a ∈ Threads.addresses (concat pages)) →
  Threads.invariant s0 pages tr' σ'.
Proof.
  intros Hinv Hp Hpage Hthreads Hmain Hmono Hlockm Hothers Hself Hnd Hseen Htr.
  destruct Hinv as (Hlen & Hth & _ & _ & _ & _ & Hs0).
  unfold Threads.invariant. rewrite Hthreads, Hmain. split_and!.
  - by rewrite length_insert.
  - intros j page' q Hpage' Hq. apply list_lookup_insert_Some in Hq.
    destruct Hq as [(<- & <- & _)|[Hne Hq]].
    + rewrite Hpage in Hpage'. by injection Hpage' as <-.
    + destruct (Hothers j q (not_eq_sym Hne) Hq) as [Hl Hsame].
      by apply (thread_ok_mono s0 page' tr tr' σ σ' j q (Hth j page' q Hpage' Hq)).
  - done.
  - done.
  - rewrite <- Hthreads. done.
  - done.
  - set_solver.
Qed.

Lemma invariant_worker_step s0 pages tr σ σ' i ev :
  Threads.invariant s0 pages tr σ →
  Threads.worker_step i σ = Some (σ', ev) →
  Threads.invariant s0 pages (tr ++ ev) σ'.
Proof.
  intros Hinv Hstep. unfold Threads.worker_step in Hstep.
  destruct (Threads.threads σ !! i) as [p|] eqn:Hp; [|done].
  destruct (invariant_page _ _ _ _ _ _ Hinv Hp)
    as (page & Hpage & Hlock & Hfed & Hpend & Hat).
  pose proof Hinv as (Hlen & Hth & Hmain & Hnd & Hseen & Htr & Hs0).
  assert (∀ j q, j ≠ i → Threads.threads σ !! j = Some q →
          Threads.in_block q
          ↔ Threads.queue_lock σ = Some (Threads.WorkerThread j)) as Hlocks
    by (intros j q _ Hq; apply (invariant_lock _ _ _ _ _ _ Hinv Hq)).
  assert (∀ p' a,
    (∀ rest, p ≠ Threads.AtAppend a rest) →
    a ∈ seen (Threads.shared σ) →
    a ∈ seen s0 ∨ a ∈ tr
    ∨ ∃ j rest, <[i := p']> (Threads.threads σ) !! j
                = Some (Threads.AtAppend a rest)) as Hkeep.
  { intros p' a Hnot Ha. destruct (Hseen a Ha) as [?|[?|(j & rest' & Hj)]]; auto.
    right. right. exists j, rest'. rewrite list_lookup_insert_ne; [done|].
    intros ->. rewrite Hp in Hj. injection Hj as ->. by eapply Hnot. }
  destruct p as [[|href rest]|a rest|a rest|x rest|x rest|rest].
  - done.
  - (* the next anchor *)
    injection Hstep as <- <-. rewrite (right_id_L [] (++)).
    eapply (invariant_worker_update s0 pages tr tr σ _ i _ _ page Hinv Hp Hpage).
    + done.
    + done.
    + done.
    + done.
    + intros j q Hne Hq. split; [by apply Hlocks|done].
    + unfold Threads.thread_ok. split_and!; cbn in *; done.
    + done.
    + intros a Ha. by apply Hkeep.
    + done.
  - (* taking the lock *)
    destruct (Threads.queue_lock σ) eqn:Hl; [done|].
    injection Hstep as <- <-. rewrite (right_id_L [] (++)).
    eapply (invariant_worker_update s0 pages tr tr σ _ i _ _ page Hinv Hp Hpage).
    + done.
    + done.
    + done.
    + cbn. naive_solver.
    + intros j q Hne Hq. specialize (Hlocks j q Hne Hq). split; [|done].
      cbn. naive_solver.
    + unfold Threads.thread_ok. split_and!; cbn in *; done.
    + done.
    + intros a' Ha. by apply Hkeep.
    + done.
  - (* the test *)
    assert (Threads.queue_lock σ = Some (Threads.WorkerThread i)) as Hl
      by (by apply Hlock).
    assert (∀ p',
      Threads.in_block p' →
      Threads.addresses page ⊆ seen (Threads.shared σ) ∪ Threads.pending p' →
      Threads.pending p' ⊆ Threads.addresses page →
      match p' with
      | Threads.AtAdd b _ => b ∉ seen (Threads.shared σ)
      | Threads.AtAppend _ _ => False
      | _ => True
      end →
      Threads.invariant s0 pages tr (Threads.with_thread i p' σ)) as Hnext.
    { intros p' Hin Hfed' Hpend' Hat'.
      eapply (invariant_worker_update s0 pages tr tr σ _ i _ _ page Hinv Hp Hpage).
      - done.
      - done.
      - done.
      - cbn. done.
      - intros j q Hne Hq. split; [by apply Hlocks|done].
      - unfold Threads.thread_ok. split_and!; [cbn; naive_solver|done|done|].
        by destruct p'.
      - done.
      - intros a' Ha. by apply Hkeep.
      - done. }
    destruct a as [b|].
    + destruct (Py.truthy (Some b)
                && MultiThreadedDarkCrawler._is_new_onion_address b (Threads.shared σ))
        eqn:Hnew; injection Hstep as <- <-; rewrite (right_id_L [] (++)).
      * apply andb_true_iff in Hnew as [Htruthy Hnew].
        apply bool_decide_eq_true in Hnew.
        cbn [Threads.pending] in Hfed, Hpend.
        rewrite (fed_truthy _ Htruthy) in Hfed, Hpend.
        apply Hnext; cbn; done.
      * apply Hnext; cbn; [done| |cbn [Threads.pending] in Hpend; set_solver|done].
        cbn [Threads.pending] in Hfed. intros c Hc. specialize (Hfed c Hc).
        rewrite !elem_of_union, elem_of_fed in Hfed. rewrite elem_of_union.
        destruct Hfed as [?|[[Heq Htruthy]|?]]; auto.
        injection Heq as ->. rewrite Htruthy in Hnew. cbn [andb] in Hnew.
        apply bool_decide_eq_false in Hnew. left.
        by destruct (decide (c ∈ seen (Threads.shared σ))).
    + injection Hstep as <- <-. rewrite (right_id_L [] (++)).
      apply Hnext; cbn; [done| | |done]; cbn [Threads.pending] in Hfed, Hpend;
        set_solver.
  - (* marking the address as seen *)
    assert (Threads.queue_lock σ = Some (Threads.WorkerThread i)) as Hl
      by (by apply Hlock).
    injection Hstep as <- <-. rewrite (right_id_L [] (++)).
    cbn in Hat, Hfed, Hpend.
    eapply (invariant_worker_update s0 pages tr tr σ _ i _ _ page Hinv Hp Hpage).
    + done.
    + done.
    + cbn. set_solver.
    + cbn. done.
    + intros j q Hne Hq. specialize (Hlocks j q Hne Hq). split; [done|].
      intros Hin. apply Hlocks in Hin. congruence.
    + unfold Threads.thread_ok. cbn.
      split_and!; [naive_solver|set_solver|set_solver|set_solver| | |set_solver].
      * intros Hin. apply Htr in Hin. naive_solver.
      * intros Hin. apply Hat. by apply Hs0.
    + done.
    + cbn. intros a' [->%elem_of_singleton|Ha]%elem_of_union.
      * right. right. exists i, rest. apply list_lookup_insert_eq.
        by apply lookup_lt_Some in Hp.
      * by apply Hkeep.
    + cbn. intros a' Ha. destruct (Htr a' Ha) as (? & ? & ?).
      split_and!; [set_solver|done..].
  - (* appending it to the queue *)
    assert (Threads.queue_lock σ = Some (Threads.WorkerThread i)) as Hl
      by (by apply Hlock).
    injection Hstep as <- <-. destruct Hat as (Hx & Hntr & Hns0 & Hxa).
    eapply (invariant_worker_update s0 pages tr (tr ++ [x]) σ _ i _ _ page
              Hinv Hp Hpage).
    + done.
    + done.
    + done.
    + cbn. done.
    + intros j q Hne Hq. specialize (Hlocks j q Hne Hq). split; [done|].
      intros Hin. apply Hlocks in Hin. congruence.
    + unfold Threads.thread_ok. split_and!; cbn in *; done.
    + apply NoDup_app. split_and!; [done| |apply NoDup_singleton].
      intros y Hy ->%list_elem_of_singleton. done.
    + cbn. intros a' Ha. destruct (Hseen a' Ha) as [?|[?|(j & rest' & Hj)]]; auto.
      * right. left. apply elem_of_app. by left.
      * destruct (decide (j = i)) as [->|Hne].
        -- rewrite Hp in Hj. injection Hj as -> ->.
           right. left. apply elem_of_app. right. by apply list_elem_of_singleton.
        -- right. right. exists j, rest'. by rewrite list_lookup_insert_ne.
    + cbn. intros a' [Ha| ->%list_elem_of_singleton]%elem_of_app; [by apply Htr|].
      split_and!; [done..|].
      apply elem_of_addresses_concat. exists page. split; [|done].
      by eapply list_elem_of_lookup_2.
  - (* giving the lock back *)
    assert (Threads.queue_lock σ = Some (Threads.WorkerThread i)) as Hl
      by (by apply Hlock).
    injection Hstep as <- <-. rewrite (right_id_L [] (++)).
    eapply (invariant_worker_update s0 pages tr tr σ _ i _ _ page Hinv Hp Hpage).
    + done.
    + done.
    + done.
    + cbn. rewrite Hl in Hmain. naive_solver.
    + intros j q Hne Hq. specialize (Hlocks j q Hne Hq). split; [|done].
      cbn. rewrite Hl in Hlocks. naive_solver.
    + unfold Threads.thread_ok. split_and!; cbn in *; try done; naive_solver.
    + done.
    + intros a' Ha. by apply Hkeep.
    + done.
Qed.

Lemma invariant_reaches s0 pages tr σ :
  Threads.reaches (Threads.init s0 pages) tr σ →
  Threads.invariant s0 pages tr σ.
Proof.
  induction 1 as [|tr σ' a σ'' ev _ IH Hstep]; [apply invariant_init|].
  destruct a as [|i]; cbn in Hstep.
  - by eapply invariant_main_step.
  - by eapply invariant_worker_step.
Qed.

Lemma reaches_trans σ tr1 σ1 tr2 σ2 :
  Threads.reaches σ tr1 σ1 → Threads.reaches σ1 tr2 σ2 →
  Threads.reaches σ (tr1 ++ tr2) σ2.
Proof.
  intros H1 H2. induction H2 as [|tr2 σ' a σ'' ev _ IH Hstep].
  - by rewrite (right_id_L [] (++)).
  - rewrite (assoc_L (++)). by eapply Threads.reaches_next.
Qed.

Lemma exec_reaches schedule σ :
  Threads.reaches σ (Threads.exec schedule σ).2 (Threads.exec schedule σ).1.
Proof.
  revert σ. induction schedule as [|a schedule IH]; intros σ; cbn [Threads.exec].
  - constructor.
  - destruct (Threads.step a σ) as [[σ' ev]|] eqn:Hstep; [|apply IH].
    specialize (IH σ'). destruct (Threads.exec schedule σ') as [σ'' tr]. cbn in *.
    eapply (reaches_trans σ ev σ' tr σ''); [|done].
    apply (Threads.reaches_next σ [] σ a σ' ev); [constructor|done].
Qed.

(** X19: however the statements of the workers and of the main thread
    interleave, no address is appended to the queue twice by the check of
    [_scrape_links]; a thread between the test and the end of the block
    holds [queue_lock], so no two threads are there together and none
    while the main thread drains the queue, and only the holder of the lock
    ever changes the seen set or the queue; an address is appended only if
    it was fed in and not seen at the start; and once every worker has left
    the function, the seen set is what it was at the start together with
    every address fed in, each of the new ones appended exactly once.  On a
    fresh run, which starts with an empty seen set, the seen set is the set
    of the addresses fed in. *)
Theorem enqueue_check_is_atomic s0 pages tr σ :
  Threads.reaches (Threads.init s0 pages) tr σ →
  NoDup tr
  ∧ (∀ i j p q,
       Threads.threads σ !! i = Some p → Threads.threads σ !! j = Some q →
       Threads.in_block p → Threads.in_block q → i = j)
  ∧ (∀ i p,
       Threads.threads σ !! i = Some p → Threads.in_block p →
       Threads.queue_lock σ = Some (Threads.WorkerThread i)
       ∧ ¬ Threads.main_in_block (Threads.main σ))
  ∧ (∀ a σ' ev,
       Threads.step a σ = Some (σ', ev) →
       seen (Threads.shared σ') ≠ seen (Threads.shared σ)
       ∨ queue (Threads.shared σ') ≠ queue (Threads.shared σ) →
       Threads.queue_lock σ = Some a ∧ Threads.queue_lock σ' = Some a)
  ∧ (∀ a, a ∈ tr → a ∈ Threads.addresses (concat pages) ∧ a ∉ seen s0)
  ∧ (Threads.finished σ →
     seen (Threads.shared σ) = seen s0 ∪ Threads.addresses (concat pages)
     ∧ (∀ a, a ∈ tr ↔ a ∈ Threads.addresses (concat pages) ∧ a ∉ seen s0)
     ∧ (seen s0 = ∅ →
        seen (Threads.shared σ) = Threads.addresses (concat pages))).
Proof.
  intros Hinv%invariant_reaches.
  pose proof Hinv as (Hlen & Hth & Hmain & Hnd & Hseen & Htr & Hs0).
  assert (∀ i p, Threads.threads σ !! i = Some p → Threads.in_block p →
          Threads.queue_lock σ = Some (Threads.WorkerThread i)) as Hlock.
  { intros i p Hp Hin. by apply (invariant_lock _ _ _ _ _ _ Hinv Hp). }
  split_and!.
  - done.
  - intros i j p q Hp Hq Hinp Hinq.
    pose proof (Hlock i p Hp Hinp) as Hi. pose proof (Hlock j q Hq Hinq) as Hj.
    congruence.
  - intros i p Hp Hin. split; [by eapply Hlock|].
    intros Hm%Hmain. rewrite (Hlock i p Hp Hin) in Hm. done.
  - intros a σ' ev Hstep Hchange. destruct a as [|i]; cbn in Hstep.
    + unfold Threads.main_step in Hstep.
      destruct (Threads.main σ) eqn:Hm.
      * destruct (Threads.queue_lock σ); [done|]. injection Hstep as <- <-.
        cbn in Hchange. naive_solver.
      * injection Hstep as <- <-. cbn in Hchange. naive_solver.
      * injection Hstep as <- <-. cbn. split; by apply Hmain.
      * injection Hstep as <- <-. cbn in Hchange. naive_solver.
    + unfold Threads.worker_step in Hstep.
      destruct (Threads.threads σ !! i) as [p|] eqn:Hp; [|done].
      destruct p as [[|href rest]|b rest|b rest|x rest|x rest|rest].
      * done.
      * injection Hstep as <- <-. cbn in Hchange. naive_solver.
      * destruct (Threads.queue_lock σ); [done|]. injection Hstep as <- <-.
        cbn in Hchange. naive_solver.
      * destruct b as [b|]; [destruct (_ && _)|]; injection Hstep as <- <-;
          cbn in Hchange; naive_solver.
      * injection Hstep as <- <-. cbn. split; by apply (Hlock i _ Hp).
      * injection Hstep as <- <-. cbn. split; by apply (Hlock i _ Hp).
      * injection Hstep as <- <-. cbn in Hchange. naive_solver.
  - intros a Ha. destruct (Htr a Ha) as (_ & ? & ?). done.
  - intros Hfin.
    assert (seen (Threads.shared σ) = seen s0 ∪ Threads.addresses (concat pages))
      as Hset.
    { apply set_eq. intros a. rewrite elem_of_union. split.
      - intros Ha. destruct (Hseen a Ha) as [?|[Hin|(i & rest & Hi)]]; [by left| |].
        + right. by apply Htr.
        + by apply Hfin in Hi.
      - intros [?|Ha]; [by apply Hs0|].
        apply elem_of_addresses_concat in Ha as (page & Hpage & Ha).
        apply list_elem_of_lookup in Hpage as [i Hpage].
        destruct (Threads.threads σ !! i) as [p|] eqn:Hp.
        + destruct (Hth i page p Hpage Hp) as (_ & Hfed & _).
          rewrite (Hfin i p Hp) in Hfed. cbn in Hfed. set_solver.
        + apply lookup_lt_Some in Hpage. apply lookup_ge_None in Hp. lia. }
    split_and!.
    + done.
    + intros a. split.
      * intros Ha. destruct (Htr a Ha) as (_ & ? & ?). done.
      * intros [Ha Hnew].
        assert (a ∈ seen (Threads.shared σ)) as Hin by (rewrite Hset; set_solver).
        destruct (Hseen a Hin) as [?|[?|(i & rest & Hi)]]; [done|done|].
        by apply Hfin in Hi.
    + intros Hempty. rewrite Hset, Hempty. set_solver.
Qed.

Lemma enqueue_check_is_atomic_witness :
  let run := Threads.exec alternating (Threads.init empty_state two_pages) in
  Threads.finished run.1
  ∧ NoDup run.2
  ∧ seen (Threads.shared run.1) = Threads.addresses (concat two_pages)
  ∧ run.2 = ["http://aaaaaaaaaaaaaaaaaaaaaaaaaaaaaaaaaaaaaaaaaaaaaaaaaaaaaaaa.onion"].
Proof.
  cbv zeta.
  assert (Threads.finished
            (Threads.exec alternating (Threads.init empty_state two_pages)).1)
    as Hfin.
  { intros i p. vm_compute. destruct i as [|[|i]]; intros [= <-]; reflexivity. }
  destruct (enqueue_check_is_atomic empty_state two_pages _ _
              (exec_reaches alternating (Threads.init empty_state two_pages)))
    as (Hnd & _ & _ & _ & _ & Hend).
  destruct (Hend Hfin) as (_ & _ & Hseen).
  split_and!; [exact Hfin|exact Hnd|exact (Hseen eq_refl)|].
  vm_compute. reflexivity.
Defined.

(** ** BaseCrawler: links, one call of [scrape_url], and the run loop *)

Lemma base_scrape_links_body (href : option string) (s : state) :
  (s1 ← get;
   match href with
   | Some h =>
       if BaseCrawler._is_valid_com_address href && BaseCrawler._is_new_address h s1
       then modify (set_queue (queue s1 ++ [h]))
       else ret ()
   | None => ret ()
   end) s
  = (Ok (),
     match href with
     | Some h =>
         if BaseCrawler._is_valid_com_address href && BaseCrawler._is_new_address h s
         then set_queue (queue s ++ [h]) s
         else s
     | None => s
     end).
Proof.
  unfold bind, get. destruct href as [h|]; [|done].
  by destruct (_ && _).
Qed.

Lemma base_scrape_links_spec bsoup s :
  ∃ new,
    BaseCrawler._scrape_links bsoup s = (Ok (), set_queue (queue s ++ new) s)
    ∧ NoDup new
    ∧ (∀ h, h ∈ new ↔
         Some h ∈ hrefs bsoup
         ∧ BaseCrawler._is_valid_com_address (Some h) = true
         ∧ (h ∉ queue s) ∧ (h ∉ searched s)).
Proof.
  unfold BaseCrawler._scrape_links. revert s.
  induction (hrefs bsoup) as [|href l IH]; intros s.
  - exists []. split_and!.
    + cbn. by rewrite (right_id_L [] (++)), set_queue_same.
    + constructor.
    + intros h. rewrite !elem_of_nil. naive_solver.
  - cbn [for_each].
    destruct href as [h0|].
    + destruct (BaseCrawler._is_valid_com_address (Some h0)
                && BaseCrawler._is_new_address h0 s) eqn:Hcond.
      * apply andb_true_iff in Hcond as [Hvalid Hnew].
        pose proof Hnew as Hnew'. unfold BaseCrawler._is_new_address in Hnew'.
        apply andb_true_iff in Hnew' as [Hq%bool_decide_eq_true Hs%bool_decide_eq_true].
        destruct (IH (set_queue (queue s ++ [h0]) s)) as (new & Hrun & Hnd & Hchar).
        exists (h0 :: new). split_and!.
        -- eapply bind_ok; [apply (base_scrape_links_body (Some h0) s)|].
           cbv beta iota. rewrite Hvalid, Hnew. cbn [andb]. rewrite Hrun. cbn.
           by rewrite <- (assoc_L (++)).
        -- constructor; [|done]. intros Hin. apply Hchar in Hin.
           cbn in Hin. rewrite elem_of_app, list_elem_of_singleton in Hin.
           naive_solver.
        -- intros h. rewrite elem_of_cons, Hchar, elem_of_cons. cbn.
           rewrite elem_of_app, list_elem_of_singleton.
           split; [naive_solver|].
           intros ([[= ->]|?] & ? & ? & ?); [by left|].
           destruct (decide (h = h0)) as [->|?]; [by left|].
           right. naive_solver.
      * destruct (IH s) as (new & Hrun & Hnd & Hchar).
        exists new. split_and!; [|done|].
        -- eapply bind_ok; [apply (base_scrape_links_body (Some h0) s)|].
           cbv beta iota. by rewrite Hcond.
        -- intros h. rewrite Hchar, elem_of_cons.
           split; [naive_solver|].
           intros ([[= ->]|?] & Hv & Hq & Hs); [|naive_solver].
           unfold BaseCrawler._is_new_address in Hcond.
           rewrite Hv, !bool_decide_eq_true_2 in Hcond by done. done.
    + destruct (IH s) as (new & Hrun & Hnd & Hchar).
      exists new. split_and!; [|done|].
      * eapply bind_ok; [apply (base_scrape_links_body None s)|]. done.
      * intros h. rewrite Hchar, elem_of_cons. naive_solver.
Qed.

Lemma base_scrape_url_spec self e url s :
  ∃ s' new,
    BaseCrawler.scrape_url self e url s = (Ok (), s')
    ∧ requests (outside s') = requests (outside s) ++ [url]
    ∧ searched s' = {[url]} ∪ searched s
    ∧ queue s' = queue s ++ new
    ∧ NoDup new
    ∧ (∀ h, h ∈ new →
         (h ∉ queue s) ∧ (h ∉ searched s') ∧ Py.contains ".com" h = true
         ∧ ∃ res, answer e = Replies res ∧ status_code res = 200
                  ∧ Some h ∈ hrefs (parsed res))
    ∧ file_text (data_path self) s'
      = file_text (data_path self) s
          +:+ match answer e with
              | Replies _ => url +:+ Py.nl
              | Fails _ => ""
              end.
Proof.
  unfold BaseCrawler.scrape_url.
  destruct (answer e) as [c|res] eqn:Hans.
  - destruct (base_log_iter_eq self e url c (on_world (send_request url) s))
      as [head Hlog].
    eexists _, []. split.
    { eapply bind_ok;
        [eapply try_raise;
           [eapply bind_raise; by apply requests_get_fails
           |eapply bind_ok; [exact Hlog|reflexivity]]
        |reflexivity]. }
    split_and!; try done.
    + cbn. by rewrite (right_id_L [] (++)).
    + constructor.
    + intros h Hh. by apply elem_of_nil in Hh.
    + by rewrite file_text_logged_data, str_app_nil_r.
  - destruct (base_log_iter_eq self e url
                ("HTTP " +:+ Py.str_of_nat (status_code res))
                (on_world (send_request url) s)) as [head Hlog].
    set (s1 := logged self url _ _) in Hlog.
    set (s2 := on_world (file_append (data_path self) (url +:+ Py.nl)) s1).
    assert (file_text (data_path self) s2
            = file_text (data_path self) s +:+ url +:+ Py.nl) as Hdata.
    { subst s2 s1. by rewrite file_text_append_eq, file_text_logged_data. }
    destruct (decide (status_code res = 200)) as [Hst|Hst].
    + destruct (base_scrape_links_spec (parsed res) s2) as (new & Hlinks & Hnd & Hchar).
      exists (set_queue (queue s2 ++ new) s2), new. split.
      { eapply bind_ok.
        - eapply try_ok, bind_ok; [by apply requests_get_replies|].
          eapply bind_ok; [exact Hlog|reflexivity].
        - cbv beta iota. eapply bind_ok; [apply write_data_eq|].
          rewrite Hst. cbn [Nat.eqb]. exact Hlinks. }
      split_and!; try done.
      intros h Hh. apply Hchar in Hh as (Hin & Hvalid & Hq & Hs).
      split_and!; try done.
      * unfold BaseCrawler._is_valid_com_address in Hvalid.
        by apply andb_true_iff in Hvalid as [_ ?].
      * by exists res.
    + exists (on_world (print_line
                ("HTTP Error: " +:+ Py.str_of_nat (status_code res))) s2), [].
      split.
      { eapply bind_ok.
        - eapply try_ok, bind_ok; [by apply requests_get_replies|].
          eapply bind_ok; [exact Hlog|reflexivity].
        - cbv beta iota. eapply bind_ok; [apply write_data_eq|].
          apply Nat.eqb_neq in Hst. rewrite Hst. reflexivity. }
      split_and!; try done.
      * cbn. by rewrite (right_id_L [] (++)).
      * constructor.
      * intros h Hh. by apply elem_of_nil in Hh.
Qed.

Lemma no_refetch_step self e url rest s :
  queue s = url :: rest →
  no_refetch s →
  ∃ s',
    BaseCrawler.scrape_url self e url (set_queue rest s) = (Ok (), s')
    ∧ no_refetch s'
    ∧ requests (outside s') = requests (outside s) ++ [url].
Proof.
  intros Hq (Hndq & Hfresh & Hndr & Hset).
  destruct (base_scrape_url_spec self e url (set_queue rest s))
    as (s' & new & Hrun & Hreq & Hsearched & Hqueue & Hnd & Hnew & _).
  cbn in Hreq, Hsearched, Hqueue. rewrite Hq in Hndq.
  apply NoDup_cons in Hndq as [Hurl Hndrest].
  assert (url ∉ searched s) as Hus by (apply Hfresh; rewrite Hq; by left).
  exists s'. split_and!; [done| |done].
  unfold no_refetch. rewrite Hqueue, Hreq, Hsearched. split_and!.
  - apply NoDup_app. split_and!; [done| |done].
    intros h Hh Hh'. apply Hnew in Hh' as (Hnq & _). cbn in Hnq. done.
  - intros a [Ha|Ha]%elem_of_app.
    + rewrite elem_of_union, elem_of_singleton. intros [->|Hs]; [done|].
      apply (Hfresh a); [rewrite Hq; by right|done].
    + apply Hnew in Ha as (_ & Hs & _). by rewrite Hsearched in Hs.
  - apply NoDup_app. split_and!; [done| |apply NoDup_singleton].
    intros h Hh ->%list_elem_of_singleton. apply Hus. rewrite Hset.
    by apply elem_of_list_to_set.
  - rewrite Hset, list_to_set_app_L. cbn. set_solver.
Qed.

Lemma base_crawl_loop_spec self envs fuel i s :
  no_refetch s →
  ∃ left s',
    BaseCrawler.crawl_loop self envs fuel i s = (Ok left, s')
    ∧ no_refetch s'
    ∧ (∀ k, search_limit self = Finite k →
         length (requests (outside s)) ≤ k →
         length (requests (outside s')) ≤ k
         ∧ (k - length (requests (outside s)) < fuel → left = true)).
Proof.
  revert i s. induction fuel as [|fuel IH]; intros i s Hinv.
  - exists false, s. split_and!; [done|done|]. intros k _ ?. split; [done|lia].
  - cbn [BaseCrawler.crawl_loop]. unfold bind at 1, get.
    destruct (queue s) as [|url rest] eqn:Hq.
    { exists true, s. split_and!; [done|done|]. by intros k _ ?. }
    destruct (limit_reached (size (searched s)) (search_limit self)) eqn:Hlimit.
    { eexists true, _. split_and!; [reflexivity|done|]. by intros k _ ?. }
    destruct (no_refetch_step self (envs i) url rest s Hq Hinv)
      as (s1 & Hrun & Hinv1 & Hreq1).
    destruct (IH (S i) s1 Hinv1) as (left & s' & Hloop & Hinv' & Hlim).
    exists left, s'. split_and!; [|done|].
    + eapply bind_ok; [reflexivity|]. eapply bind_ok; [exact Hrun|exact Hloop].
    + intros k Hk Hlen. rewrite Hk in Hlimit. cbn in Hlimit.
      apply Nat.leb_gt in Hlimit.
      destruct Hinv as (_ & _ & Hndr & Hset).
      rewrite Hset, size_list_to_set in Hlimit by done.
      destruct (Hlim k Hk) as [Hle Hterm].
      { rewrite Hreq1, length_app. cbn. lia. }
      split; [done|]. intros Hfuel. apply Hterm.
      rewrite Hreq1, length_app. cbn. lia.
Qed.

Lemma base_on_shutdown_eq self s :
  BaseCrawler._on_shutdown self s
  = (Ok (),
     on_world (file_write (savestate_path self)
                 ("deque(" +:+ Py.repr_list (queue s) +:+ ")" +:+ Py.nl
                    +:+ Py.repr_set (searched s)))
       (on_world (print_line "Exiting crawler.") s)).
Proof. done. Qed.



(** ** The matcher finds only words of the pattern *)

Lemma rep_k_sound {A} (L : list ascii → Prop)
    (m : list ascii → (list ascii → option A) → option A)
    (k : list ascii → option A) (lo hi : nat) (s : list ascii) (a : A) :
  (∀ s' k' a', m s' k' = Some a' →
     ∃ w rest, s' = w ++ rest ∧ L w ∧ k' rest = Some a') →
  Re.rep_k m k lo hi s = Some a →
  ∃ n w rest, s = w ++ rest ∧ lo ≤ n ≤ hi ∧ Re.power L n w ∧ k rest = Some a.
Proof.
  intros Hm. revert lo s. induction hi as [|hi IH]; intros lo s Hrep.
  - cbn in Hrep. destruct lo; [|done]. exists 0, [], s. split_and!; try done.
  - cbn [Re.rep_k] in Hrep.
    destruct (m s (λ s', Re.rep_k m k (pred lo) hi s')) as [a'|] eqn:Hround.
    + injection Hrep as ->.
      apply Hm in Hround as (w1 & rest1 & -> & Hw1 & Hrest).
      apply IH in Hrest as (n & w2 & rest & -> & Hn & Hpow & Hk).
      exists (S n), (w1 ++ w2), rest. split_and!; try done.
      * by rewrite (assoc_L (++)).
      * lia.
      * lia.
      * cbn. by exists w1, w2.
    + destruct lo; [|done]. exists 0, [], s. split_and!; try done. lia.
Qed.

Lemma matchk_sound {A} (r : Re.regex) (s : list ascii)
    (k : list ascii → option A) (a : A) :
  Re.matchk r s k = Some a →
  ∃ w rest, s = w ++ rest ∧ Re.lang r w ∧ k rest = Some a.
Proof.
  revert s k a. induction r as [|c|p|r1 IH1 r2 IH2|r1 IH1 r2 IH2|r IH lo hi];
    intros s k a Hm; cbn [Re.matchk] in Hm.
  - by exists [], s.
  - destruct s as [|x s]; [done|]. case_bool_decide as Hx; [|done]. subst x.
    by exists [c], s.
  - destruct s as [|x s]; [done|]. destruct (p x) eqn:Hp; [|done].
    exists [x], s. split_and!; [done| |done]. by exists x.
  - destruct (Re.matchk r1 s k) as [a'|] eqn:H1.
    + injection Hm as ->. apply IH1 in H1 as (w & rest & -> & Hw & Hk).
      exists w, rest. split_and!; [done| |done]. by left.
    + apply IH2 in Hm as (w & rest & -> & Hw & Hk).
      exists w, rest. split_and!; [done| |done]. by right.
  - apply IH1 in Hm as (w1 & rest1 & -> & Hw1 & Hm).
    apply IH2 in Hm as (w2 & rest & -> & Hw2 & Hk).
    exists (w1 ++ w2), rest. split_and!; [by rewrite (assoc_L (++))| |done].
    by exists w1, w2.
  - apply (rep_k_sound (Re.lang r)) in Hm as (n & w & rest & -> & Hn & Hpow & Hk);
      [|apply IH].
    exists w, rest. split_and!; [done| |done]. exists n. split_and!; [lia| |done].
    destruct hi as [h|]; cbn in *; [lia|done].
Qed.

Lemma matchk_prefix (r : Re.regex) (s rest : list ascii) :
  Re.matchk r s (λ rest, Some rest) = Some rest →
  s = take (length s - length rest) s ++ rest
  ∧ Re.lang r (take (length s - length rest) s).
Proof.
  intros (w & rest' & -> & Hw & [= ->])%matchk_sound.
  by rewrite length_app, Nat.add_sub, take_app_length.
Qed.

Lemma search_go_sound (r : Re.regex) (s m : list ascii) :
  Re.search_go r s = Some m →
  ∃ pre post, s = pre ++ m ++ post ∧ Re.lang r m.
Proof.
  induction s as [|x s IH].
  - cbn [Re.search_go].
    destruct (Re.matchk r [] (λ rest, Some rest)) as [rest|] eqn:Hm; [|done].
    intros [= <-]. apply matchk_prefix in Hm as [Hs Hw]. by exists [], rest.
  - unfold Re.search_go; fold Re.search_go.
    destruct (Re.matchk r (x :: s) (λ rest, Some rest)) as [rest|] eqn:Hm.
    + intros [= <-]. apply matchk_prefix in Hm as [Hs Hw]. by exists [], rest.
    + intros Hgo. destruct (IH Hgo) as (pre & post & -> & Hm').
      by exists (x :: pre), post.
Qed.

Lemma lang_lit (t : string) (w : list ascii) :
  Re.lang (Re.lit t) w ↔ w = Py.to_list t.
Proof.
  revert w. induction t as [|c t IH]; intros w; cbn [Re.lit Re.lang]; [done|].
  split.
  - intros (w1 & w2 & -> & -> & Hw2%IH). by subst w2.
  - intros ->. exists [c], (Py.to_list t). split_and!; [done..|]. by apply IH.
Qed.

Lemma power_class (p : ascii → bool) (n : nat) (w : list ascii) :
  Re.power (Re.lang (Re.Class p)) n w ↔ length w = n ∧ Forall (λ c, p c = true) w.
Proof.
  revert w. induction n as [|n IH]; intros w; cbn [Re.power].
  - split; [by intros ->|]. intros [Hl _]. by destruct w.
  - split.
    + intros (w1 & w2 & -> & (x & -> & Hx) & [Hl HF]%IH). cbn. split; [lia|].
      by constructor.
    + intros [Hl HF]. destruct w as [|x w]; [done|]. inversion_clear HF.
      exists [x], w. split_and!; [done|by exists x|]. apply IH. cbn in Hl.
      split; [lia|done].
Qed.

Lemma power_chr (c : ascii) (n : nat) (w : list ascii) :
  Re.power (Re.lang (Re.Chr c)) n w ↔ w = replicate n c.
Proof.
  revert w. induction n as [|n IH]; intros w; cbn [Re.power]; [done|].
  split.
  - intros (w1 & w2 & -> & -> & ->%IH). done.
  - intros ->. exists [c], (replicate n c). split_and!; [done..|]. by apply IH.
Qed.

Lemma lang_onion_pattern (w : list ascii) :
  Re.lang Re.onion_pattern w → DarkCrawler.onion_shape (Py.of_list w).
Proof.
  unfold Re.onion_pattern. cbn [Re.lang].
  intros (w1 & w' & -> & Hhttp%lang_lit
          & ws & w'' & -> & (n & _ & Hn & Hs%power_chr)
          & w3 & w''' & -> & Hsep%lang_lit
          & name & w5 & -> & (j & Hj & _ & [Hlen Hword]%power_class)
          & Honion%lang_lit).
  subst. cbn in Hn.
  exists (Py.of_list (Py.to_list "http" ++ replicate n "s"%char)), (Py.of_list name).
  split_and!.
  - apply to_list_inj. rewrite !to_list_app, !to_of_list.
    by rewrite <- !(assoc_L (++)).
  - destruct n as [|[|n]]; [by left|by right|lia].
  - intros Hname. apply (f_equal Py.to_list) in Hname. rewrite to_of_list in Hname.
    subst name. cbn in Hj. lia.
  - by rewrite to_of_list.
Qed.

(** ** The matcher on the address pattern, from the left *)

Lemma matchk_lit_app {A} (t : string) (rest : list ascii)
    (k : list ascii → option A) :
  Re.matchk (Re.lit t) (Py.to_list t ++ rest) k = k rest.
Proof.
  induction t as [|c t IH]; [done|].
  change (Py.to_list (String c t)) with (c :: Py.to_list t).
  cbn [Re.lit Re.matchk app]. by rewrite bool_decide_eq_true_2.
Qed.

Lemma rep_k_succ {A} (m : list ascii → (list ascii → option A) → option A)
    (k : list ascii → option A) (lo hi : nat) (s : list ascii) :
  Re.rep_k m k lo (S hi) s
  = match m s (λ s', Re.rep_k m k (pred lo) hi s') with
    | Some a => Some a
    | None => match lo with 0 => k s | S _ => None end
    end.
Proof. done. Qed.

Lemma matchk_class_cons {A} (p : ascii → bool) (x : ascii) (s : list ascii)
    (k : list ascii → option A) :
  Re.matchk (Re.Class p) (x :: s) k = if p x then k s else None.
Proof. done. Qed.

Lemma matchk_chr_cons {A} (c x : ascii) (s : list ascii)
    (k : list ascii → option A) :
  Re.matchk (Re.Chr c) (x :: s) k = if bool_decide (x = c) then k s else None.
Proof. done. Qed.

Lemma rep_class_greedy {A} (p : ascii → bool) (k : list ascii → option A)
    (w rest : list ascii) (lo hi : nat) (a : A) :
  Forall (λ c, p c = true) w →
  (∀ x rest', rest = x :: rest' → p x = false) →
  lo ≤ length w ≤ hi →
  k rest = Some a →
  Re.rep_k (Re.matchk (Re.Class p)) k lo hi (w ++ rest) = Some a.
Proof.
  intros Hw Hstop. revert lo hi.
  induction Hw as [|x w Hx Hw IH]; intros lo hi Hlen Hk.
  - cbn in Hlen. assert (lo = 0) as -> by lia. cbn [app].
    destruct hi as [|hi]; [done|]. rewrite rep_k_succ.
    destruct rest as [|y rest']; [done|].
    by rewrite matchk_class_cons, (Hstop y rest' eq_refl).
  - cbn in Hlen. destruct hi as [|hi]; [lia|].
    cbn [app]. rewrite rep_k_succ, matchk_class_cons, Hx.
    rewrite (IH (pred lo) hi); [done|lia|done].
Qed.

Lemma matchk_seq {A} (r1 r2 : Re.regex) (s : list ascii)
    (k : list ascii → option A) :
  Re.matchk (Re.Seq r1 r2) s k = Re.matchk r1 s (λ s', Re.matchk r2 s' k).
Proof. done. Qed.

Lemma matchk_rep {A} (r : Re.regex) (lo : nat) (hi : option nat) (s : list ascii)
    (k : list ascii → option A) :
  Re.matchk (Re.Rep r lo hi) s k
  = Re.rep_k (Re.matchk r) k lo (default (length s) hi) s.
Proof. done. Qed.

Lemma onion_pattern_matches_shape (a : string) :
  DarkCrawler.onion_shape a →
  Re.matchk Re.onion_pattern (Py.to_list a) (λ rest, Some rest) = Some [].
Proof.
  intros (scheme & name & -> & Hscheme & Hname & Hword).
  assert (Re.matchk
            (Re.Seq (Re.lit "://")
                    (Re.Seq (Re.Rep (Re.Class Re.word) 1 None) (Re.lit ".onion")))
            (Py.to_list "://" ++ Py.to_list name ++ Py.to_list ".onion")
            (λ rest, Some rest)
          = Some []) as Htail.
  { rewrite matchk_seq, matchk_lit_app, matchk_seq, matchk_rep.
    cbn [from_option id].
    apply rep_class_greedy.
    - done.
    - by intros x rest' [= <- _].
    - rewrite length_app. split; [|lia].
      destruct (Py.to_list name) eqn:Hl; [|cbn; lia].
      exfalso. apply Hname. apply to_list_inj. by rewrite Hl.
    - change (Py.to_list ".onion") with (Py.to_list ".onion" ++ []).
      by rewrite matchk_lit_app. }
  rewrite !to_list_app. unfold Re.onion_pattern.
  destruct Hscheme as [-> | ->].
  - rewrite matchk_seq, matchk_lit_app, matchk_seq, matchk_rep.
    cbn [from_option id].
    change (Py.to_list "://") with (":"%char :: Py.to_list "//") at 1.
    cbn [app]. rewrite rep_k_succ, matchk_chr_cons.
    rewrite bool_decide_eq_false_2 by done. exact Htail.
  - change (Py.to_list "https") with (Py.to_list "http" ++ ["s"%char]).
    rewrite <- (assoc_L (++)).
    rewrite matchk_seq, matchk_lit_app, matchk_seq, matchk_rep.
    cbn [from_option id app]. rewrite rep_k_succ, matchk_chr_cons.
    rewrite bool_decide_eq_true_2 by done. cbn [pred Re.rep_k]. by rewrite Htail.
Qed.

(** X2: what [onion_address_search] returns is part of the text it was
    given and has the shape of the pattern: [http] or [https], [://], one
    or more word characters, [.onion]; on [None] and on the empty text it
    returns [None]; and on a text of that shape it returns the text
    itself, so an address it found once is found unchanged again. *)
Theorem onion_address_search_shape :
  (∀ href a,
     DarkCrawler.onion_address_search href = Some a →
     DarkCrawler.onion_shape a
     ∧ ∃ text pre post, href = Some text ∧ text = pre +:+ a +:+ post)
  ∧ DarkCrawler.onion_address_search None = None
  ∧ DarkCrawler.onion_address_search (Some "") = None
  ∧ (∀ a, DarkCrawler.onion_shape a →
          DarkCrawler.onion_address_search (Some a) = Some a).
Proof.
  split_and!; [|done|done|].
  - intros [text|] a; [|done]. unfold DarkCrawler.onion_address_search.
    destruct (Py.truthy (Some text)); [|done]. unfold Re.search.
    destruct (Re.search_go Re.onion_pattern (Py.to_list text)) as [m|] eqn:Hgo;
      [|done].
    intros [= <-]. apply search_go_sound in Hgo as (pre & post & Htext & Hm).
    split; [by apply lang_onion_pattern|].
    exists text, (Py.of_list pre), (Py.of_list post). split; [done|].
    apply to_list_inj. by rewrite !to_list_app, !to_of_list.
  - intros a Hshape. unfold DarkCrawler.onion_address_search.
    assert (Py.truthy (Some a) = true) as ->.
    { destruct Hshape as (scheme & name & -> & [-> | ->] & _); done. }
    unfold Re.search.
    assert (Re.search_go Re.onion_pattern (Py.to_list a) = Some (Py.to_list a))
      as ->.
    { destruct (Py.to_list a) as [|x l] eqn:Hl.
      - destruct Hshape as (scheme & name & -> & [-> | ->] & _); done.
      - unfold Re.search_go; fold Re.search_go. rewrite <- Hl.
        rewrite (onion_pattern_matches_shape a Hshape). cbn [length].
        by rewrite Nat.sub_0_r, firstn_all. }
    cbn. by rewrite of_to_list.
Qed.

Lemma onion_address_search_shape_witness :
  DarkCrawler.onion_address_search
    (Some "https://abcdefghijklmnopqrstuvwxyzabcdefghijklmnopqrstuvwxyz2345.onion")
  = Some "https://abcdefghijklmnopqrstuvwxyzabcdefghijklmnopqrstuvwxyz2345.onion".
Proof.
  apply (proj2 (proj2 (proj2 onion_address_search_shape))).
  exists "https", "abcdefghijklmnopqrstuvwxyzabcdefghijklmnopqrstuvwxyz2345".
  split_and!; [reflexivity|by right|discriminate|].
  apply Forall_forall. intros c Hc. vm_compute in Hc.
  repeat (apply elem_of_cons in Hc as [->|Hc]; [reflexivity|]).
  by apply elem_of_nil in Hc.
Defined.

(** ** The V2 test on addresses of the onion shape *)

Lemma is_v2_onion scheme name :
  is_v2 (scheme +:+ "://" +:+ name +:+ ".onion")
  = (Py.len scheme + Py.len name <=? 21).
Proof.
  unfold is_v2.
  rewrite <- !str_app_assoc, endswith_app. cbn [andb].
  rewrite !len_app. change (Py.len "://") with 3. change (Py.len ".onion") with 6.
  destruct (Py.len scheme + Py.len name <=? 21) eqn:H.
  - apply Nat.leb_le in H. apply Nat.leb_le. lia.
  - apply Nat.leb_gt in H. apply Nat.leb_gt. lia.
Qed.



(** ** [_scrape_links] of the concurrent crawler, run without interruption *)

Lemma try_enqueue_eq (onion_addr : option string) (s : state) :
  MultiThreadedDarkCrawler.try_enqueue onion_addr s
  = (Ok (),
     match onion_addr with
     | Some a =>
         if Py.truthy onion_addr && bool_decide (a ∉ seen s)
         then set_queue (queue s ++ [a]) (set_seen ({[a]} ∪ seen s) s)
         else s
     | None => s
     end).
Proof.
  unfold MultiThreadedDarkCrawler.try_enqueue, bind, get,
    MultiThreadedDarkCrawler._is_new_onion_address.
  destruct onion_addr as [a|]; [|done]. by destruct (_ && _).
Qed.

Lemma set_seen_queue_same s : set_queue (queue s) (set_seen (seen s) s) = s.
Proof. by destruct s. Qed.

Lemma mt_scrape_links_loop (page : list (option string)) (s : state) :
  ∃ new,
    for_each page (λ href,
      MultiThreadedDarkCrawler.try_enqueue (DarkCrawler.onion_address_search href)) s
    = (Ok (),
       set_queue (queue s ++ new) (set_seen (seen s ∪ Threads.addresses page) s))
    ∧ NoDup new
    ∧ (∀ a, a ∈ new ↔ a ∈ Threads.addresses page ∧ a ∉ seen s).
Proof.
  revert s. induction page as [|href page IH]; intros s.
  - exists []. split_and!.
    + cbn. rewrite (right_id_L [] (++)), (right_id_L ∅ (∪)).
      by rewrite set_seen_queue_same.
    + constructor.
    + intros a. rewrite elem_of_nil. cbn. set_solver.
  - cbn [for_each Threads.addresses].
    destruct (DarkCrawler.onion_address_search href) as [a0|] eqn:Ho.
    + destruct (Py.truthy (Some a0) && bool_decide (a0 ∉ seen s)) eqn:Hcond.
      * apply andb_true_iff in Hcond as [Htruthy Hnew%bool_decide_eq_true].
        destruct (IH (set_queue (queue s ++ [a0]) (set_seen ({[a0]} ∪ seen s) s)))
          as (new & Hrun & Hnd & Hchar).
        exists (a0 :: new). split_and!.
        -- eapply bind_ok; [apply try_enqueue_eq|].
           cbv beta iota. rewrite Htruthy, bool_decide_eq_true_2 by done.
           cbn [andb]. rewrite Hrun, (fed_truthy _ Htruthy).
           unfold set_queue, set_seen. cbn [queue searched seen work outside].
           rewrite <- (assoc_L (++)). do 2 f_equal. set_solver.
        -- constructor; [|done]. intros Hin%Hchar. cbn in Hin. set_solver.
        -- intros a. rewrite elem_of_cons, Hchar, (fed_truthy _ Htruthy). cbn.
           rewrite !elem_of_union, elem_of_singleton.
           split; [naive_solver|].
           intros [[->|?] ?]; [by left|].
           destruct (decide (a = a0)) as [->|?]; [by left|]. right. naive_solver.
      * destruct (IH s) as (new & Hrun & Hnd & Hchar).
        exists new. split_and!; [|done|].
        -- eapply bind_ok; [apply try_enqueue_eq|].
           cbv beta iota. rewrite Hcond, Hrun.
           unfold set_queue, set_seen. cbn [queue searched seen work outside]. do 2 f_equal.
           apply andb_false_iff in Hcond as [Hf|Hs%bool_decide_eq_false].
           ++ unfold Threads.fed. rewrite Hf. set_solver.
           ++ assert (a0 ∈ seen s) by (by destruct (decide (a0 ∈ seen s))).
              pose proof (elem_of_fed (Some a0)) as Hfed. set_solver.
        -- intros a. rewrite Hchar, elem_of_union, elem_of_fed.
           split; [naive_solver|]. intros [[[[= <-] Ht]|?] Hs]; [|done].
           rewrite Ht, bool_decide_eq_true_2 in Hcond by done. done.
    + destruct (IH s) as (new & Hrun & Hnd & Hchar).
      exists new. split_and!; [|done|].
      * eapply bind_ok; [apply try_enqueue_eq|].
        cbv beta iota. rewrite Hrun.
        unfold set_queue, set_seen. cbn [queue searched seen work outside]. do 2 f_equal. set_solver.
      * intros a. rewrite Hchar. cbn. set_solver.
Qed.

(** X4: run without interruption, [_scrape_links] of the concurrent
    crawler appends to the queue, once each, exactly the addresses of the
    page that were not seen before, and adds the addresses of the page to
    the seen set; nothing else changes.  Run again on the same page, it
    changes nothing at all. *)
Theorem mt_scrape_links_appends_unseen_once bsoup s :
  ∃ new s',
    MultiThreadedDarkCrawler._scrape_links bsoup s = (Ok (), s')
    ∧ s' = set_queue (queue s ++ new)
             (set_seen (seen s ∪ Threads.addresses (hrefs bsoup)) s)
    ∧ NoDup new
    ∧ (∀ a, a ∈ new ↔ a ∈ Threads.addresses (hrefs bsoup) ∧ a ∉ seen s)
    ∧ MultiThreadedDarkCrawler._scrape_links bsoup s' = (Ok (), s').
Proof.
  unfold MultiThreadedDarkCrawler._scrape_links.
  destruct (mt_scrape_links_loop (hrefs bsoup) s) as (new & Hrun & Hnd & Hchar).
  eexists new, _. split_and!; [exact Hrun|done|done|done|].
  destruct (mt_scrape_links_loop (hrefs bsoup)
              (set_queue (queue s ++ new)
                 (set_seen (seen s ∪ Threads.addresses (hrefs bsoup)) s)))
    as (new' & Hrun' & _ & Hchar').
  rewrite Hrun'. cbn.
  assert (new' = []) as ->.
  { apply elem_of_nil_inv. intros a Ha. apply Hchar' in Ha.
    cbn [seen set_queue set_seen] in Ha. set_solver. }
  unfold set_queue, set_seen. cbn [queue searched seen work outside].
  rewrite (right_id_L [] (++)). do 2 f_equal. set_solver.
Qed.

(** ** A worker that runs alone, and runs that can always be completed *)

Lemma exec_app (l1 l2 : list Threads.actor) (σ : Threads.system) :
  Threads.exec (l1 ++ l2) σ
  = let '(σ1, tr1) := Threads.exec l1 σ in
    let '(σ2, tr2) := Threads.exec l2 σ1 in (σ2, tr1 ++ tr2).
Proof.
  revert σ. induction l1 as [|a l1 IH]; intros σ; cbn [app Threads.exec].
  - by destruct (Threads.exec l2 σ).
  - destruct (Threads.step a σ) as [[σ' ev]|]; [|apply IH].
    rewrite IH. destruct (Threads.exec l1 σ') as [σ1 tr1].
    destruct (Threads.exec l2 σ1) as [σ2 tr2]. by rewrite (assoc_L (++)).
Qed.

Lemma exec_app_eq (l1 l2 : list Threads.actor) σ σ1 tr1 σ2 tr2 :
  Threads.exec l1 σ = (σ1, tr1) →
  Threads.exec l2 σ1 = (σ2, tr2) →
  Threads.exec (l1 ++ l2) σ = (σ2, tr1 ++ tr2).
Proof. intros H1 H2. by rewrite exec_app, H1, H2. Qed.

Ltac worker_steps Hthr Hlen :=
  repeat (cbn [replicate Threads.exec Threads.step];
          unfold Threads.worker_step at 1;
          cbn [Threads.threads Threads.queue_lock Threads.shared Threads.main
               Threads.with_thread Threads.with_lock Threads.with_shared];
          rewrite ?list_insert_insert_eq;
          first [rewrite list_lookup_insert_eq by (rewrite ?length_insert; exact Hlen)
                |rewrite Hthr];
          cbv iota beta).

Ltac system_eq :=
  unfold Threads.with_thread, Threads.with_lock, Threads.with_shared;
  cbn [Threads.threads Threads.queue_lock Threads.shared Threads.main app];
  rewrite ?list_insert_insert_eq.

(** From the top of the [with] block to the top of the loop: the steps of
    one worker do what [try_enqueue] does. *)
Lemma solo_block i onion_addr rest σ :
  Threads.threads σ !! i = Some (Threads.AtWith onion_addr rest) →
  Threads.queue_lock σ = None →
  ∃ n tr,
    Threads.exec (replicate n (Threads.WorkerThread i)) σ
    = ({| Threads.shared :=
            (MultiThreadedDarkCrawler.try_enqueue onion_addr (Threads.shared σ)).2;
          Threads.queue_lock := None;
          Threads.main := Threads.main σ;
          Threads.threads := <[i := Threads.AtFor rest]> (Threads.threads σ) |}, tr)
    ∧ queue (MultiThreadedDarkCrawler.try_enqueue onion_addr (Threads.shared σ)).2
      = queue (Threads.shared σ) ++ tr.
Proof.
  intros Hthr Hlock. pose proof (lookup_lt_Some _ _ _ Hthr) as Hlen.
  rewrite try_enqueue_eq. cbn [snd].
  destruct onion_addr as [a|].
  - destruct (Py.truthy (Some a)
              && bool_decide (a ∉ seen (Threads.shared σ))) eqn:Hcond.
    + exists 5, [a]. worker_steps Hthr Hlen. rewrite Hlock. cbv iota beta.
      worker_steps Hthr Hlen.
      unfold MultiThreadedDarkCrawler._is_new_onion_address. rewrite Hcond.
      worker_steps Hthr Hlen. system_eq. done.
    + exists 3, []. worker_steps Hthr Hlen. rewrite Hlock. cbv iota beta.
      worker_steps Hthr Hlen.
      unfold MultiThreadedDarkCrawler._is_new_onion_address. rewrite Hcond.
      worker_steps Hthr Hlen. system_eq.
      split; [done|by rewrite (right_id_L [] (++))].
  - exists 3, []. worker_steps Hthr Hlen. rewrite Hlock. cbv iota beta.
    worker_steps Hthr Hlen. system_eq.
      split; [done|by rewrite (right_id_L [] (++))].
Qed.

(** From the top of the loop to its end: the steps of one worker do what
    the loop of [_scrape_links] does. *)
Lemma solo_loop i rest σ :
  Threads.threads σ !! i = Some (Threads.AtFor rest) →
  Threads.queue_lock σ = None →
  ∃ n tr s',
    Threads.exec (replicate n (Threads.WorkerThread i)) σ
    = ({| Threads.shared := s';
          Threads.queue_lock := None;
          Threads.main := Threads.main σ;
          Threads.threads := <[i := Threads.AtFor []]> (Threads.threads σ) |}, tr)
    ∧ for_each rest (λ href,
        MultiThreadedDarkCrawler.try_enqueue (DarkCrawler.onion_address_search href))
        (Threads.shared σ) = (Ok (), s')
    ∧ queue s' = queue (Threads.shared σ) ++ tr.
Proof.
  revert σ. induction rest as [|href rest IH]; intros σ Hthr Hlock.
  - exists 0, [], (Threads.shared σ). cbn [replicate Threads.exec for_each].
    rewrite (list_insert_id _ _ _ Hthr), (right_id_L [] (++)).
    destruct σ; cbn in *; by subst.
  - pose proof (lookup_lt_Some _ _ _ Hthr) as Hlen.
    set (σ1 := Threads.with_thread i
                 (Threads.AtWith (DarkCrawler.onion_address_search href) rest) σ).
    assert (Threads.exec [Threads.WorkerThread i] σ = (σ1, [])) as Hfirst.
    { cbn [Threads.exec Threads.step]. unfold Threads.worker_step. by rewrite Hthr. }
    destruct (solo_block i (DarkCrawler.onion_address_search href) rest σ1)
      as (n2 & tr2 & Hblock & Hq2).
    { cbn. by apply list_lookup_insert_eq. }
    { done. }
    cbn [σ1 Threads.with_thread Threads.shared Threads.main Threads.threads]
      in Hblock, Hq2.
    rewrite list_insert_insert_eq in Hblock.
    destruct (try_enqueue_frame (DarkCrawler.onion_address_search href)
                (Threads.shared σ)) as (s1 & Hs1 & _).
    rewrite Hs1 in Hblock, Hq2. cbn [snd] in Hblock, Hq2.
    match type of Hblock with _ = (?σ', _) => set (σ2 := σ') in * end.
    destruct (IH σ2) as (n3 & tr3 & s' & Hloop & Hfor & Hq3).
    { cbn. by apply list_lookup_insert_eq. }
    { done. }
    cbn [σ2 Threads.shared Threads.main Threads.threads] in Hloop, Hfor, Hq3.
    rewrite list_insert_insert_eq in Hloop.
    exists (1 + (n2 + n3)), (tr2 ++ tr3), s'. split_and!.
    + rewrite !replicate_add.
      change (replicate 1 (Threads.WorkerThread i)) with [Threads.WorkerThread i].
      apply (exec_app_eq _ _ _ _ [] _ _ Hfirst).
      by apply (exec_app_eq _ _ _ _ _ _ _ Hblock).
    + cbn [for_each]. eapply bind_ok; [exact Hs1|exact Hfor].
    + rewrite Hq3, Hq2. by rewrite (assoc_L (++)).
Qed.

(** X5: a worker that is not interrupted takes finitely many steps through
    [_scrape_links], ends with the lock released, and leaves the shared
    state exactly as the uninterrupted [_scrape_links] of the page does;
    the addresses it appended are the new end of the queue. *)
Theorem solo_worker_runs_scrape_links (bsoup : soup) (s0 : state) :
  ∃ n,
    let run := Threads.exec (replicate n (Threads.WorkerThread 0))
                 (Threads.init s0 [hrefs bsoup]) in
    Threads.finished run.1
    ∧ Threads.queue_lock run.1 = None
    ∧ MultiThreadedDarkCrawler._scrape_links bsoup s0 = (Ok (), Threads.shared run.1)
    ∧ queue (Threads.shared run.1) = queue s0 ++ run.2.
Proof.
  destruct (solo_loop 0 (hrefs bsoup) (Threads.init s0 [hrefs bsoup]))
    as (n & tr & s' & Hrun & Hfor & Hq); [done..|].
  exists n. cbv zeta. rewrite Hrun. cbn [fst snd Threads.shared Threads.queue_lock].
  split_and!; [|done|exact Hfor|exact Hq].
  intros i p Hp. cbn in Hp. destruct i as [|i]; cbn in Hp; [by injection Hp|done].
Qed.

(** ** Nobody waits for [queue_lock] for ever *)

Lemma holder_exists s0 pages tr σ :
  Threads.reaches (Threads.init s0 pages) tr σ →
  ∀ i, Threads.queue_lock σ = Some (Threads.WorkerThread i) →
       is_Some (Threads.threads σ !! i).
Proof.
  induction 1 as [|tr σ' a σ'' ev _ IH Hstep]; [done|].
  intros j Hj. destruct a as [|i]; cbn in Hstep.
  - unfold Threads.main_step in Hstep.
    destruct (Threads.main σ'); [destruct (Threads.queue_lock σ') eqn:Hl|..];
      simplify_eq; cbn in *; try done; by apply IH.
  - unfold Threads.worker_step in Hstep.
    destruct (Threads.threads σ' !! i) as [p|] eqn:Hp; [|done].
    pose proof (lookup_lt_Some _ _ _ Hp) as Hlen.
    assert (∀ q, is_Some (<[i := q]> (Threads.threads σ') !! j)
                 ↔ is_Some (Threads.threads σ' !! j)) as Hsame.
    { intros q. by rewrite !lookup_lt_is_Some, length_insert. }
    assert (∀ q, Threads.queue_lock σ' = Some (Threads.WorkerThread j) →
                 is_Some (<[i := q]> (Threads.threads σ') !! j)) as Hkeep.
    { intros q Hl. apply Hsame. by apply IH. }
    destruct p as [[|href rest]|o rest|o rest|a rest|a rest|rest].
    + done.
    + simplify_eq. by apply Hkeep.
    + destruct (Threads.queue_lock σ') eqn:Hl; [done|]. simplify_eq. cbn in Hj.
      simplify_eq. cbn. apply Hsame. by rewrite Hp.
    + destruct o as [a|]; [destruct (_ && _)|]; simplify_eq; by apply Hkeep.
    + simplify_eq. by apply Hkeep.
    + simplify_eq. by apply Hkeep.
    + by simplify_eq.
Qed.

Lemma solo_release i p σ :
  Threads.threads σ !! i = Some p →
  Threads.in_block p →
  ∃ n σ' tr rest,
    Threads.exec (replicate n (Threads.WorkerThread i)) σ = (σ', tr)
    ∧ Threads.queue_lock σ' = None
    ∧ Threads.main σ' = Threads.main σ
    ∧ Threads.threads σ' = <[i := Threads.AtFor rest]> (Threads.threads σ).
Proof.
  intros Hthr Hin. pose proof (lookup_lt_Some _ _ _ Hthr) as Hlen.
  destruct p as [rest|o rest|o rest|a rest|a rest|rest]; try done.
  - destruct o as [a|];
      [destruct (Py.truthy (Some a)
                 && MultiThreadedDarkCrawler._is_new_onion_address a (Threads.shared σ))
         eqn:Hcond|].
    + exists 4. do 2 eexists. exists rest. worker_steps Hthr Hlen.
      rewrite Hcond. worker_steps Hthr Hlen. system_eq. done.
    + exists 2. do 2 eexists. exists rest. worker_steps Hthr Hlen.
      rewrite Hcond. worker_steps Hthr Hlen. system_eq. done.
    + exists 2. do 2 eexists. exists rest. worker_steps Hthr Hlen. system_eq. done.
  - exists 3. do 2 eexists. exists rest. worker_steps Hthr Hlen. system_eq. done.
  - exists 2. do 2 eexists. exists rest. worker_steps Hthr Hlen. system_eq. done.
  - exists 1. do 2 eexists. exists rest. worker_steps Hthr Hlen. system_eq. done.
Qed.

Lemma main_release σ :
  Threads.main_in_block (Threads.main σ) →
  ∃ n σ' tr,
    Threads.exec (replicate n Threads.MainThread) σ = (σ', tr)
    ∧ Threads.queue_lock σ' = None
    ∧ Threads.threads σ' = Threads.threads σ.
Proof.
  intros Hin. destruct (Threads.main σ) eqn:Hmain; [done|..].
  - exists 3. do 2 eexists. cbn [replicate Threads.exec Threads.step].
    unfold Threads.main_step. rewrite Hmain. cbn. done.
  - exists 2. do 2 eexists. cbn [replicate Threads.exec Threads.step].
    unfold Threads.main_step. rewrite Hmain. cbn. done.
  - exists 1. do 2 eexists. cbn [replicate Threads.exec Threads.step].
    unfold Threads.main_step. rewrite Hmain. cbn. done.
Qed.

Lemma finish_one i p σ :
  Threads.threads σ !! i = Some p →
  ¬ Threads.in_block p →
  Threads.queue_lock σ = None →
  ∃ n σ' tr,
    Threads.exec (replicate n (Threads.WorkerThread i)) σ = (σ', tr)
    ∧ Threads.queue_lock σ' = None
    ∧ Threads.threads σ' = <[i := Threads.AtFor []]> (Threads.threads σ).
Proof.
  intros Hthr Hout Hlock. pose proof (lookup_lt_Some _ _ _ Hthr) as Hlen.
  destruct p as [rest|o rest|o rest|a rest|a rest|rest]; try (by destruct Hout).
  - destruct (solo_loop i rest σ Hthr Hlock) as (n & tr & s' & Hrun & _).
    by eexists n, _, tr.
  - destruct (solo_block i o rest σ Hthr Hlock) as (n1 & tr1 & Hrun1 & _).
    match type of Hrun1 with _ = (?σ', _) => set (σ1 := σ') in * end.
    destruct (solo_loop i rest σ1) as (n2 & tr2 & s' & Hrun2 & _).
    { cbn. by apply list_lookup_insert_eq. }
    { done. }
    eexists (n1 + n2), _, (tr1 ++ tr2). split_and!.
    + rewrite replicate_add. by apply (exec_app_eq _ _ _ _ _ _ _ Hrun1).
    + done.
    + cbn. by rewrite list_insert_insert_eq.
Qed.

Lemma finish_all (m : nat) σ :
  Threads.queue_lock σ = None →
  (∀ i p, Threads.threads σ !! i = Some p → ¬ Threads.in_block p) →
  ∃ schedule σ' tr,
    Threads.exec schedule σ = (σ', tr)
    ∧ Threads.queue_lock σ' = None
    ∧ (∀ i p, Threads.threads σ' !! i = Some p → i < m → p = Threads.AtFor [])
    ∧ (∀ i, m ≤ i → Threads.threads σ' !! i = Threads.threads σ !! i).
Proof.
  intros Hlock Hout. induction m as [|m IH].
  - exists [], σ, []. split_and!; [done|done|lia|done].
  - destruct IH as (schedule & σ1 & tr1 & Hrun1 & Hlock1 & Hdone & Hrest).
    destruct (Threads.threads σ1 !! m) as [p|] eqn:Hp.
    + destruct (finish_one m p σ1 Hp) as (n & σ2 & tr2 & Hrun2 & Hlock2 & Hthr2).
      { apply (Hout m). by rewrite <- Hrest. }
      { done. }
      exists (schedule ++ replicate n (Threads.WorkerThread m)), σ2, (tr1 ++ tr2).
      split_and!.
      * by apply (exec_app_eq _ _ _ _ _ _ _ Hrun1).
      * done.
      * intros i q Hq Hi. rewrite Hthr2 in Hq.
        apply list_lookup_insert_Some in Hq as [(_ & <- & _)|[Hne Hq]]; [done|].
        apply (Hdone i q Hq). lia.
      * intros i Hi. rewrite Hthr2, list_lookup_insert_ne by lia. apply Hrest. lia.
    + exists schedule, σ1, tr1. split_and!; [done|done| |].
      * intros i q Hq Hi. destruct (decide (i = m)) as [->|]; [congruence|].
        apply (Hdone i q Hq). lia.
      * intros i Hi. apply Hrest. lia.
Qed.

(** X6: [queue_lock] never blocks the crawl for good.  From every state
    the threads can get into, there is a way on in which every worker
    leaves [_scrape_links], with the lock released at the end: whoever
    holds the lock can step on to the end of its block, and with the lock
    free each worker can run to the end of its page. *)
Theorem workers_can_always_finish s0 pages tr σ :
  Threads.reaches (Threads.init s0 pages) tr σ →
  ∃ schedule,
    Threads.finished (Threads.exec schedule σ).1
    ∧ Threads.queue_lock (Threads.exec schedule σ).1 = None.
Proof.
  intros Hreach.
  assert (∃ schedule1 σ1 tr1,
            Threads.exec schedule1 σ = (σ1, tr1) ∧ Threads.queue_lock σ1 = None)
    as (schedule1 & σ1 & tr1 & Hrun1 & Hlock1).
  { destruct (Threads.queue_lock σ) as [[|i]|] eqn:Hlock.
    - destruct (invariant_reaches _ _ _ _ Hreach) as (_ & _ & Hmain & _).
      destruct (main_release σ) as (n & σ1 & tr1 & Hrun & Hl & _);
        [by apply Hmain|]. by eexists _, σ1, tr1.
    - destruct (holder_exists _ _ _ _ Hreach i Hlock) as [p Hp].
      destruct (invariant_reaches _ _ _ _ Hreach) as (Hlen & Hthreads & _).
      destruct (pages !! i) as [page|] eqn:Hpage.
      2: { apply lookup_ge_None in Hpage. apply lookup_lt_Some in Hp. lia. }
      destruct (Hthreads i page p Hpage Hp) as (Hblock & _).
      destruct (solo_release i p σ Hp) as (n & σ1 & tr1 & rest & Hrun & Hl & _);
        [by apply Hblock|]. by eexists _, σ1, tr1.
    - by exists [], σ, []. }
  assert (Threads.reaches (Threads.init s0 pages) (tr ++ tr1) σ1) as Hreach1.
  { eapply reaches_trans; [exact Hreach|].
    pose proof (exec_reaches schedule1 σ) as Hex. by rewrite Hrun1 in Hex. }
  destruct (invariant_reaches _ _ _ _ Hreach1) as (Hlen & Hthreads & _).
  destruct (finish_all (length (Threads.threads σ1)) σ1 Hlock1)
    as (schedule2 & σ2 & tr2 & Hrun2 & Hlock2 & Hdone & _).
  { intros i p Hp Hin.
    destruct (pages !! i) as [page|] eqn:Hpage.
    2: { apply lookup_ge_None in Hpage. apply lookup_lt_Some in Hp. lia. }
    destruct (Hthreads i page p Hpage Hp) as (Hblock & _).
    apply Hblock in Hin. congruence. }
  exists (schedule1 ++ schedule2).
  rewrite (exec_app_eq _ _ _ _ _ _ _ Hrun1 Hrun2). cbn [fst]. split; [|done].
  intros i p Hp. apply (Hdone i p Hp).
  assert (length (Threads.threads σ2) = length (Threads.threads σ1)) as Hl.
  { pose proof (exec_reaches schedule2 σ1) as Hex. rewrite Hrun2 in Hex. cbn in Hex.
    destruct (invariant_reaches _ _ _ _ (reaches_trans _ _ _ _ _ Hreach1 Hex))
      as (Hlen2 & _). lia. }
  rewrite <- Hl. by apply lookup_lt_Some in Hp.
Qed.

Lemma workers_can_always_finish_witness :
  ∃ schedule,
    Threads.finished (Threads.exec schedule (Threads.init empty_state two_pages)).1
    ∧ Threads.queue_lock
        (Threads.exec schedule (Threads.init empty_state two_pages)).1 = None.
Proof.
  apply (workers_can_always_finish empty_state two_pages []). constructor.
Defined.

(** ** DarkCrawler: the inherited run loop *)

Lemma dark_scrape_links_body (onion_addr : option string) (s : state) :
  (s1 ← get;
   match onion_addr with
   | Some a =>
       if Py.truthy onion_addr && DarkCrawler._is_new_onion_address a s1
       then modify (set_queue (queue s1 ++ [a]))
       else ret ()
   | None => ret ()
   end) s
  = (Ok (),
     match onion_addr with
     | Some a =>
         if Py.truthy onion_addr && DarkCrawler._is_new_onion_address a s
         then set_queue (queue s ++ [a]) s
         else s
     | None => s
     end).
Proof.
  unfold bind, get. destruct onion_addr as [a|]; [|done].
  by destruct (_ && _).
Qed.

Lemma dark_scrape_links_spec bsoup s :
  ∃ new,
    DarkCrawler._scrape_links bsoup s = (Ok (), set_queue (queue s ++ new) s)
    ∧ NoDup new
    ∧ (∀ a, a ∈ new ↔
         a ∈ Threads.addresses (hrefs bsoup) ∧ (a ∉ queue s) ∧ (a ∉ searched s)).
Proof.
  unfold DarkCrawler._scrape_links. revert s.
  induction (hrefs bsoup) as [|href l IH]; intros s.
  - exists []. split_and!.
    + cbn. by rewrite (right_id_L [] (++)), set_queue_same.
    + constructor.
    + intros a. rewrite elem_of_nil. cbn. set_solver.
  - cbn [for_each Threads.addresses].
    destruct (DarkCrawler.onion_address_search href) as [a0|] eqn:Ho.
    + destruct (Py.truthy (Some a0) && DarkCrawler._is_new_onion_address a0 s)
        eqn:Hcond.
      * apply andb_true_iff in Hcond as [Htruthy Hnew].
        pose proof Hnew as Hnew'. unfold DarkCrawler._is_new_onion_address in Hnew'.
        apply andb_true_iff in Hnew' as [Hq%bool_decide_eq_true Hs%bool_decide_eq_true].
        destruct (IH (set_queue (queue s ++ [a0]) s)) as (new & Hrun & Hnd & Hchar).
        exists (a0 :: new). split_and!.
        -- eapply bind_ok; [apply (dark_scrape_links_body (Some a0) s)|].
           cbv beta iota. rewrite Htruthy, Hnew. cbn [andb].
           rewrite Hrun. cbn. by rewrite <- (assoc_L (++)).
        -- constructor; [|done]. intros Hin. apply Hchar in Hin.
           cbn in Hin. rewrite elem_of_app, list_elem_of_singleton in Hin.
           naive_solver.
        -- intros a. rewrite elem_of_cons, Hchar, (fed_truthy _ Htruthy). cbn.
           rewrite elem_of_app, list_elem_of_singleton, elem_of_union,
             elem_of_singleton.
           split; [naive_solver|].
           intros ([->|?] & ? & ?); [by left|].
           destruct (decide (a = a0)) as [->|?]; [by left|].
           right. naive_solver.
      * destruct (IH s) as (new & Hrun & Hnd & Hchar).
        exists new. split_and!; [|done|].
        -- eapply bind_ok; [apply (dark_scrape_links_body (Some a0) s)|].
           cbv beta iota. by rewrite Hcond.
        -- intros a. rewrite Hchar, elem_of_union, elem_of_fed.
           split; [naive_solver|].
           intros ([[[= <-] Ht]|?] & Hq & Hs); [|naive_solver].
           unfold DarkCrawler._is_new_onion_address in Hcond.
           rewrite Ht, !bool_decide_eq_true_2 in Hcond by done. done.
    + destruct (IH s) as (new & Hrun & Hnd & Hchar).
      exists new. split_and!; [|done|].
      * eapply bind_ok; [apply (dark_scrape_links_body None s)|]. done.
      * intros a. rewrite Hchar. cbn. set_solver.
Qed.

Lemma files_logged self url line s path :
  path ≠ log_path self →
  files (outside (logged self url line s)) !! path = files (outside s) !! path.
Proof. intros. unfold logged. cbn. by rewrite lookup_insert_ne. Qed.

Lemma files_append_ne path path' text s :
  path' ≠ path →
  files (outside (on_world (file_append path' text) s)) !! path
  = files (outside s) !! path.
Proof. intros. cbn. by rewrite lookup_insert_ne. Qed.

Ltac plain_call :=
  first [done
        |by left
        |cbn; by rewrite (right_id_L [] (++))
        |apply NoDup_nil_2
        |intros ? Ha; by apply elem_of_nil in Ha
        |rewrite files_append_ne by done; by rewrite files_logged].

(** What one call of [DarkCrawler.scrape_url] does to the frontier, the
    network and the savestate file, whatever the page. *)
Lemma dark_scrape_url_spec self e url s :
  ∃ r s' new,
    DarkCrawler.scrape_url self e url s = (r, s')
    ∧ (r = Ok () ∨ ∃ name, r = Raise (AttributeError name))
    ∧ requests (outside s')
      = requests (outside s) ++ (if is_v2 url then [] else [url])
    ∧ searched s' = {[url]} ∪ searched s
    ∧ queue s' = queue s ++ new
    ∧ NoDup new
    ∧ (∀ a, a ∈ new → (a ∉ queue s) ∧ (a ∉ searched s'))
    ∧ files (outside s') !! savestate_path self
      = files (outside s) !! savestate_path self.
Proof.
  pose proof (savestate_path_ne_data_path self) as Hsd.
  pose proof (savestate_path_ne_log_path self) as Hsl.
  assert (data_path self ≠ savestate_path self) as Hds by done.
  assert (∀ l : list string, l = l ++ []) as Hnil
    by (intros; by rewrite (right_id_L [] (++))).
  destruct (is_v2 url) eqn:Hv2.
  { destruct (dark_scrape_url_v2 self e url s Hv2) as [head ->].
    eexists _, _, []. split; [done|]. split_and!; plain_call. }
  destruct (answer e) as [c|res] eqn:Hans.
  { destruct (dark_scrape_url_fails self e url s c Hv2 Hans) as [head ->].
    eexists _, _, []. split; [done|]. split_and!; plain_call. }
  destruct (decide (status_code res = 200)) as [Hst|Hst].
  2: { destruct (dark_scrape_url_http_error self e url s res Hv2 Hans Hst)
         as [head ->].
    eexists _, _, []. split; [done|]. split_and!; plain_call. }
  destruct (base_log_iter_eq self e url ("HTTP " +:+ Py.str_of_nat (status_code res))
              (on_world (send_request url) s)) as [head Hlog].
  set (s1 := logged self url _ _) in Hlog.
  destruct (dark_scrape_links_spec (parsed res) s1) as (new & Hlinks & Hnd & Hchar).
  set (s2 := set_queue (queue s1 ++ new) s1) in Hlinks.
  assert (DarkCrawler.scrape_url self e url s
          = DarkCrawler._scrape_btc_addresses self (parsed res) url s2) as ->.
  { unfold DarkCrawler.scrape_url. unfold is_v2 in Hv2. rewrite Hv2.
    eapply bind_ok.
    - eapply try_ok, bind_ok; [by apply requests_get_replies|].
      eapply bind_ok; [exact Hlog|reflexivity].
    - cbv beta iota. rewrite Hst. cbn [Nat.eqb].
      eapply bind_ok; [exact Hlinks|reflexivity]. }
  assert (∀ a, a ∈ new → (a ∉ queue s) ∧ (a ∉ {[url]} ∪ searched s)) as Hnew.
  { intros a Ha. apply Hchar in Ha as (_ & Hq & Hs). done. }
  assert (files (outside s2) !! savestate_path self
          = files (outside s) !! savestate_path self) as Hfiles.
  { subst s2 s1. cbn [outside set_queue]. by rewrite files_logged. }
  rewrite scrape_btc_addresses_eq.
  destruct (title (parsed res)) as [[t|]|].
  - eexists _, _, new. split; [done|]. split_and!; try done; [by left|].
    by rewrite files_append_ne.
  - eexists _, _, new. split; [done|]. split_and!; try done. right. by eexists.
  - eexists _, _, new. split; [done|]. split_and!; try done. right. by eexists.
Qed.

Lemma no_refetch_dark_step self e url rest s :
  queue s = url :: rest →
  no_refetch_dark s →
  ∃ r s',
    DarkCrawler.scrape_url self e url (set_queue rest s) = (r, s')
    ∧ (r = Ok () ∨ ∃ name, r = Raise (AttributeError name))
    ∧ no_refetch_dark s'
    ∧ size (searched s') = S (size (searched s))
    ∧ files (outside s') !! savestate_path self
      = files (outside s) !! savestate_path self.
Proof.
  intros Hq (Hndq & Hfresh & Hndr & Hreq).
  destruct (dark_scrape_url_spec self e url (set_queue rest s))
    as (r & s' & new & Hrun & Hr & Hreq' & Hsearched & Hqueue & Hnd & Hnew & Hfiles).
  cbn in Hreq', Hsearched, Hqueue, Hfiles. rewrite Hq in Hndq.
  apply NoDup_cons in Hndq as [Hurl Hndrest].
  assert (url ∉ searched s) as Hus by (apply Hfresh; rewrite Hq; by left).
  exists r, s'. split_and!; [done|done| | |done].
  - unfold no_refetch_dark. rewrite Hqueue, Hreq', Hsearched. split_and!.
    + apply NoDup_app. split_and!; [done| |done].
      intros h Hh Hh'. apply Hnew in Hh' as (Hnq & _). cbn in Hnq. done.
    + intros a [Ha|Ha]%elem_of_app.
      * rewrite elem_of_union, elem_of_singleton. intros [->|Hs]; [done|].
        apply (Hfresh a); [rewrite Hq; by right|done].
      * apply Hnew in Ha as (_ & Hs). by rewrite Hsearched in Hs.
    + destruct (is_v2 url); [by rewrite (right_id_L [] (++))|].
      apply NoDup_app. split_and!; [done| |apply NoDup_singleton].
      intros h Hh ->%list_elem_of_singleton. apply Hus. by apply Hreq.
    + intros a. destruct (is_v2 url) eqn:Hv2.
      * rewrite (right_id_L [] (++)). intros Ha%Hreq. set_solver.
      * intros [Ha%Hreq| ->%list_elem_of_singleton]%elem_of_app; set_solver.
  - rewrite Hsearched, size_union by set_solver. by rewrite size_singleton.
Qed.

Lemma dark_crawl_loop_spec self envs fuel i s :
  no_refetch_dark s →
  ∃ r s',
    DarkCrawler.crawl_loop self envs fuel i s = (r, s')
    ∧ ((∃ left, r = Ok left) ∨ ∃ name, r = Raise (AttributeError name))
    ∧ no_refetch_dark s'
    ∧ files (outside s') !! savestate_path self
      = files (outside s) !! savestate_path self
    ∧ (∀ k, search_limit self = Finite k →
         k - size (searched s) < fuel → r ≠ Ok false).
Proof.
  revert i s. induction fuel as [|fuel IH]; intros i s Hinv.
  - exists (Ok false), s. split_and!; [done|left; by eexists|done|done|].
    intros k _ ?. lia.
  - cbn [DarkCrawler.crawl_loop]. unfold bind at 1, get.
    destruct (queue s) as [|url rest] eqn:Hq.
    { exists (Ok true), s. split_and!; [done|left; by eexists|done|done|done]. }
    destruct (limit_reached (size (searched s)) (search_limit self)) eqn:Hlimit.
    { eexists (Ok true), _. split_and!; [reflexivity|left; by eexists|done|done|done]. }
    destruct (no_refetch_dark_step self (envs i) url rest s Hq Hinv)
      as (r1 & s1 & Hrun & Hr1 & Hinv1 & Hsize & Hfiles1).
    destruct Hr1 as [->|[name ->]].
    + destruct (IH (S i) s1 Hinv1) as (r & s' & Hloop & Hr & Hinv' & Hfiles' & Hlim).
      exists r, s'. split_and!; [|done|done|congruence|].
      * eapply bind_ok; [reflexivity|]. eapply bind_ok; [exact Hrun|exact Hloop].
      * intros k Hk Hfuel. apply (Hlim k Hk).
        rewrite Hk in Hlimit. cbn in Hlimit. apply Nat.leb_gt in Hlimit. lia.
    + exists (Raise (AttributeError name)), s1.
      split_and!; [|right; by eexists|done|done|done].
      eapply bind_ok; [reflexivity|]. eapply bind_raise. exact Hrun.
Qed.

(** X7: a fresh [DarkCrawler] crawl over distinct seeds, without a keyword
    file, requests no address twice and never requests a V2 address,
    whatever the network answers.  With a finite search limit [k] the loop
    is over within [k + 1] rounds.  The only exception that can end the
    crawl is the [AttributeError] of a page without title; it leaves before
    [_on_shutdown], so the savestate file is not written. *)
Theorem dark_crawl_never_refetches py self envs fuel s :
  Py.truthy (resume_path self) = false →
  Py.truthy (ahmia_keyword_path self) = false →
  NoDup (seeds self) →
  requests (outside s) = [] →
  let out := DarkCrawler.crawl self (DarkCrawler._load_prev_crawl py self)
               envs fuel s in
  NoDup (requests (outside out.2))
  ∧ (∀ a, a ∈ requests (outside out.2) → is_v2 a = false)
  ∧ (∀ k, search_limit self = Finite k → k < fuel → out.1 ≠ Ok false)
  ∧ (∀ e, out.1 = Raise e →
       (∃ name, e = AttributeError name)
       ∧ files (outside out.2) !! savestate_path self
         = files (outside s) !! savestate_path self).
Proof.
  intros Hresume Hkw Hseeds Hreq0. cbv zeta.
  pose proof (savestate_path_ne_data_path self) as Hsd.
  assert (data_path self ≠ savestate_path self) as Hds by done.
  set (s1 := on_world (print_line ("Running DarkCrawler " +:+ Py.nl))
               (on_world (file_append (data_path self) ("{" +:+ Py.nl))
                  (set_searched ∅ (set_queue (seeds self) s)))).
  assert (no_refetch_dark s1) as Hinv.
  { unfold no_refetch_dark. cbn. rewrite Hreq0. split_and!; [done|set_solver| |].
    - constructor.
    - intros a Ha. by apply elem_of_nil in Ha. }
  destruct (dark_crawl_loop_spec self envs fuel 0 s1 Hinv)
    as (r & s' & Hloop & Hr & Hinv' & Hfiles & Hlim).
  assert (files (outside s1) !! savestate_path self
          = files (outside s) !! savestate_path self) as Hfiles1.
  { subst s1. cbn. by rewrite lookup_insert_ne. }
  assert (DarkCrawler.crawl self (DarkCrawler._load_prev_crawl py self) envs fuel s
          = match r with
            | Ok true => (DarkCrawler._on_shutdown self ;; ret true) s'
            | Ok false => (Ok false, s')
            | Raise e => (Raise e, s')
            end) as Hcrawl.
  { unfold DarkCrawler.crawl, DarkCrawler._setup_structs. rewrite Hresume, Hkw.
    eapply bind_ok.
    { eapply bind_ok; [|reflexivity].
      eapply bind_ok; [reflexivity|]. eapply bind_ok; [reflexivity|].
      apply write_data_eq. }
    eapply bind_ok; [reflexivity|]. fold s1.
    destruct r as [[|]|e].
    - eapply bind_ok; [exact Hloop|reflexivity].
    - eapply bind_ok; [exact Hloop|reflexivity].
    - eapply bind_raise. exact Hloop. }
  rewrite Hcrawl. destruct Hinv' as (_ & _ & Hndr & Hreq).
  assert (∀ s2, (DarkCrawler._on_shutdown self ;; ret true) s' = s2 →
                s2.1 = Ok true ∧ requests (outside s2.2) = requests (outside s'))
    as Hshut.
  { intros s2 <-. done. }
  destruct r as [[|]|e].
  - destruct (Hshut _ eq_refl) as [Hok Hsame]. rewrite Hsame, Hok.
    split_and!; [done|intros a Ha; by apply Hreq|done|done].
  - cbn [fst snd]. split_and!; [done|intros a Ha; by apply Hreq| |done].
    intros k Hk Hfuel. apply (Hlim k Hk). cbn. lia.
  - cbn [fst snd]. split_and!; [done|intros a Ha; by apply Hreq|done|].
    intros e' [= <-]. destruct Hr as [[left [=]]|[name [= ->]]].
    split; [by eexists|congruence].
Qed.

Lemma dark_crawl_never_refetches_witness :
  let out := DarkCrawler.crawl sample_config
               (DarkCrawler._load_prev_crawl no_eval sample_config)
               (λ _, sample_env (Fails "ConnectionError")) 3 empty_state in
  NoDup (requests (outside out.2))
  ∧ (∀ a, a ∈ requests (outside out.2) → is_v2 a = false)
  ∧ (∀ k, search_limit sample_config = Finite k → k < 3 → out.1 ≠ Ok false)
  ∧ (∀ e, out.1 = Raise e →
       (∃ name, e = AttributeError name)
       ∧ files (outside out.2) !! savestate_path sample_config
         = files (outside empty_state) !! savestate_path sample_config).
Proof.
  apply (dark_crawl_never_refetches no_eval sample_config
           (λ _, sample_env (Fails "ConnectionError")) 3 empty_state);
    [reflexivity|reflexivity| |reflexivity].
  apply NoDup_singleton.
Defined.

(** ** The savestate of a crawl that fetched nothing *)

Lemma mt_on_shutdown_nothing_seen self s :
  seen s = ∅ → searched s = ∅ →
  ∃ s',
    MultiThreadedDarkCrawler._on_shutdown self s = (Ok (), s')
    ∧ file_text (savestate_path self) s' = "deque([])" +:+ Py.nl +:+ "set()".
Proof.
  intros Hseen Hsearched.
  destruct (mt_on_shutdown_eq self s) as (s' & Hrun & _ & _ & _ & _ & _ & Hsave).
  exists s'. split; [done|]. rewrite Hsave, Hseen, Hsearched.
  replace (∅ ∖ ∅ : gset string) with (∅ : gset string) by set_solver.
  by rewrite elements_empty.
Qed.

Lemma mt_run_nothing_fetched self events s :
  search_limit self = Finite 0
  ∨ Forall (λ ev, ev = MultiThreadedDarkCrawler.MainRound) events →
  seen s = ∅ → searched s = ∅ →
  (search_limit self = Finite 0 → work s = []) →
  ∃ s',
    MultiThreadedDarkCrawler.run self events s = (Ok (), s')
    ∧ file_text (savestate_path self) s' = "deque([])" +:+ Py.nl +:+ "set()".
Proof.
  revert s. induction events as [|ev events IH]; intros s Hcase Hseen Hsearched Hwork.
  - by apply mt_on_shutdown_nothing_seen.
  - destruct ev as [|e]; cbn [MultiThreadedDarkCrawler.run].
    + unfold bind at 1, get. rewrite Hsearched, size_empty.
      destruct (limit_reached 0 (search_limit self)) eqn:Hlimit.
      * destruct (mt_on_shutdown_nothing_seen self
                    (on_world (print_line "Search limit reached.") s))
          as (s' & Hrun & Hsave); [done..|].
        exists s'. split; [|done]. eapply bind_ok; [reflexivity|exact Hrun].
      * destruct (IH (set_queue [] (set_work (work s ++ queue s) s)))
          as (s' & Hrun & Hsave); [|done|done| |].
        -- destruct Hcase as [H0|HF]; [by left|right; by inversion HF].
        -- intros H0. rewrite H0 in Hlimit. done.
        -- exists s'. split; [|done]. eapply bind_ok; [reflexivity|exact Hrun].
    + destruct Hcase as [H0|HF]; [|by inversion HF].
      destruct (IH s) as (s' & Hrun & Hsave); [by left|done..|].
      exists s'. split; [|done].
      eapply bind_ok; [|exact Hrun].
      unfold MultiThreadedDarkCrawler.worker, bind, get. by rewrite (Hwork H0).
Qed.

(** X8: the concurrent crawler never marks its seeds as seen, and its
    savestate lists the addresses seen and not searched.  So when a fresh
    crawl without keyword file ends before a worker fetched anything
    (the limit is 0, or only the main thread ran before the interrupt)
    the savestate holds an empty queue, whatever the seeds were.
    [BaseCrawler] under the limit 0 writes the whole queue, which is the
    seeds. *)
Theorem mt_savestate_forgets_unfetched_seeds py self events s :
  Py.truthy (resume_path self) = false →
  Py.truthy (ahmia_keyword_path self) = false →
  search_limit self = Finite 0
  ∨ Forall (λ ev, ev = MultiThreadedDarkCrawler.MainRound) events →
  (let out := MultiThreadedDarkCrawler.crawl py self events s in
   out.1 = Ok ()
   ∧ file_text (savestate_path self) out.2 = "deque([])" +:+ Py.nl +:+ "set()")
  ∧ (search_limit self = Finite 0 →
     ∀ envs fuel,
       let out := BaseCrawler.crawl py self envs (S fuel) s in
       out.1 = Ok true
       ∧ file_text (savestate_path self) out.2
         = "deque(" +:+ Py.repr_list (seeds self) +:+ ")" +:+ Py.nl +:+ "set()").
Proof.
  intros Hresume Hkw Hcase. split.
  - cbv zeta. unfold MultiThreadedDarkCrawler.crawl.
    set (s1 := on_world (print_line ("Running MultiThreadedDarkCrawler " +:+ Py.nl))
                 (on_world (file_append (data_path self) ("{" +:+ Py.nl))
                    (set_searched ∅
                       (set_queue (seeds self) (set_work [] (set_seen ∅ s)))))).
    destruct (mt_run_nothing_fetched self events s1 Hcase) as (s' & Hrun & Hsave);
      [done..|].
    assert (MultiThreadedDarkCrawler.crawl py self events s = (Ok (), s')) as Heq.
    { unfold MultiThreadedDarkCrawler.crawl.
      eapply bind_ok; [rewrite mt_setup_fresh_eq by done; rewrite Hkw; reflexivity|].
      eapply bind_ok; [reflexivity|exact Hrun]. }
    unfold MultiThreadedDarkCrawler.crawl in Heq. by rewrite Heq.
  - intros H0 envs fuel. cbv zeta.
    set (s1 := on_world (print_line ("Running BaseCrawler " +:+ Py.nl))
                 (set_searched ∅ (set_queue (seeds self) s))).
    assert (∃ s2, BaseCrawler.crawl_loop self envs (S fuel) 0 s1 = (Ok true, s2)
                  ∧ queue s2 = seeds self ∧ searched s2 = ∅)
      as (s2 & Hloop & Hq & Hs).
    { assert (queue s1 = seeds self) as Hq1 by done.
      cbn [BaseCrawler.crawl_loop]. unfold bind at 1, get. rewrite Hq1.
      destruct (seeds self) as [|url rest] eqn:Hseeds.
      - by exists s1.
      - assert (limit_reached (size (searched s1)) (search_limit self) = true) as ->.
        { by rewrite H0. }
        eexists. split; [reflexivity|]. done. }
    assert (BaseCrawler.crawl py self envs (S fuel) s
            = (Ok true,
               on_world (file_write (savestate_path self)
                 ("deque(" +:+ Py.repr_list (queue s2) +:+ ")" +:+ Py.nl
                    +:+ Py.repr_set (searched s2)))
                 (on_world (print_line "Exiting crawler.") s2))) as ->.
    { unfold BaseCrawler.crawl, BaseCrawler._setup_structs. rewrite Hresume.
      eapply bind_ok; [reflexivity|]. eapply bind_ok; [reflexivity|].
      eapply bind_ok; [exact Hloop|]. cbv iota.
      eapply bind_ok; [apply base_on_shutdown_eq|reflexivity]. }
    cbn [fst snd]. split; [done|].
    unfold file_text. cbn. rewrite lookup_insert_eq. cbn. by rewrite Hq, Hs.
Qed.

Lemma mt_savestate_forgets_unfetched_seeds_witness :
  (let out := MultiThreadedDarkCrawler.crawl no_eval sample_config
                [MultiThreadedDarkCrawler.MainRound; MultiThreadedDarkCrawler.MainRound]
                empty_state in
   out.1 = Ok ()
   ∧ file_text (savestate_path sample_config) out.2
     = "deque([])" +:+ Py.nl +:+ "set()")
  ∧ (search_limit sample_config = Finite 0 →
     ∀ envs fuel,
       let out := BaseCrawler.crawl no_eval sample_config envs (S fuel) empty_state in
       out.1 = Ok true
       ∧ file_text (savestate_path sample_config) out.2
         = "deque(" +:+ Py.repr_list (seeds sample_config) +:+ ")" +:+ Py.nl
             +:+ "set()").
Proof.
  apply (mt_savestate_forgets_unfetched_seeds no_eval sample_config
           [MultiThreadedDarkCrawler.MainRound; MultiThreadedDarkCrawler.MainRound]
           empty_state); [reflexivity|reflexivity|].
  right. repeat constructor.
Defined.

(** ** fetch.py: [blockstream_fetch_all] *)

Lemma fetch_open_read_eq path w :
  Fetch.open_read path w
  = match files w !! path with
    | Some content => (Ok content, w)
    | None => (Raise (FileNotFoundError path), w)
    end.
Proof. unfold Fetch.open_read, bind, get. by destruct (files w !! path). Qed.

Lemma blockstream_task_eq answer addr output_path w :
  ∃ w',
    Fetch.blockstream_task answer addr output_path w = (Ok (), w')
    ∧ requests w'
      = requests w
          ++ (if Fetch.is_valid_btc_address addr
              then ["https://blockstream.info/api/address/" +:+ addr] else [])
    ∧ stdout w = take (length (stdout w)) (stdout w').
Proof.
  unfold Fetch.blockstream_task, try_except.
  destruct (Fetch.is_valid_btc_address addr) eqn:Hvalid.
  - rewrite (blockstream_fetch_valid _ _ _ _ Hvalid). cbv zeta.
    destruct answer as [c|res].
    + eexists. split; [done|]. split; [done|]. cbn. by rewrite take_app_length.
    + destruct (Fetch.status_code res =? 200); [destruct (Fetch.json res)|];
        (eexists; split; [done|]; split; [done|]; cbn;
         rewrite <- ?(assoc_L (++)); by rewrite take_app_length).
  - unfold Fetch.blockstream_fetch. rewrite Hvalid. cbn.
    eexists. split; [done|]. split; [by rewrite (right_id_L [] (++))|].
    by rewrite firstn_all.
Qed.

Lemma omap_lookup_seq {A} (l' l : list A) :
  omap (λ i, (l' ++ l) !! i) (seq (length l') (length l)) = l.
Proof.
  revert l'. induction l as [|x l IH]; intros l'; [done|].
  cbn [length seq omap list_omap]. rewrite list_lookup_middle by done.
  f_equal. specialize (IH (l' ++ [x])).
  rewrite <- (assoc_L (++)), length_app in IH. cbn in IH.
  by rewrite Nat.add_1_r in IH.
Qed.

Lemma blockstream_tasks_eq answers (btc_addrs : list string) output_path order w :
  ∃ w',
    for_each order (λ i,
      match btc_addrs !! i with
      | Some addr => Fetch.blockstream_task (answers i) addr output_path
      | None => ret ()
      end) w = (Ok (), w')
    ∧ requests w'
      = requests w
          ++ ((λ a, "https://blockstream.info/api/address/" +:+ a)
                <$> filter (λ a, Fetch.is_valid_btc_address a = true)
                      (omap (λ i, btc_addrs !! i) order)).
Proof.
  revert w. induction order as [|i order IH]; intros w.
  - exists w. split; [done|]. cbn. by rewrite (right_id_L [] (++)).
  - cbn [for_each omap list_omap].
    destruct (btc_addrs !! i) as [addr|] eqn:Hi.
    + destruct (blockstream_task_eq (answers i) addr output_path w)
        as (w1 & Hrun1 & Hreq1 & _).
      destruct (IH w1) as (w' & Hrun & Hreq).
      exists w'. split; [eapply bind_ok; [exact Hrun1|exact Hrun]|].
      rewrite Hreq, Hreq1, filter_cons.
      destruct (Fetch.is_valid_btc_address addr) eqn:Hvalid.
      * rewrite decide_True by done. cbn. by rewrite <- (assoc_L (++)).
      * rewrite decide_False by (by intros ?). by rewrite (right_id_L [] (++)).
    + destruct (IH w) as (w' & Hrun & Hreq).
      exists w'. split; [eapply bind_ok; [reflexivity|exact Hrun]|done].
Qed.

(** X9: [blockstream_fetch_all] on an address file that exists returns
    normally in whatever order the executor runs the calls: a line that is
    no valid address (a blank line, say) trips the assertion of its call
    only, unseen, and costs no request; every valid line, stripped, is
    requested exactly once; the last thing printed is the closing message.
    When the file is missing the function raises [FileNotFoundError] and
    nothing was requested or printed. *)
Theorem blockstream_fetch_all_skips_invalid_lines
    answers order addr_path output_path content w :
  files w !! addr_path = Some content →
  order ≡ₚ seq 0 (length (Py.readlines content)) →
  (∃ w' sent,
     Fetch.blockstream_fetch_all answers order addr_path output_path w = (Ok (), w')
     ∧ requests w' = requests w ++ sent
     ∧ sent ≡ₚ (λ a, "https://blockstream.info/api/address/" +:+ a)
                 <$> filter (λ a, Fetch.is_valid_btc_address a = true)
                       (Py.strip <$> Py.readlines content)
     ∧ last (stdout w') = Some "All calls done.")
  ∧ (∀ w0, files w0 !! addr_path = None →
       Fetch.blockstream_fetch_all answers order addr_path output_path w0
       = (Raise (FileNotFoundError addr_path), w0)).
Proof.
  intros Hfile Horder. split.
  - destruct (blockstream_tasks_eq answers (Py.strip <$> Py.readlines content)
                output_path order w) as (w1 & Hrun & Hreq).
    eexists (print_line "All calls done." w1), _. split_and!.
    + unfold Fetch.blockstream_fetch_all.
      eapply bind_ok; [by rewrite fetch_open_read_eq, Hfile|].
      eapply bind_ok; [exact Hrun|reflexivity].
    + exact Hreq.
    + apply fmap_Permutation, filter_Permutation.
      rewrite Horder, <- (length_fmap Py.strip).
      pose proof (omap_lookup_seq [] (Py.strip <$> Py.readlines content)) as Hall.
      cbn [app length] in Hall. by rewrite Hall.
    + cbn. apply last_snoc.
  - intros w0 Hnone. unfold Fetch.blockstream_fetch_all.
    eapply bind_raise. by rewrite fetch_open_read_eq, Hnone.
Qed.

Lemma blockstream_fetch_all_skips_invalid_lines_witness :
  (∃ w' sent,
     Fetch.blockstream_fetch_all (λ _, Fetch.Fails "ReadTimeout") [1; 0]
       "btc-addrs.txt" "blockstream.txt" proxied_world = (Ok (), w')
     ∧ requests w' = requests proxied_world ++ sent
     ∧ sent ≡ₚ (λ a, "https://blockstream.info/api/address/" +:+ a)
                 <$> filter (λ a, Fetch.is_valid_btc_address a = true)
                       (Py.strip <$> Py.readlines
                          ("1A1zP1eP5QGefi2DMPTfTL5SLmv7DivfNa" +:+ Py.nl +:+ Py.nl))
     ∧ last (stdout w') = Some "All calls done.")
  ∧ (∀ w0, files w0 !! "btc-addrs.txt" = None →
       Fetch.blockstream_fetch_all (λ _, Fetch.Fails "ReadTimeout") [1; 0]
         "btc-addrs.txt" "blockstream.txt" w0
       = (Raise (FileNotFoundError "btc-addrs.txt"), w0)).
Proof.
  apply (blockstream_fetch_all_skips_invalid_lines (λ _, Fetch.Fails "ReadTimeout")
           [1; 0] "btc-addrs.txt" "blockstream.txt"
           ("1A1zP1eP5QGefi2DMPTfTL5SLmv7DivfNa" +:+ Py.nl +:+ Py.nl) proxied_world).
  - reflexivity.
  - vm_compute. apply perm_swap.
Defined.

(** ** fetch.py: the proxies *)

Lemma proxy_is_active_eq answer proxy save w :
  Fetch.proxy_is_active answer proxy save w
  = let w1 := send_request "http://httpbin.org/ip" w in
    match answer with
    | Fetch.Fails c => (Ok false, print_line c w1)
    | Fetch.Replies res =>
        if 400 <=? Fetch.status_code res then (Ok false, w1)
        else
          (Ok true,
           (if save : bool
            then file_append Fetch.ACTIVE_PROXIES_PATH (proxy +:+ Py.nl)
            else id) (print_line ("proxy ok " +:+ proxy) w1))
    end.
Proof.
  cbv [Fetch.proxy_is_active try_except bind Fetch.requests_get Fetch.print
       modify raise ret].
  destruct answer as [c|res]; [reflexivity|].
  destruct (400 <=? Fetch.status_code res); [reflexivity|].
  by destruct save.
Qed.

Lemma split_go_nonempty sep cur l : 1 ≤ length (Py.split_go sep cur l).
Proof.
  revert cur. induction l as [|c l IH]; intros cur; cbn; [lia|].
  case_bool_decide; cbn; [lia|apply IH].
Qed.

Lemma filter_active_spec answers i proxies w :
  ∃ kept w',
    Fetch.filter_active answers i proxies w = (Ok kept, w')
    ∧ files w' = files w
    ∧ requests w'
      = requests w ++ replicate (length proxies) "http://httpbin.org/ip"
    ∧ kept `sublist_of` proxies
    ∧ (∀ p, p ∈ kept →
         ∃ j res, proxies !! j = Some p ∧ answers (i + j) = Fetch.Replies res
                  ∧ Fetch.status_code res < 400)
    ∧ (∀ j p res, proxies !! j = Some p → answers (i + j) = Fetch.Replies res →
         Fetch.status_code res < 400 → p ∈ kept).
Proof.
  revert i w. induction proxies as [|proxy rest IH]; intros i w.
  - exists [], w. split_and!; try done.
    + cbn. by rewrite (right_id_L [] (++)).
    + intros p Hp. by apply elem_of_nil in Hp.
  - cbn [Fetch.filter_active].
    destruct (IH (S i)
                (Fetch.proxy_is_active (answers i) proxy false w).2)
      as (kept & w' & Hrun & Hfiles & Hreq & Hsub & Hin & Hall).
    pose proof (proxy_is_active_eq (answers i) proxy false w) as Hprobe.
    cbv zeta in Hprobe.
    assert (∃ active w1,
              Fetch.proxy_is_active (answers i) proxy false w = (Ok active, w1)
              ∧ files w1 = files w
              ∧ requests w1 = requests w ++ ["http://httpbin.org/ip"]
              ∧ (active = true ↔ ∃ res, answers i = Fetch.Replies res
                                        ∧ Fetch.status_code res < 400))
      as (active & w1 & Hrun1 & Hfiles1 & Hreq1 & Hactive).
    { rewrite Hprobe. destruct (answers i) as [c|res].
      - eexists _, _. split; [done|]. split_and!; [done|done|].
        split; [done|]. by intros (res & [=] & _).
      - destruct (400 <=? Fetch.status_code res) eqn:Hst.
        + apply Nat.leb_le in Hst. eexists _, _. split; [done|].
          split_and!; [done|done|]. split; [done|].
          intros (res' & [= <-] & ?). lia.
        + apply Nat.leb_gt in Hst. eexists _, _. split; [done|].
          split_and!; [done|done|]. split; [|done]. intros _. by exists res. }
    rewrite Hrun1 in Hrun, Hfiles, Hreq. cbn [snd] in Hrun, Hfiles, Hreq.
    exists (if active then proxy :: kept else kept), w'. split_and!.
    + eapply bind_ok; [exact Hrun1|]. eapply bind_ok; [exact Hrun|reflexivity].
    + congruence.
    + rewrite Hreq, Hreq1. cbn. by rewrite <- (assoc_L (++)).
    + destruct active; [by apply sublist_skip|by apply sublist_cons].
    + intros p Hp.
      assert ((active = true ∧ p = proxy) ∨ p ∈ kept) as [[Hact ->]|Hk].
      { destruct active; [|by right].
        apply elem_of_cons in Hp as [->|?]; [by left|by right]. }
      * apply Hactive in Hact as (res & Hres & Hst). exists 0, res.
        by rewrite Nat.add_0_r.
      * destruct (Hin p Hk) as (j & res & Hj & Hres & Hst). exists (S j), res.
        split_and!; [done| |done]. by rewrite Nat.add_succ_r.
    + intros j p res Hj Hres Hst. destruct j as [|j].
      * cbn in Hj. injection Hj as <-. rewrite Nat.add_0_r in Hres.
        assert (active = true) as -> by (apply Hactive; by exists res).
        by left.
      * cbn in Hj. rewrite Nat.add_succ_r in Hres.
        assert (p ∈ kept) by (by apply (Hall j p res)).
        destruct active; [by right|done].
Qed.

(** X10: [get_active_proxies] probes every entry of the chosen proxy file,
    one request each and at least one (an empty file still yields the
    entry ['']), and returns, in the order of the file, exactly the entries
    whose probe was answered with a status below 400.  It changes no file:
    with [refresh=True] too the list of active proxies on disk stays as it
    was.  When the chosen file is missing it raises [FileNotFoundError]
    after its first message and before any request. *)
Theorem get_active_proxies_probes_every_entry answers refresh content w :
  let proxies_path :=
    if refresh : bool then Fetch.PROXIES_PATH else Fetch.ACTIVE_PROXIES_PATH in
  let entries := Py.split_on Py.LF (Py.strip (Fetch.read content)) in
  files w !! proxies_path = Some content →
  (∃ kept w',
     Fetch.get_active_proxies answers refresh w = (Ok kept, w')
     ∧ files w' = files w
     ∧ requests w' = requests w ++ replicate (length entries) "http://httpbin.org/ip"
     ∧ 1 ≤ length entries
     ∧ kept `sublist_of` entries
     ∧ (∀ p, p ∈ kept →
          ∃ j res, entries !! j = Some p ∧ answers j = Fetch.Replies res
                   ∧ Fetch.status_code res < 400)
     ∧ (∀ j p res, entries !! j = Some p → answers j = Fetch.Replies res →
          Fetch.status_code res < 400 → p ∈ kept))
  ∧ (∀ w0, files w0 !! proxies_path = None →
       Fetch.get_active_proxies answers refresh w0
       = (Raise (FileNotFoundError proxies_path),
          print_line "Checking for active proxies:" w0)).
Proof.
  intros proxies_path entries Hfile. split.
  - destruct (filter_active_spec answers 0 entries
                (print_line "Checking for active proxies:" w))
      as (kept & w' & Hrun & Hfiles & Hreq & Hsub & Hin & Hall).
    exists kept, w'. split_and!; try done.
    + unfold Fetch.get_active_proxies. eapply bind_ok; [reflexivity|].
      eapply bind_ok; [|exact Hrun].
      rewrite fetch_open_read_eq. fold proxies_path. cbn [files print_line].
      by rewrite Hfile.
    + apply split_go_nonempty.
  - intros w0 Hnone. unfold Fetch.get_active_proxies.
    eapply bind_ok; [reflexivity|]. eapply bind_raise.
    rewrite fetch_open_read_eq. fold proxies_path. cbn [files print_line].
    by rewrite Hnone.
Qed.

Lemma get_active_proxies_probes_every_entry_witness :
  let entries :=
    Py.split_on Py.LF
      (Py.strip (Fetch.read ("10.0.0.1:8080" +:+ Py.nl +:+ "10.0.0.2:8080" +:+ Py.nl))) in
  let answers := λ _ : nat, Fetch.Fails "ProxyError" in
  (∃ kept w',
     Fetch.get_active_proxies answers false proxied_world = (Ok kept, w')
     ∧ files w' = files proxied_world
     ∧ requests w'
       = requests proxied_world ++ replicate (length entries) "http://httpbin.org/ip"
     ∧ 1 ≤ length entries
     ∧ kept `sublist_of` entries
     ∧ (∀ p, p ∈ kept →
          ∃ j res, entries !! j = Some p ∧ answers j = Fetch.Replies res
                   ∧ Fetch.status_code res < 400)
     ∧ (∀ j p res, entries !! j = Some p → answers j = Fetch.Replies res →
          Fetch.status_code res < 400 → p ∈ kept))
  ∧ (∀ w0, files w0 !! Fetch.ACTIVE_PROXIES_PATH = None →
       Fetch.get_active_proxies answers false w0
       = (Raise (FileNotFoundError Fetch.ACTIVE_PROXIES_PATH),
          print_line "Checking for active proxies:" w0)).
Proof.
  apply (get_active_proxies_probes_every_entry (λ _, Fetch.Fails "ProxyError") false
           ("10.0.0.1:8080" +:+ Py.nl +:+ "10.0.0.2:8080" +:+ Py.nl) proxied_world).
  reflexivity.
Defined.

(** ** fetch.py: the loops of [blockcypher_fetch_all] and [blockchain_fetch_all] *)

Lemma proxied_fetch_ok str_of_json (answer : Fetch.reply) url w :
  ∃ r w',
    try_except
      (res ← Fetch.requests_get answer url;
       shown ← Fetch.res_json res;
       Fetch.print (Py.str_of_nat (Fetch.status_code res) +:+ " "
                      +:+ str_of_json shown) ;;
       body ← Fetch.res_json res;
       ret (Fetch.Body body, Fetch.status_code res))
      (λ e, Fetch.print (class_name e) ;; ret (Fetch.Caught e, 0)) w
    = (Ok r, w')
    ∧ files w' = files w
    ∧ requests w' = requests w ++ [url]
    ∧ (r.2 = 200 → ∃ text, r.1 = Fetch.Body text).
Proof.
  cbv [try_except bind Fetch.requests_get Fetch.res_json Fetch.print
       modify raise ret].
  destruct answer as [c|res].
  - eexists _, _. split; [reflexivity|]. split_and!; [done|done|]. by intros [=].
  - destruct (Fetch.json res) as [text|].
    + eexists _, _. split; [reflexivity|]. split_and!; [done|done|]. by eexists.
    + eexists _, _. split; [reflexivity|]. split_and!; [done|done|]. by intros [=].
Qed.

Lemma length_remove_first (x : string) (l : list string) :
  x ∈ l → S (length (Fetch.remove_first x l)) = length l.
Proof.
  induction l as [|y l IH]; [by intros ?%elem_of_nil|].
  intros Hin. cbn [Fetch.remove_first]. case_bool_decide as Hy; [done|].
  apply elem_of_cons in Hin as [->|Hin]; [done|]. cbn. by rewrite IH.
Qed.

Section Loops.
Variable fetch : (option string → Fetch.reply) → string → option string
                 → M world (Fetch.fetched * nat).
Variable net : nat → option string → Fetch.reply.
Variable choice : nat → nat.

Hypothesis fetch_asserts : ∀ answer addr proxy w,
  Fetch.is_valid_btc_address addr = false →
  fetch answer addr proxy w = (Raise AssertionError, w).

Hypothesis fetch_returns : ∀ answer addr proxy w,
  Fetch.is_valid_btc_address addr = true →
  ∃ r w',
    fetch answer addr proxy w = (Ok r, w')
    ∧ files w' = files w
    ∧ length (requests w') = S (length (requests w))
    ∧ (r.2 = 200 → ∃ text, r.1 = Fetch.Body text).

Lemma while_true_spec fuel addr output_path proxies n w :
  length proxies < fuel →
  ∃ r w',
    Fetch.while_true fetch net choice fuel addr output_path proxies n w = (r, w')
    ∧ r ≠ Ok Fetch.Spinning
    ∧ (r = Raise AssertionError ∨ ∃ o, r = Ok o)
    ∧ length (requests w')
        + match r with Ok (Fetch.Next proxies' _) => length proxies' | _ => 0 end
      ≤ length (requests w) + length proxies + 1
    ∧ (∀ proxies' n', r = Ok (Fetch.Next proxies' n') →
         length proxies' ≤ length proxies)
    ∧ (Fetch.is_valid_btc_address addr = false → proxies ≠ [] →
         r = Raise AssertionError
         ∧ requests w' = requests w ∧ files w' = files w).
Proof.
  revert proxies n w. induction fuel as [|fuel IH]; intros proxies n w Hfuel; [lia|].
  cbn [Fetch.while_true].
  destruct proxies as [|first rest] eqn:Hproxies.
  { eexists _, _. split; [reflexivity|].
    split_and!; [done|right; by eexists|cbn; lia|done|done]. }
  rewrite <- Hproxies in *.
  set (proxy := nth (choice n `mod` length proxies) proxies first).
  assert (proxy ∈ proxies) as Hin.
  { apply nth_elem_of, Nat.mod_upper_bound. rewrite Hproxies. done. }
  set (w1 := print_line ("using proxy " +:+ proxy) w).
  destruct (Fetch.is_valid_btc_address addr) eqn:Hvalid.
  2: { exists (Raise AssertionError), w1. split_and!.
       - eapply bind_ok; [reflexivity|]. eapply bind_raise.
         by apply fetch_asserts.
       - done.
       - by left.
       - cbn. lia.
       - done.
       - done. }
  destruct (fetch_returns (net n) addr (Some proxy) w1 Hvalid)
    as (r0 & w2 & Hfetch & Hfiles2 & Hreq2 & Hbody).
  destruct (r0.2 =? 200) eqn:H200.
  { apply Nat.eqb_eq in H200. destruct (Hbody H200) as [text Htext].
    eexists (Ok (Fetch.Next proxies (S n))), _. split_and!.
    - eapply bind_ok; [reflexivity|]. eapply bind_ok; [exact Hfetch|].
      cbv beta. rewrite H200, Htext. cbn [Nat.eqb]. reflexivity.
    - done.
    - right. by eexists.
    - cbn. rewrite Hreq2. cbn. lia.
    - by intros ? ? [= <- _].
    - done. }
  destruct (r0.2 =? 429) eqn:H429.
  { destruct (IH (Fetch.remove_first proxy proxies) (S n)
                (print_line (proxy +:+ " API limit reached") w2))
      as (r & w' & Hrun & Hspin & Hexn & Hbound & Hless & _).
    { pose proof (length_remove_first proxy proxies Hin). lia. }
    pose proof (length_remove_first proxy proxies Hin) as Hlen.
    exists r, w'. split_and!.
    - eapply bind_ok; [reflexivity|]. eapply bind_ok; [exact Hfetch|].
      cbv beta. rewrite H200, H429.
      eapply bind_ok; [reflexivity|exact Hrun].
    - done.
    - done.
    - cbn in Hbound. rewrite Hreq2 in Hbound. cbn in Hbound. lia.
    - intros proxies' n' Hr. specialize (Hless proxies' n' Hr). lia.
    - done. }
  eexists (Ok (Fetch.Next proxies (S n))), _. split_and!.
  - eapply bind_ok; [reflexivity|]. eapply bind_ok; [exact Hfetch|].
    cbv beta. rewrite H200, H429. reflexivity.
  - done.
  - right. by eexists.
  - rewrite Hreq2. cbn. lia.
  - by intros ? ? [= <- _].
  - done.
Qed.

Lemma for_lines_spec fuel lines i output_path proxies n w :
  length proxies < fuel →
  ∃ r w',
    Fetch.for_lines fetch net choice fuel lines i output_path proxies n w = (r, w')
    ∧ r ≠ Ok Fetch.Spinning
    ∧ (r = Raise AssertionError ∨ ∃ o, r = Ok o)
    ∧ length (requests w') ≤ length (requests w) + length proxies + length lines.
Proof.
  intros Hfuel.
  enough (∃ r w',
    Fetch.for_lines fetch net choice fuel lines i output_path proxies n w = (r, w')
    ∧ r ≠ Ok Fetch.Spinning
    ∧ (r = Raise AssertionError ∨ ∃ o, r = Ok o)
    ∧ length (requests w')
        + match r with Ok (Fetch.Next proxies' _) => length proxies' | _ => 0 end
      ≤ length (requests w) + length proxies + length lines)
    as (r & w' & ? & ? & ? & ?).
  { exists r, w'. split_and!; [done..|lia]. }
  revert i proxies n w Hfuel.
  induction lines as [|btc_addr rest IH]; intros i proxies n w Hfuel.
  { eexists _, _. split; [reflexivity|].
    split_and!; [done|right; by eexists|cbn; lia]. }
  cbn [Fetch.for_lines].
  set (w1 := print_line
               (Py.nl +:+ Py.str_of_nat i +:+ ": " +:+ Py.strip btc_addr) w).
  destruct (while_true_spec fuel (Py.strip btc_addr) output_path proxies n w1 Hfuel)
    as (r1 & w2 & Hwhile & Hspin1 & Hexn1 & Hbound1 & Hless1 & _).
  destruct r1 as [[proxies' n'|n'|]|e].
  - destruct (IH (S i) proxies' n' w2) as (r & w' & Hrun & Hspin & Hexn & Hbound).
    { specialize (Hless1 proxies' n' eq_refl). lia. }
    exists r, w'. split_and!; [|done|done|].
    + eapply bind_ok; [reflexivity|]. eapply bind_ok; [exact Hwhile|exact Hrun].
    + cbn in Hbound1 |- *. lia.
  - eexists (Ok (Fetch.Returned n')), w2. split_and!.
    + eapply bind_ok; [reflexivity|]. eapply bind_ok; [exact Hwhile|reflexivity].
    + done.
    + right. by eexists.
    + cbn in Hbound1 |- *. lia.
  - done.
  - exists (Raise e), w2. split_and!.
    + eapply bind_ok; [reflexivity|]. eapply bind_raise. exact Hwhile.
    + done.
    + destruct Hexn1 as [?|[o [=]]]. by left.
    + cbn in Hbound1 |- *. lia.
Qed.

Lemma for_lines_invalid fuel btc_addr rest i output_path proxies n w :
  Fetch.is_valid_btc_address (Py.strip btc_addr) = false →
  proxies ≠ [] →
  length proxies < fuel →
  ∃ w',
    Fetch.for_lines fetch net choice fuel (btc_addr :: rest) i output_path proxies n w
    = (Raise AssertionError, w')
    ∧ requests w' = requests w ∧ files w' = files w.
Proof.
  intros Hinvalid Hproxies Hfuel. cbn [Fetch.for_lines].
  set (w1 := print_line
               (Py.nl +:+ Py.str_of_nat i +:+ ": " +:+ Py.strip btc_addr) w).
  destruct (while_true_spec fuel (Py.strip btc_addr) output_path proxies n w1 Hfuel)
    as (r1 & w2 & Hwhile & _ & _ & _ & _ & Hraise).
  destruct (Hraise Hinvalid Hproxies) as (-> & Hreq & Hfiles).
  exists w2. split; [|done].
  eapply bind_ok; [reflexivity|]. eapply bind_raise. exact Hwhile.
Qed.

Lemma fetch_all_spec probes fuel addr_path output_path proxies_text w :
  files w !! Fetch.ACTIVE_PROXIES_PATH = Some proxies_text →
  length (Py.split_on Py.LF (Py.strip (Fetch.read proxies_text))) < fuel →
  ∃ r w',
    Fetch.fetch_all fetch net choice probes fuel addr_path output_path w = (r, w')
    ∧ r ≠ Ok Fetch.Spinning
    ∧ (r = Raise AssertionError ∨ r = Raise (FileNotFoundError addr_path)
       ∨ ∃ o, r = Ok o)
    ∧ length (requests w')
      ≤ length (requests w)
        + 2 * length (Py.split_on Py.LF (Py.strip (Fetch.read proxies_text)))
        + length (Py.readlines (default "" (files w !! addr_path))).
Proof.
  intros Hfile Hfuel.
  set (entries := Py.split_on Py.LF (Py.strip (Fetch.read proxies_text))) in *.
  destruct (filter_active_spec probes 0 entries
              (print_line "Checking for active proxies:" w))
    as (kept & w1 & Hprobe & Hfiles1 & Hreq1 & Hsub & _).
  assert (Fetch.get_active_proxies probes false w = (Ok kept, w1)) as Hget.
  { unfold Fetch.get_active_proxies. eapply bind_ok; [reflexivity|].
    eapply bind_ok; [|exact Hprobe].
    rewrite fetch_open_read_eq. cbn [files print_line]. by rewrite Hfile. }
  assert (length (requests w1) = length (requests w) + length entries) as Hlen1.
  { rewrite Hreq1, length_app, length_replicate. done. }
  pose proof (sublist_length _ _ Hsub) as Hkept.
  cbn [files print_line] in Hfiles1.
  unfold Fetch.fetch_all.
  destruct (files w !! addr_path) as [content|] eqn:Haddr.
  - destruct (for_lines_spec fuel (Py.readlines content) 0 output_path kept 0 w1)
      as (r & w' & Hrun & Hspin & Hexn & Hbound); [lia|].
    exists r, w'. split_and!.
    + eapply bind_ok; [exact Hget|].
      eapply bind_ok; [|exact Hrun].
      by rewrite fetch_open_read_eq, Hfiles1, Haddr.
    + done.
    + destruct Hexn as [?|?]; auto.
    + cbn [default from_option id]. lia.
  - exists (Raise (FileNotFoundError addr_path)), w1. split_and!.
    + eapply bind_ok; [exact Hget|]. eapply bind_raise.
      by rewrite fetch_open_read_eq, Hfiles1, Haddr.
    + done.
    + auto.
    + lia.
Qed.

End Loops.

Lemma blockcypher_fetch_invalid str_of_json answer addr proxy w :
  Fetch.is_valid_btc_address addr = false →
  Fetch.blockcypher_fetch str_of_json answer addr proxy w = (Raise AssertionError, w).
Proof. intros H. unfold Fetch.blockcypher_fetch. by rewrite H. Qed.

Lemma blockchain_fetch_invalid str_of_json answer addr proxy w :
  Fetch.is_valid_btc_address addr = false →
  Fetch.blockchain_fetch str_of_json answer addr proxy w = (Raise AssertionError, w).
Proof. intros H. unfold Fetch.blockchain_fetch. by rewrite H. Qed.

Lemma blockcypher_fetch_valid str_of_json answer addr proxy w :
  Fetch.is_valid_btc_address addr = true →
  ∃ r w',
    Fetch.blockcypher_fetch str_of_json answer addr proxy w = (Ok r, w')
    ∧ files w' = files w
    ∧ length (requests w') = S (length (requests w))
    ∧ (r.2 = 200 → ∃ text, r.1 = Fetch.Body text).
Proof.
  intros H. unfold Fetch.blockcypher_fetch. rewrite H. cbn [negb]. cbv zeta.
  match goal with
  | |- context [Fetch.requests_get ?a ?u] =>
      destruct (proxied_fetch_ok str_of_json a u w) as (r & w' & -> & ? & Hreq & ?)
  end.
  exists r, w'. split_and!; [done|done| |done].
  rewrite Hreq, length_app. cbn. lia.
Qed.

Lemma blockchain_fetch_valid str_of_json answer addr proxy w :
  Fetch.is_valid_btc_address addr = true →
  ∃ r w',
    Fetch.blockchain_fetch str_of_json answer addr proxy w = (Ok r, w')
    ∧ files w' = files w
    ∧ length (requests w') = S (length (requests w))
    ∧ (r.2 = 200 → ∃ text, r.1 = Fetch.Body text).
Proof.
  intros H. unfold Fetch.blockchain_fetch. rewrite H. cbn [negb]. cbv zeta.
  match goal with
  | |- context [Fetch.requests_get ?a ?u] =>
      destruct (proxied_fetch_ok str_of_json a u w) as (r & w' & -> & ? & Hreq & ?)
  end.
  exists r, w'. split_and!; [done|done| |done].
  rewrite Hreq, length_app. cbn. lia.
Qed.

(** X11: [blockcypher_fetch_all] and [blockchain_fetch_all] come to an
    end whatever the network answers and whatever [random.choice] picks:
    every pass of [while True:] either leaves the loop or removes a proxy
    from the list, so with the active-proxies file in place the function
    is over after at most as many passes per address as there are entries
    in that file, plus one.  It ends by returning, by the [AssertionError]
    of an address line, or by the [FileNotFoundError] of the address file;
    [json.dump] never meets an exception object.  Beyond the probes (one
    per entry) it sends at most one request per address line and one per
    entry. *)
Theorem fetch_all_loops_end
    str_of_json net choice probes fuel addr_path output_path proxies_text w out :
  files w !! Fetch.ACTIVE_PROXIES_PATH = Some proxies_text →
  length (Py.split_on Py.LF (Py.strip (Fetch.read proxies_text))) < fuel →
  out = Fetch.blockcypher_fetch_all str_of_json net choice probes fuel
          addr_path output_path w
  ∨ out = Fetch.blockchain_fetch_all str_of_json net choice probes fuel
            addr_path output_path w →
  out.1 ≠ Ok Fetch.Spinning
  ∧ (out.1 = Raise AssertionError ∨ out.1 = Raise (FileNotFoundError addr_path)
     ∨ ∃ o, out.1 = Ok o)
  ∧ length (requests out.2)
    ≤ length (requests w)
      + 2 * length (Py.split_on Py.LF (Py.strip (Fetch.read proxies_text)))
      + length (Py.readlines (default "" (files w !! addr_path))).
Proof.
  intros Hfile Hfuel [->| ->].
  - destruct (fetch_all_spec (Fetch.blockcypher_fetch str_of_json) net choice
                (blockcypher_fetch_invalid str_of_json)
                (blockcypher_fetch_valid str_of_json)
                probes fuel addr_path output_path proxies_text w Hfile Hfuel)
      as (r & w' & Hrun & ? & ? & ?).
    unfold Fetch.blockcypher_fetch_all. by rewrite Hrun.
  - destruct (fetch_all_spec (Fetch.blockchain_fetch str_of_json) net choice
                (blockchain_fetch_invalid str_of_json)
                (blockchain_fetch_valid str_of_json)
                probes fuel addr_path output_path proxies_text w Hfile Hfuel)
      as (r & w' & Hrun & ? & ? & ?).
    unfold Fetch.blockchain_fetch_all. by rewrite Hrun.
Qed.

Lemma fetch_all_loops_end_witness :
  let out := Fetch.blockcypher_fetch_all (λ text, text)
               (λ _ _, Fetch.Replies {| Fetch.status_code := 429; Fetch.json := Some "{}" |})
               (λ n, n)
               (λ _, Fetch.Replies {| Fetch.status_code := 200; Fetch.json := None |})
               3 "btc-addrs.txt" "blockcypher.txt" proxied_world in
  out.1 ≠ Ok Fetch.Spinning
  ∧ (out.1 = Raise AssertionError ∨ out.1 = Raise (FileNotFoundError "btc-addrs.txt")
     ∨ ∃ o, out.1 = Ok o)
  ∧ length (requests out.2)
    ≤ length (requests proxied_world)
      + 2 * length (Py.split_on Py.LF
                      (Py.strip (Fetch.read ("10.0.0.1:8080" +:+ Py.nl
                                               +:+ "10.0.0.2:8080" +:+ Py.nl))))
      + length (Py.readlines (default "" (files proxied_world !! "btc-addrs.txt"))).
Proof.
  apply (fetch_all_loops_end (λ text, text)
           (λ _ _, Fetch.Replies {| Fetch.status_code := 429; Fetch.json := Some "{}" |})
           (λ n, n)
           (λ _, Fetch.Replies {| Fetch.status_code := 200; Fetch.json := None |})
           3 "btc-addrs.txt" "blockcypher.txt"
           ("10.0.0.1:8080" +:+ Py.nl +:+ "10.0.0.2:8080" +:+ Py.nl) proxied_world).
  - reflexivity.
  - vm_compute. lia.
  - by left.
Defined.

(** X12: an address line that is no valid address (a blank line at the
    end of the file, say) stops [blockcypher_fetch_all] and
    [blockchain_fetch_all] as soon as the loop gets to it with a proxy
    left: the assertion of the fetch function is not caught, so the
    function raises [AssertionError] without a request for the line, no
    file is touched, and the lines after it are never looked at.
    ([blockstream_fetch_all] skips such a line.) *)
Theorem fetch_all_stops_at_invalid_line
    str_of_json net choice fuel btc_addr rest i output_path proxies n w :
  Fetch.is_valid_btc_address (Py.strip btc_addr) = false →
  proxies ≠ [] →
  length proxies < fuel →
  (∃ w',
     Fetch.for_lines (Fetch.blockcypher_fetch str_of_json) net choice fuel
       (btc_addr :: rest) i output_path proxies n w = (Raise AssertionError, w')
     ∧ requests w' = requests w ∧ files w' = files w)
  ∧ (∃ w',
       Fetch.for_lines (Fetch.blockchain_fetch str_of_json) net choice fuel
         (btc_addr :: rest) i output_path proxies n w = (Raise AssertionError, w')
       ∧ requests w' = requests w ∧ files w' = files w).
Proof.
  intros Hinvalid Hproxies Hfuel. split.
  - by apply (for_lines_invalid (Fetch.blockcypher_fetch str_of_json) net choice
                (blockcypher_fetch_invalid str_of_json)
                (blockcypher_fetch_valid str_of_json)).
  - by apply (for_lines_invalid (Fetch.blockchain_fetch str_of_json) net choice
                (blockchain_fetch_invalid str_of_json)
                (blockchain_fetch_valid str_of_json)).
Qed.

Lemma fetch_all_stops_at_invalid_line_witness :
  let net := λ (_ : nat) (_ : option string),
               Fetch.Replies {| Fetch.status_code := 200; Fetch.json := Some "{}" |} in
  (∃ w',
     Fetch.for_lines (Fetch.blockcypher_fetch (λ text, text)) net (λ n, n) 2
       [Py.nl; "1A1zP1eP5QGefi2DMPTfTL5SLmv7DivfNa"] 0 "blockcypher.txt"
       ["10.0.0.1:8080"] 0 proxied_world = (Raise AssertionError, w')
     ∧ requests w' = requests proxied_world ∧ files w' = files proxied_world)
  ∧ (∃ w',
       Fetch.for_lines (Fetch.blockchain_fetch (λ text, text)) net (λ n, n) 2
         [Py.nl; "1A1zP1eP5QGefi2DMPTfTL5SLmv7DivfNa"] 0 "blockcypher.txt"
         ["10.0.0.1:8080"] 0 proxied_world = (Raise AssertionError, w')
       ∧ requests w' = requests proxied_world ∧ files w' = files proxied_world).
Proof.
  apply (fetch_all_stops_at_invalid_line (λ text, text)
           (λ _ _, Fetch.Replies {| Fetch.status_code := 200; Fetch.json := Some "{}" |})
           (λ n, n) 2 Py.nl ["1A1zP1eP5QGefi2DMPTfTL5SLmv7DivfNa"] 0 "blockcypher.txt"
           ["10.0.0.1:8080"] 0 proxied_world).
  - reflexivity.
  - done.
  - cbn. lia.
Defined.

(** ** The search limit of the concurrent crawler *)

Lemma mt_worker_searches self e s url rest :
  work s = url :: rest →
  ∃ s',
    MultiThreadedDarkCrawler.worker self e s = (Ok (), s')
    ∧ work s' = rest
    ∧ searched s' = {[url]} ∪ searched s.
Proof.
  intros Hwork. unfold MultiThreadedDarkCrawler.worker, bind at 1, get.
  rewrite Hwork. unfold bind at 1, modify at 1.
  destruct (mt_scrape_url_summary self e url (set_work rest s))
    as (r & s' & Hrun & Hw & Hs & _).
  cbn in Hw, Hs. exists s'. split_and!; [|exact Hw|exact Hs].
  unfold try_except. rewrite Hrun. by destruct r as [[]|].
Qed.

Lemma mt_workers_search_all self (envs : list env) s (urls rest : list string) :
  work s = urls ++ rest →
  length envs = length urls →
  ∀ events,
    ∃ s1,
      MultiThreadedDarkCrawler.run self
        ((MultiThreadedDarkCrawler.WorkerRuns <$> envs) ++ events) s
      = MultiThreadedDarkCrawler.run self events s1
      ∧ work s1 = rest
      ∧ searched s1 = list_to_set urls ∪ searched s.
Proof.
  revert s urls. induction envs as [|e envs IH]; intros s urls Hwork Hlen events.
  - destruct urls; [|done]. exists s. split_and!; [done|done|set_solver].
  - destruct urls as [|url urls]; [done|].
    destruct (mt_worker_searches self e s url (urls ++ rest) Hwork)
      as (s1 & Hrun1 & Hwork1 & Hs1).
    destruct (IH s1 urls Hwork1 ltac:(by injection Hlen) events)
      as (s2 & Hrun2 & Hwork2 & Hs2).
    exists s2. split_and!; [|done|].
    + cbn [fmap list_fmap app MultiThreadedDarkCrawler.run].
      rewrite <- Hrun2. eapply bind_ok; [exact Hrun1|reflexivity].
    + rewrite Hs2, Hs1. cbn. set_solver.
Qed.

(** X13: the concurrent crawler looks at the search limit only between
    two rounds of its main loop, and a round hands the whole queue to the
    executor.  So on a fresh run with a limit of at least one, once the
    workers have run all the calls of the first round, every seed is
    searched, however many seeds there are and whatever the limit is: the
    number of addresses searched is the number of the seeds, not the
    limit. *)
Theorem mt_round_ignores_limit py self (envs : list env) k s :
  Py.truthy (resume_path self) = false →
  Py.truthy (ahmia_keyword_path self) = false →
  search_limit self = Finite (S k) →
  length envs = length (seeds self) →
  let out := MultiThreadedDarkCrawler.crawl py self
               (MultiThreadedDarkCrawler.MainRound
                  :: (MultiThreadedDarkCrawler.WorkerRuns <$> envs)) s in
  out.1 = Ok ()
  ∧ searched out.2 = list_to_set (seeds self)
  ∧ (NoDup (seeds self) → size (searched out.2) = length (seeds self)).
Proof.
  intros Hresume Hkw Hlimit Hlen. cbv zeta.
  set (s1 := on_world (print_line ("Running MultiThreadedDarkCrawler " +:+ Py.nl))
               (on_world (file_append (data_path self) ("{" +:+ Py.nl))
                  (set_searched ∅
                     (set_queue (seeds self) (set_work [] (set_seen ∅ s)))))).
  set (s2 := set_queue [] (set_work (work s1 ++ queue s1) s1)).
  destruct (mt_workers_search_all self envs s2 (seeds self) []) with (events := @nil MultiThreadedDarkCrawler.event)
    as (s3 & Hrun & Hwork & Hsearched).
  { subst s2 s1. cbn. by rewrite (right_id_L [] (++)). }
  { done. }
  rewrite (right_id_L [] (++)) in Hrun.
  destruct (mt_on_shutdown_eq self s3) as (s4 & Hshut & _ & Hs4 & _).
  cbn [MultiThreadedDarkCrawler.run] in Hrun.
  assert (MultiThreadedDarkCrawler.crawl py self
            (MultiThreadedDarkCrawler.MainRound
               :: (MultiThreadedDarkCrawler.WorkerRuns <$> envs)) s
          = (Ok (), s4)) as ->.
  { unfold MultiThreadedDarkCrawler.crawl.
    eapply bind_ok; [rewrite mt_setup_fresh_eq by done; rewrite Hkw; reflexivity|].
    eapply bind_ok; [reflexivity|]. fold s1.
    cbn [MultiThreadedDarkCrawler.run]. unfold bind at 1, get.
    assert (limit_reached (size (searched s1)) (search_limit self) = false) as ->.
    { rewrite Hlimit. done. }
    eapply bind_ok; [reflexivity|]. rewrite <- Hshut, <- Hrun. reflexivity. }
  cbn [fst snd]. rewrite Hs4, Hsearched.
  assert (searched s2 = ∅) as -> by done.
  rewrite (right_id_L ∅ (∪)). split_and!; [done|done|].
  intros Hnd. by apply size_list_to_set.
Qed.

Lemma mt_round_ignores_limit_witness :
  let envs := [sample_env (Fails "ConnectionError");
               sample_env (Fails "ConnectionError")] in
  let out := MultiThreadedDarkCrawler.crawl no_eval limited_config
               (MultiThreadedDarkCrawler.MainRound
                  :: (MultiThreadedDarkCrawler.WorkerRuns <$> envs)) empty_state in
  out.1 = Ok ()
  ∧ searched out.2 = list_to_set (seeds limited_config)
  ∧ (NoDup (seeds limited_config) →
     size (searched out.2) = length (seeds limited_config)).
Proof.
  apply (mt_round_ignores_limit no_eval limited_config
           [sample_env (Fails "ConnectionError"); sample_env (Fails "ConnectionError")]
           0 empty_state); reflexivity.
Defined.

(** ** The savestate of [BaseCrawler], written and read back *)

Lemma one_line_app (a b : string) : one_line (a +:+ b) ↔ one_line a ∧ one_line b.
Proof. unfold one_line. rewrite to_list_app. apply Forall_app. Qed.

Lemma hexdigit_one_line n : Py.hexdigit n ≠ Py.LF ∧ Py.hexdigit n ≠ Py.CR.
Proof.
  unfold Py.hexdigit.
  assert (Forall (λ c, c ≠ Py.LF ∧ c ≠ Py.CR) (Py.to_list "0123456789abcdef")) as HF.
  { repeat (constructor; [done|]). constructor. }
  destruct (decide (n < length (Py.to_list "0123456789abcdef"))) as [Hn|Hn].
  - eapply (proj1 (Forall_forall _ _) HF). by apply nth_elem_of.
  - rewrite nth_overflow by lia. done.
Qed.

Lemma repr_char_one_line (quote c : ascii) :
  quote ≠ Py.LF → quote ≠ Py.CR →
  Forall (λ c, c ≠ Py.LF ∧ c ≠ Py.CR) (Py.repr_char quote c).
Proof.
  intros Hq1 Hq2. unfold Py.repr_char.
  destruct (bool_decide (c = quote) || bool_decide (c = Py.BACKSLASH)) eqn:Hfirst.
  { apply orb_true_iff in Hfirst as [->%bool_decide_eq_true| ->%bool_decide_eq_true];
      repeat (constructor; [done|]); constructor. }
  clear Hfirst.
  destruct (bool_decide (c = Py.TAB)); [repeat (constructor; [done|]); constructor|].
  destruct (bool_decide (c = Py.LF)) eqn:Hlf;
    [repeat (constructor; [done|]); constructor|].
  destruct (bool_decide (c = Py.CR)) eqn:Hcr;
    [repeat (constructor; [done|]); constructor|].
  apply bool_decide_eq_false in Hlf, Hcr.
  destruct (Py.printable c) eqn:Hp.
  - constructor; [done|constructor].
  - pose proof (hexdigit_one_line (nat_of_ascii c / 16)).
    pose proof (hexdigit_one_line (nat_of_ascii c `mod` 16)).
    repeat (constructor; [done|]). constructor.
Qed.

Lemma repr_one_line (s : string) : one_line (Py.repr s).
Proof.
  unfold one_line, Py.repr. rewrite to_of_list.
  assert (Py.repr_quote (Py.to_list s) ≠ Py.LF
          ∧ Py.repr_quote (Py.to_list s) ≠ Py.CR) as [Hq1 Hq2].
  { unfold Py.repr_quote. by destruct (_ && _). }
  constructor; [done|]. apply Forall_app. split; [|by constructor].
  apply Forall_flat_map, Forall_forall. intros c _. by apply repr_char_one_line.
Qed.

Lemma join_one_line (sep : string) (parts : list string) :
  one_line sep → Forall one_line parts → one_line (Py.join sep parts).
Proof.
  intros Hsep. induction 1 as [|p rest Hp Hrest IH]; [constructor|].
  cbn [Py.join]. destruct rest as [|p' rest']; [done|].
  apply one_line_app. split; [done|]. apply one_line_app. by split.
Qed.

Lemma repr_list_one_line (l : list string) : one_line (Py.repr_list l).
Proof.
  unfold Py.repr_list. apply one_line_app. split; [by repeat constructor|].
  apply one_line_app. split; [|by repeat constructor].
  apply join_one_line; [by repeat constructor|].
  apply Forall_fmap, Forall_forall. intros s _. apply repr_one_line.
Qed.

Lemma repr_set_one_line (X : gset string) : one_line (Py.repr_set X).
Proof.
  unfold Py.repr_set. case_bool_decide; [by repeat constructor|].
  apply one_line_app. split; [by repeat constructor|].
  apply one_line_app. split; [|by repeat constructor].
  apply join_one_line; [by repeat constructor|].
  apply Forall_fmap, Forall_forall. intros s _. apply repr_one_line.
Qed.

Lemma repr_set_nonempty (X : gset string) : Py.repr_set X ≠ "".
Proof.
  unfold Py.repr_set. case_bool_decide; [done|].
  intros Hlen. apply (f_equal Py.len) in Hlen. rewrite len_app in Hlen.
  cbn in Hlen. lia.
Qed.

Lemma readlines_go_one_line (cur l : list ascii) :
  Forall (λ c, c ≠ Py.LF ∧ c ≠ Py.CR) l →
  Py.readlines_go cur l = Py.flush (reverse l ++ cur).
Proof.
  intros HF. revert cur. induction HF as [|c l [Hc1 Hc2] _ IH]; intros cur; [done|].
  cbn [Py.readlines_go]. rewrite !bool_decide_eq_false_2 by done.
  rewrite IH, reverse_cons, <- (assoc_L (++)). done.
Qed.

Lemma readlines_go_first_line (cur l1 l2 : list ascii) :
  Forall (λ c, c ≠ Py.LF ∧ c ≠ Py.CR) l1 →
  Py.readlines_go cur (l1 ++ Py.LF :: l2)
  = Py.of_list (reverse cur ++ l1 ++ [Py.LF]) :: Py.readlines_go [] l2.
Proof.
  intros HF. revert cur. induction HF as [|c l [Hc1 Hc2] _ IH]; intros cur.
  - cbn [app Py.readlines_go]. rewrite bool_decide_eq_true_2 by done.
    by rewrite reverse_cons.
  - cbn [app Py.readlines_go]. rewrite !bool_decide_eq_false_2 by done.
    rewrite IH, reverse_cons, <- (assoc_L (++)). done.
Qed.

Lemma readlines_two_lines (a b : string) :
  one_line a → one_line b → b ≠ "" →
  Py.readlines (a +:+ Py.nl +:+ b) = [a +:+ Py.nl; b].
Proof.
  intros Ha Hb Hne. unfold Py.readlines.
  rewrite !to_list_app. change (Py.to_list Py.nl) with [Py.LF]. cbn [app].
  rewrite (readlines_go_first_line [] _ _ Ha), (readlines_go_one_line [] _ Hb).
  rewrite (right_id_L [] (++)). rewrite reverse_nil. cbn [app].
  assert (Py.of_list (Py.to_list a ++ [Py.LF]) = a +:+ Py.nl) as ->.
  { apply to_list_inj. by rewrite to_of_list, to_list_app. }
  f_equal. unfold Py.flush.
  destruct (reverse (Py.to_list b)) as [|c l] eqn:Hrev.
  - apply (f_equal reverse) in Hrev. rewrite reverse_involutive in Hrev.
    destruct Hne. apply to_list_inj. by rewrite Hrev.
  - rewrite <- Hrev, reverse_involutive, of_to_list. done.
Qed.

Lemma savestate_path_truthy self : Py.truthy (Some (savestate_path self)) = true.
Proof.
  unfold Py.truthy. apply negb_true_iff, bool_decide_eq_false.
  unfold savestate_path, Py.path_join. intros H.
  case_bool_decide; [done|].
  apply (f_equal Py.len) in H.
  destruct (Py.endswith _ _); rewrite ?len_app in H; cbn in H; lia.
Qed.

(** X14: the savestate [BaseCrawler._on_shutdown] writes holds exactly one
    line break, the one between its two parts, whatever characters the
    addresses are made of.  So a later [BaseCrawler] run that resumes from
    that file hands the first [eval] the text of the queue and the second
    the text of the searched set, and when [eval] reads the two texts as
    Python does, the run starts with the queue and the searched set the
    earlier one ended with. *)
Theorem base_savestate_round_trip py self self' s s2 :
  resume_path self' = Some (savestate_path self) →
  eval_deque py ("deque(" +:+ Py.repr_list (queue s) +:+ ")" +:+ Py.nl)
  = Some (queue s) →
  eval_set py (Py.repr_set (searched s)) = Some (searched s) →
  files (outside s2) = files (outside (BaseCrawler._on_shutdown self s).2) →
  Py.readlines (file_text (savestate_path self) s2)
  = ["deque(" +:+ Py.repr_list (queue s) +:+ ")" +:+ Py.nl;
     Py.repr_set (searched s)]
  ∧ ∃ s3,
      BaseCrawler._setup_structs py self' s2 = (Ok (), s3)
      ∧ queue s3 = queue s ∧ searched s3 = searched s.
Proof.
  intros Hresume Hdeque Hset Hfiles.
  rewrite base_on_shutdown_eq in Hfiles. cbn [snd] in Hfiles.
  set (text := "deque(" +:+ Py.repr_list (queue s) +:+ ")" +:+ Py.nl
                 +:+ Py.repr_set (searched s)) in Hfiles.
  assert (files (outside s2) !! savestate_path self = Some text) as Hfile.
  { rewrite Hfiles. cbn. by rewrite lookup_insert_eq. }
  assert (Py.readlines text
          = ["deque(" +:+ Py.repr_list (queue s) +:+ ")" +:+ Py.nl;
             Py.repr_set (searched s)]) as Hlines.
  { subst text.
    replace ("deque(" +:+ Py.repr_list (queue s) +:+ ")" +:+ Py.nl
               +:+ Py.repr_set (searched s))
      with (("deque(" +:+ Py.repr_list (queue s) +:+ ")") +:+ Py.nl
              +:+ Py.repr_set (searched s))
      by (by rewrite !str_app_assoc).
    rewrite readlines_two_lines.
    - by rewrite !str_app_assoc.
    - apply one_line_app. split; [by repeat constructor|].
      apply one_line_app. split; [apply repr_list_one_line|by repeat constructor].
    - apply repr_set_one_line.
    - apply repr_set_nonempty. }
  split.
  - unfold file_text. rewrite Hfile. exact Hlines.
  - eexists. split.
    + unfold BaseCrawler._setup_structs. rewrite Hresume, savestate_path_truthy.
      apply (base_load_prev_crawl_eq py self' s2 (savestate_path self) text
               (queue s) (searched s)); [done|done|..].
      * by rewrite Hlines.
      * by rewrite Hlines.
    + done.
Qed.

Lemma base_savestate_round_trip_witness :
  Py.readlines
    (file_text (savestate_path resumed_config)
       (BaseCrawler._on_shutdown resumed_config interrupted_state).2)
  = ["deque(" +:+ Py.repr_list (queue interrupted_state) +:+ ")" +:+ Py.nl;
     Py.repr_set (searched interrupted_state)]
  ∧ ∃ s3,
      BaseCrawler._setup_structs savestate_eval resumed_config
        (BaseCrawler._on_shutdown resumed_config interrupted_state).2 = (Ok (), s3)
      ∧ queue s3 = queue interrupted_state
      ∧ searched s3 = searched interrupted_state.
Proof.
  apply (base_savestate_round_trip savestate_eval resumed_config resumed_config
           interrupted_state
           (BaseCrawler._on_shutdown resumed_config interrupted_state).2).
  - reflexivity.
  - vm_compute. reflexivity.
  - vm_compute. reflexivity.
  - reflexivity.
Defined.

(** ** From the data file to the Blockstream requests *)

Lemma alnum_plain (c : ascii) :
  Re.alnum c = true → Py.is_space c = false ∧ c ≠ Py.LF ∧ c ≠ Py.CR.
Proof.
  destruct c as [[] [] [] [] [] [] [] []]; vm_compute; intros H;
    first [discriminate H | split_and!; [reflexivity|discriminate|discriminate]].
Qed.

Lemma valid_alnum (a : string) :
  Fetch.is_valid_btc_address a = true →
  a ≠ "" ∧ Forall (λ c, Re.alnum c = true) (Py.to_list a).
Proof.
  intros Hvalid. split.
  { intros ->. by vm_compute in Hvalid. }
  apply fullmatch_btc in Hvalid as (start & rest & -> & Hstart & _ & Hrest).
  rewrite to_list_app. apply Forall_app. split; [|done].
  destruct Hstart as [->|[->| ->]]; by repeat constructor.
Qed.

Lemma lstrip_plain (l : list ascii) :
  Forall (λ c, Py.is_space c = false) l → Py.lstrip_list l = l.
Proof. destruct 1 as [|c l Hc _]; [done|]. cbn. by rewrite Hc. Qed.

Lemma strip_line (a : string) :
  Fetch.is_valid_btc_address a = true → Py.strip (a +:+ Py.nl) = a.
Proof.
  intros [Hne Halnum]%valid_alnum.
  assert (Forall (λ c, Py.is_space c = false) (Py.to_list a)) as Hplain.
  { eapply Forall_impl; [exact Halnum|]. intros c Hc. by apply alnum_plain. }
  unfold Py.strip, Py.strip_list. rewrite to_list_app.
  change (Py.to_list Py.nl) with [Py.LF].
  destruct (Py.to_list a) as [|c l] eqn:Hl.
  { destruct Hne. apply to_list_inj. by rewrite Hl. }
  assert (Py.lstrip_list ((c :: l) ++ [Py.LF]) = (c :: l) ++ [Py.LF]) as ->.
  { cbn. apply Forall_cons in Hplain as [-> _]. done. }
  assert (∀ x, Py.lstrip_list (Py.LF :: x) = Py.lstrip_list x) as Hlf by done.
  rewrite reverse_app. change (reverse [Py.LF]) with [Py.LF]. cbn [app].
  rewrite Hlf, lstrip_plain by (by apply Forall_reverse).
  rewrite reverse_involutive, <- Hl. apply of_to_list.
Qed.

Lemma readlines_of_lines (ls : list string) :
  Forall one_line ls →
  Py.readlines (foldr (λ a acc, a +:+ Py.nl +:+ acc) "" ls)
  = (λ a, a +:+ Py.nl) <$> ls.
Proof.
  unfold Py.readlines. induction 1 as [|a ls Ha _ IH]; [done|].
  cbn [foldr fmap list_fmap]. rewrite !to_list_app.
  change (Py.to_list Py.nl) with [Py.LF]. cbn [app].
  rewrite (readlines_go_first_line [] _ _ Ha), IH. rewrite reverse_nil. cbn [app].
  f_equal. apply to_list_inj. by rewrite to_of_list, to_list_app.
Qed.

Lemma file_append_append path t1 t2 w :
  file_append path t2 (file_append path t1 w) = file_append path (t1 +:+ t2) w.
Proof.
  unfold file_append. cbn. rewrite lookup_insert_eq, insert_insert_eq. cbn.
  by rewrite str_app_assoc.
Qed.

Lemma file_append_nothing path old w :
  files w !! path = Some old → file_append path "" w = w.
Proof.
  intros H. unfold file_append. rewrite H. cbn. rewrite str_app_nil_r.
  rewrite insert_id by done. by destruct w.
Qed.

Lemma lines_text_app (l1 l2 : list string) :
  foldr (λ a acc, a +:+ Py.nl +:+ acc) "" (l1 ++ l2)
  = foldr (λ a acc, a +:+ Py.nl +:+ acc) "" l1
      +:+ foldr (λ a acc, a +:+ Py.nl +:+ acc) "" l2.
Proof.
  induction l1 as [|a l1 IH]; [done|]. cbn [app foldr].
  by rewrite IH, !str_app_assoc.
Qed.

Lemma save_new_spec output_path addrs btc_addrs old w :
  files w !! output_path = Some old →
  ∃ new,
    Process.save_new output_path addrs btc_addrs w
    = (Ok (btc_addrs ∪ list_to_set addrs),
       file_append output_path (foldr (λ a acc, a +:+ Py.nl +:+ acc) "" new) w)
    ∧ NoDup new
    ∧ (∀ a, a ∈ new ↔ a ∈ addrs ∧ a ∉ btc_addrs)
    ∧ (∀ d1 a d2, new = d1 ++ a :: d2 →
         ∃ l1 l2, addrs = l1 ++ a :: l2 ∧ (a ∉ l1)
                  ∧ (∀ b, b ∈ d1 → b ∈ l1)
                  ∧ (∀ b, b ∈ l1 → b ∈ d1 ∨ b ∈ btc_addrs)).
Proof.
  revert btc_addrs old w. induction addrs as [|addr rest IH]; intros seen old w Hold.
  - exists []. split_and!.
    + cbn [Process.save_new foldr list_to_set].
      by rewrite (file_append_nothing _ _ _ Hold), (right_id_L ∅ (∪)).
    + constructor.
    + intros a. rewrite !elem_of_nil. naive_solver.
    + intros d1 a d2 Heq. by destruct d1.
  - cbn [Process.save_new]. case_bool_decide as Hnew.
    + destruct (IH ({[addr]} ∪ seen) (old +:+ addr +:+ Py.nl)
                  (file_append output_path (addr +:+ Py.nl) w))
        as (new & Hrun & Hnd & Hchar & Hord).
      { cbn. rewrite lookup_insert_eq, Hold. done. }
      exists (addr :: new). split_and!.
      * eapply bind_ok; [reflexivity|]. rewrite Hrun, file_append_append.
        cbn [foldr]. rewrite !str_app_assoc. do 2 f_equal. set_solver.
      * constructor; [|done]. intros Hin. apply Hchar in Hin as [_ Hn].
        apply Hn, elem_of_union. left. by apply elem_of_singleton.
      * intros a. rewrite !elem_of_cons, Hchar.
        split; [set_solver|]. intros [[->|?] ?]; [by left|].
        destruct (decide (a = addr)) as [->|?]; [by left|]. right. set_solver.
      * intros d1 a d2 Heq. destruct d1 as [|d d1]; cbn [app] in Heq.
        -- injection Heq as -> ->. exists [], rest. split_and!; [done| | |].
           ++ apply not_elem_of_nil.
           ++ done.
           ++ by intros b ?%elem_of_nil.
        -- injection Heq as <- ->.
           destruct (Hord d1 a d2 eq_refl) as (l1 & l2 & -> & Hfirst & Hsub & Hsup).
           assert (a ≠ addr) as Hne.
           { intros ->.
             assert (addr ∈ d1 ++ addr :: d2) as [_ Hn]%Hchar
               by (apply elem_of_app; right; by left).
             apply Hn, elem_of_union. left. by apply elem_of_singleton. }
           exists (addr :: l1), l2. split_and!; [done| | |].
           ++ intros [?|?]%elem_of_cons; [done|by apply Hfirst].
           ++ intros b [->|Hb]%elem_of_cons; [by left|]. right. by apply Hsub.
           ++ intros b [->|Hb]%elem_of_cons; [left; by left|].
              destruct (Hsup b Hb) as [?|[->%elem_of_singleton|?]%elem_of_union].
              ** left. by right.
              ** left. by left.
              ** by right.
    + destruct (IH seen old w Hold) as (new & Hrun & Hnd & Hchar & Hord).
      assert (addr ∈ seen) as Hin by (by destruct (decide (addr ∈ seen))).
      exists new. split_and!; [|done| |].
      * rewrite Hrun. do 2 f_equal. set_solver.
      * intros a. rewrite Hchar, elem_of_cons. set_solver.
      * intros d1 a d2 Heq.
        destruct (Hord d1 a d2 Heq) as (l1 & l2 & -> & Hfirst & Hsub & Hsup).
        assert (a ≠ addr) as Hne.
        { intros ->.
          assert (addr ∈ new) as [_ Hn]%Hchar
            by (rewrite Heq; apply elem_of_app; right; by left).
          done. }
        exists (addr :: l1), l2. split_and!; [done| | |].
        -- intros [?|?]%elem_of_cons; [done|by apply Hfirst].
        -- intros b Hb. right. by apply Hsub.
        -- intros b [->|Hb]%elem_of_cons; [by right|]. by apply Hsup.
Qed.

Lemma save_new_app output_path l1 l2 btc_addrs w :
  Process.save_new output_path (l1 ++ l2) btc_addrs w
  = (btc_addrs' ← Process.save_new output_path l1 btc_addrs;
     Process.save_new output_path l2 btc_addrs') w.
Proof.
  revert btc_addrs w. induction l1 as [|addr l1 IH]; intros seen w; [done|].
  cbn [app Process.save_new]. destruct (bool_decide (addr ∉ seen)); [|apply IH].
  unfold bind at 1. unfold modify. rewrite IH. reflexivity.
Qed.

Lemma save_values_flat output_path values btc_addrs w :
  Process.save_values output_path values btc_addrs w
  = Process.save_new output_path
      (flat_map (λ v, match v with
                      | Process.Page addrs _ => addrs
                      | Process.Status _ => []
                      end) values) btc_addrs w.
Proof.
  revert btc_addrs w. induction values as [|[addrs title|text] rest IH];
    intros seen w; cbn [Process.save_values flat_map]; [done| |apply IH].
  rewrite save_new_app. unfold bind.
  destruct (Process.save_new output_path addrs seen w) as [[r|e] w1]; [apply IH|done].
Qed.

Lemma elem_of_pages (values : list Process.value) (a : string) :
  a ∈ flat_map (λ v, match v with
                     | Process.Page addrs _ => addrs
                     | Process.Status _ => []
                     end) values
  ↔ ∃ addrs title, Process.Page addrs title ∈ values ∧ a ∈ addrs.
Proof.
  induction values as [|v rest IH]; cbn [flat_map].
  - rewrite elem_of_nil. split; [done|].
    intros (addrs & title & Hin & _). by apply elem_of_nil in Hin.
  - rewrite elem_of_app, IH. split.
    + intros [Ha|(addrs & title & Hin & Ha)].
      * destruct v as [addrs title|text]; [|by apply elem_of_nil in Ha].
        exists addrs, title. split; [by left|done].
      * exists addrs, title. split; [by right|done].
    + intros (addrs & title & [<-|Hin]%elem_of_cons & Ha); [by left|].
      right. by exists addrs, title.
Qed.

Lemma filter_valid_all (l : list string) :
  Forall (λ a, Fetch.is_valid_btc_address a = true) l →
  filter (λ a, Fetch.is_valid_btc_address a = true) l = l.
Proof.
  induction 1 as [|a l Ha _ IH]; [done|].
  rewrite filter_cons, decide_True by done. by rewrite IH.
Qed.

(** X15: the hand-over from the crawler to the fetcher.  From a data file
    whose pages list valid addresses only (the crawler records no others),
    [save_btc_addrs_from_crawler] writes into a new address file every
    address once, in the order of first occurrence, one per line: the
    addresses written before an address are those that the two loops meet
    before they first meet it.  The lines of that file, stripped as
    [blockstream_fetch_all] strips them, are those addresses again; and
    [blockstream_fetch_all] on that file sends exactly one request per
    distinct address, whatever the order in which the executor runs the
    calls. *)
Theorem recorded_addresses_are_fetched_once
    eval_data answers order data_path addrs_path output_path content values w :
  files w !! data_path = Some content →
  eval_data (Fetch.read content) = Some values →
  files w !! addrs_path = None →
  (∀ addrs title a, Process.Page addrs title ∈ values → a ∈ addrs →
     Fetch.is_valid_btc_address a = true) →
  let met := flat_map (λ v, match v with
                            | Process.Page addrs _ => addrs
                            | Process.Status _ => []
                            end) values in
  ∃ w1 distinct,
    Process.save_btc_addrs_from_crawler eval_data data_path addrs_path w = (Ok (), w1)
    ∧ NoDup distinct
    ∧ (∀ a, a ∈ distinct ↔
         ∃ addrs title, Process.Page addrs title ∈ values ∧ a ∈ addrs)
    ∧ (∀ before a after, distinct = before ++ a :: after →
         ∃ l1 l2, met = l1 ++ a :: l2 ∧ (a ∉ l1) ∧ ∀ b, b ∈ before ↔ b ∈ l1)
    ∧ Py.strip <$> Py.readlines (default "" (files w1 !! addrs_path)) = distinct
    ∧ (order ≡ₚ seq 0 (length distinct) →
       ∃ w2 sent,
         Fetch.blockstream_fetch_all answers order addrs_path output_path w1
         = (Ok (), w2)
         ∧ requests w2 = requests w ++ sent
         ∧ sent ≡ₚ (λ a, "https://blockstream.info/api/address/" +:+ a)
                     <$> distinct).
Proof.
  intros Hdata Heval Hfresh Hvalid met.
  destruct (save_new_spec addrs_path met ∅ "" (file_append addrs_path "" w))
    as (distinct & Hrun & Hnd & Hchar & Hord).
  { cbn. rewrite lookup_insert_eq, Hfresh. done. }
  set (text := foldr (λ a acc, a +:+ Py.nl +:+ acc) "" distinct) in *.
  set (w1 := file_append addrs_path text (file_append addrs_path "" w)) in *.
  assert (Forall (λ a, Fetch.is_valid_btc_address a = true) distinct) as Hall.
  { apply Forall_forall.
    intros a [(addrs & title & Hin & Ha)%elem_of_pages _]%Hchar.
    by apply (Hvalid addrs title). }
  assert (files w1 !! addrs_path = Some text) as Hfile.
  { subst w1. cbn. rewrite lookup_insert_eq, lookup_insert_eq, Hfresh. done. }
  assert (Py.readlines text = (λ a, a +:+ Py.nl) <$> distinct) as Hlines.
  { apply readlines_of_lines. eapply Forall_impl; [exact Hall|].
    intros a [_ Ha]%valid_alnum. eapply Forall_impl; [exact Ha|].
    intros c Hc. by apply alnum_plain. }
  assert (Py.strip <$> Py.readlines text = distinct) as Hstripped.
  { rewrite Hlines, <- list_fmap_compose.
    rewrite <- (list_fmap_id distinct) at 2.
    apply Forall_fmap_ext. eapply Forall_impl; [exact Hall|].
    intros a Ha. cbn. by apply strip_line. }
  exists w1, distinct. split_and!.
  - unfold Process.save_btc_addrs_from_crawler.
    eapply bind_ok; [by rewrite fetch_open_read_eq, Hdata|].
    rewrite Heval. eapply bind_ok; [reflexivity|].
    eapply bind_ok; [by rewrite save_values_flat; exact Hrun|reflexivity].
  - done.
  - intros a. rewrite Hchar. unfold met. rewrite elem_of_pages. set_solver.
  - intros before a after Heq.
    destruct (Hord before a after Heq) as (l1 & l2 & Hmet & Hfirst & Hsub & Hsup).
    exists l1, l2. split_and!; [done|done|]. intros b. split; [apply Hsub|].
    intros Hb. destruct (Hsup b Hb) as [?|?%elem_of_empty]; done.
  - by rewrite Hfile.
  - intros Horder.
    destruct (blockstream_tasks_eq answers (Py.strip <$> Py.readlines text)
                output_path order w1) as (w2 & Htasks & Hreq).
    eexists (print_line "All calls done." w2), _. split_and!.
    + unfold Fetch.blockstream_fetch_all.
      eapply bind_ok; [by rewrite fetch_open_read_eq, Hfile|].
      eapply bind_ok; [exact Htasks|reflexivity].
    + exact Hreq.
    + apply fmap_Permutation. rewrite Hstripped, Horder.
      pose proof (omap_lookup_seq [] distinct) as Hseq. cbn [app length] in Hseq.
      by rewrite Hseq, filter_valid_all.
Qed.

Lemma recorded_addresses_are_fetched_once_witness :
  let met := ["bc1qar0srrr7xfkvy5l643lydnw9re59gtzzwf5mdq";
              "1A1zP1eP5QGefi2DMPTfTL5SLmv7DivfNa";
              "bc1qar0srrr7xfkvy5l643lydnw9re59gtzzwf5mdq";
              "1A1zP1eP5QGefi2DMPTfTL5SLmv7DivfNa";
              "bc1qar0srrr7xfkvy5l643lydnw9re59gtzzwf5mdq";
              "3J98t1WpEZ73CNmQviecrnyiWrnqRhWNLy"] in
  ∃ w1 distinct,
    Process.save_btc_addrs_from_crawler (λ _, Some crawled_values)
      "data.txt" "btc-addrs.txt" crawled_world = (Ok (), w1)
    ∧ NoDup distinct
    ∧ (∀ a, a ∈ distinct ↔
         ∃ addrs title, Process.Page addrs title ∈ crawled_values ∧ a ∈ addrs)
    ∧ (∀ before a after, distinct = before ++ a :: after →
         ∃ l1 l2, met = l1 ++ a :: l2 ∧ (a ∉ l1) ∧ ∀ b, b ∈ before ↔ b ∈ l1)
    ∧ Py.strip <$> Py.readlines (default "" (files w1 !! "btc-addrs.txt")) = distinct
    ∧ ([2; 0; 1] ≡ₚ seq 0 (length distinct) →
       ∃ w2 sent,
         Fetch.blockstream_fetch_all (λ _, Fetch.Fails "ReadTimeout") [2; 0; 1]
           "btc-addrs.txt" "blockstream.txt" w1 = (Ok (), w2)
         ∧ requests w2 = requests crawled_world ++ sent
         ∧ sent ≡ₚ (λ a, "https://blockstream.info/api/address/" +:+ a)
                     <$> distinct).
Proof.
  apply (recorded_addresses_are_fetched_once (λ _, Some crawled_values)
           (λ _, Fetch.Fails "ReadTimeout") [2; 0; 1] "data.txt" "btc-addrs.txt"
           "blockstream.txt" "{}" crawled_values crawled_world).
  - reflexivity.
  - reflexivity.
  - reflexivity.
  - intros addrs title a Hpage Ha. unfold crawled_values in Hpage.
    repeat (apply elem_of_cons in Hpage as [Hpage|Hpage]);
      [ |discriminate Hpage| |by apply elem_of_nil in Hpage];
      injection Hpage as -> _;
      repeat (apply elem_of_cons in Ha as [->|Ha]);
      first [reflexivity|by apply elem_of_nil in Ha].
Defined.

(** On the sample, the address file holds the three addresses in the order
    in which the pages first name them, and the requests of
    [blockstream_fetch_all] are theirs, here in the order 2, 0, 1 of the
    executor. *)
Example crawled_values_in_order_of_first_occurrence :
  let w1 := (Process.save_btc_addrs_from_crawler (λ _, Some crawled_values)
               "data.txt" "btc-addrs.txt" crawled_world).2 in
  Py.strip <$> Py.readlines (default "" (files w1 !! "btc-addrs.txt"))
  = ["bc1qar0srrr7xfkvy5l643lydnw9re59gtzzwf5mdq";
     "1A1zP1eP5QGefi2DMPTfTL5SLmv7DivfNa";
     "3J98t1WpEZ73CNmQviecrnyiWrnqRhWNLy"]
  ∧ requests (Fetch.blockstream_fetch_all (λ _, Fetch.Fails "ReadTimeout") [2; 0; 1]
                "btc-addrs.txt" "blockstream.txt" w1).2
    = ["https://blockstream.info/api/address/3J98t1WpEZ73CNmQviecrnyiWrnqRhWNLy";
       "https://blockstream.info/api/address/bc1qar0srrr7xfkvy5l643lydnw9re59gtzzwf5mdq";
       "https://blockstream.info/api/address/1A1zP1eP5QGefi2DMPTfTL5SLmv7DivfNa"].
Proof. split; vm_compute; reflexivity. Qed.

(** ** A seed that a page links to *)

Lemma mt_scrape_links_head (href : option string) (rest : list (option string))
    (a : string) (s : state) :
  DarkCrawler.onion_address_search href = Some a →
  a ∉ seen s →
  ∃ new,
    for_each (href :: rest) (λ href,
      MultiThreadedDarkCrawler.try_enqueue (DarkCrawler.onion_address_search href)) s
    = (Ok (),
       set_queue (queue s ++ a :: new)
         (set_seen (seen s ∪ Threads.addresses (href :: rest)) s)).
Proof.
  intros Ho Hnew.
  assert (Py.truthy (Some a) = true) as Htruthy.
  { unfold DarkCrawler.onion_address_search in Ho. destruct href as [t|]; [|done].
    destruct (Py.truthy (Some t)) eqn:Ht; [|done].
    unfold Py.truthy. apply negb_true_iff, bool_decide_eq_false. intros ->.
    unfold Re.search in Ho. destruct (Re.search_go _ _) as [l|] eqn:Hgo; [|done].
    injection Ho as Ho. apply (f_equal Py.to_list) in Ho. rewrite to_of_list in Ho.
    subst l. apply search_go_sound in Hgo as (pre & post & _ & Hlang).
    apply lang_onion_pattern in Hlang as (scheme & name & Heq & _).
    apply (f_equal Py.len) in Heq. rewrite !len_app in Heq. cbn in Heq. lia. }
  destruct (mt_scrape_links_loop rest
              (set_queue (queue s ++ [a]) (set_seen ({[a]} ∪ seen s) s)))
    as (new & Hrun & _).
  exists new. cbn [for_each Threads.addresses].
  eapply bind_ok; [apply try_enqueue_eq|].
  rewrite Ho. cbv beta iota. rewrite Htruthy, bool_decide_eq_true_2 by done.
  cbn [andb]. rewrite Hrun, (fed_truthy _ Htruthy).
  unfold set_queue, set_seen. cbn [queue searched seen work outside].
  rewrite <- (assoc_L (++)). do 2 f_equal. set_solver.
Qed.

Lemma mt_scrape_url_200_head self e url s res href rest a :
  is_v2 url = false →
  answer e = Replies res →
  status_code res = 200 →
  hrefs (parsed res) = href :: rest →
  DarkCrawler.onion_address_search href = Some a →
  a ∉ seen s →
  ∃ r s' new,
    MultiThreadedDarkCrawler.scrape_url self e url s = (r, s')
    ∧ queue s' = queue s ++ a :: new
    ∧ work s' = work s
    ∧ searched s' = {[url]} ∪ searched s
    ∧ requests (outside s') = requests (outside s) ++ [url].
Proof.
  intros Hv2 Hans Hst Hhrefs Ho Hnew. unfold is_v2 in Hv2.
  destruct (mt_log_iter_eq self e url ("HTTP " +:+ Py.str_of_nat (status_code res))
              (on_world (send_request url) s)) as [head Hlog].
  set (s1 := logged self url _ _) in Hlog.
  destruct (mt_scrape_links_head href rest a s1 Ho Hnew) as [new Hlinks].
  rewrite <- Hhrefs in Hlinks.
  set (s2 := set_queue _ _) in Hlinks.
  assert (MultiThreadedDarkCrawler.scrape_url self e url s
          = DarkCrawler._scrape_btc_addresses self (parsed res) url s2) as ->.
  { unfold MultiThreadedDarkCrawler.scrape_url. rewrite Hv2.
    eapply bind_ok.
    - eapply try_ok, bind_ok; [by apply requests_get_replies|].
      eapply bind_ok; [exact Hlog|reflexivity].
    - cbv beta iota. rewrite Hst. cbn [Nat.eqb].
      eapply bind_ok; [exact Hlinks|reflexivity]. }
  rewrite scrape_btc_addresses_eq.
  destruct (title (parsed res)) as [[t|]|]; eexists _, _, new; (split; [done|]);
    done.
Qed.

Lemma mt_worker_eq self e s url rest :
  work s = url :: rest →
  MultiThreadedDarkCrawler.worker self e s
  = try_except (MultiThreadedDarkCrawler.scrape_url self e url) (λ _, ret ())
      (set_work rest s).
Proof.
  intros Hwork. unfold MultiThreadedDarkCrawler.worker, bind at 1, get.
  rewrite Hwork. by unfold bind at 1, modify at 1.
Qed.

(** X16: the concurrent crawler can fetch a seed twice.  Its seeds are
    never put into the seen set, so when the page of a seed links back to
    the seed (as the first link of the page, say), the check of
    [_scrape_links] lets the seed into the queue again, the next round of
    the main loop submits it again, and the next worker requests it again.
    ([BaseCrawler] and [DarkCrawler] check the queue and the searched set
    and never request an address twice.) *)
Theorem mt_refetches_linked_seed py self e1 e2 a res rest s :
  Py.truthy (resume_path self) = false →
  Py.truthy (ahmia_keyword_path self) = false →
  seeds self = [a] →
  limit_reached 1 (search_limit self) = false →
  is_v2 a = false →
  DarkCrawler.onion_address_search (Some a) = Some a →
  answer e1 = Replies res →
  status_code res = 200 →
  hrefs (parsed res) = Some a :: rest →
  let out := MultiThreadedDarkCrawler.crawl py self
               [MultiThreadedDarkCrawler.MainRound;
                MultiThreadedDarkCrawler.WorkerRuns e1;
                MultiThreadedDarkCrawler.MainRound;
                MultiThreadedDarkCrawler.WorkerRuns e2] s in
  out.1 = Ok ()
  ∧ requests (outside out.2) = requests (outside s) ++ [a; a].
Proof.
  intros Hresume Hkw Hseeds Hlimit Hv2 Ho Hans Hst Hhrefs. cbv zeta.
  assert (limit_reached 0 (search_limit self) = false) as Hlimit0.
  { destruct (search_limit self) as [k|]; [|done]. cbn in *.
    apply Nat.leb_gt in Hlimit. apply Nat.leb_gt. lia. }
  set (s1 := on_world (print_line ("Running MultiThreadedDarkCrawler " +:+ Py.nl))
               (on_world (file_append (data_path self) ("{" +:+ Py.nl))
                  (set_searched ∅
                     (set_queue (seeds self) (set_work [] (set_seen ∅ s)))))).
  set (s2 := set_queue [] (set_work (work s1 ++ queue s1) s1)).
  destruct (mt_scrape_url_200_head self e1 a (set_work [] s2) res (Some a) rest a
              Hv2 Hans Hst Hhrefs Ho) as (r3 & s3 & new & Hrun3 & Hq3 & Hw3 & Hs3 & Hreq3).
  { cbn. set_solver. }
  cbn in Hq3, Hw3, Hs3, Hreq3.
  set (s4 := set_queue [] (set_work (work s3 ++ queue s3) s3)).
  destruct (mt_scrape_url_summary self e2 a (set_work new s4))
    as (r5 & s5 & Hrun5 & _).
  pose proof (mt_scrape_url_requests self e2 a (set_work new s4) Hv2) as Hreq5.
  rewrite Hrun5 in Hreq5. cbn in Hreq5.
  destruct (mt_on_shutdown_eq self s5) as (s6 & Hshut & _).
  assert (requests (outside s6) = requests (outside s5)) as Hreq6.
  { unfold MultiThreadedDarkCrawler._on_shutdown in Hshut.
    cbv [bind print modify getattr get ret BaseCrawler._write_data
         MultiThreadedDarkCrawler._write_data] in Hshut.
    cbn in Hshut. by injection Hshut as <-. }
  assert (MultiThreadedDarkCrawler.crawl py self
            [MultiThreadedDarkCrawler.MainRound;
             MultiThreadedDarkCrawler.WorkerRuns e1;
             MultiThreadedDarkCrawler.MainRound;
             MultiThreadedDarkCrawler.WorkerRuns e2] s = (Ok (), s6)) as ->.
  { unfold MultiThreadedDarkCrawler.crawl.
    eapply bind_ok; [rewrite mt_setup_fresh_eq by done; rewrite Hkw; reflexivity|].
    eapply bind_ok; [reflexivity|]. fold s1.
    cbn [MultiThreadedDarkCrawler.run].
    eapply bind_ok; [reflexivity|].
    assert (size (searched s1) = 0) as -> by done. rewrite Hlimit0.
    eapply bind_ok; [reflexivity|]. fold s2.
    eapply bind_ok.
    { match goal with
      | |- MultiThreadedDarkCrawler.worker _ _ ?st = _ => change st with s2
      end.
      rewrite (mt_worker_eq self e1 s2 a []) by (subst s2 s1; cbn; by rewrite Hseeds).
      unfold try_except. rewrite Hrun3.
      instantiate (1 := s3). by destruct r3 as [[]|]. }
    eapply bind_ok; [reflexivity|].
    assert (size (searched s3) = 1) as ->.
    { rewrite Hs3. subst s2 s1. cbn.
      by rewrite (right_id_L ∅ (∪)), size_singleton. }
    rewrite Hlimit.
    eapply bind_ok; [reflexivity|]. fold s4.
    eapply bind_ok; [|exact Hshut].
    match goal with
    | |- MultiThreadedDarkCrawler.worker _ _ ?st = _ => change st with s4
    end.
    rewrite (mt_worker_eq self e2 s4 a new).
    2: { subst s4. cbn. rewrite Hw3, Hq3. subst s2. done. }
    unfold try_except. rewrite Hrun5. by destruct r5 as [[]|]. }
  cbn [fst snd]. split; [done|].
  rewrite Hreq6, Hreq5. subst s4. cbn. rewrite Hreq3. subst s2 s1. cbn.
  by rewrite <- (assoc_L (++)).
Qed.

Lemma mt_refetches_linked_seed_witness :
  let a := "http://aaaaaaaaaaaaaaaaaaaaaaaaaaaaaaaaaaaaaaaaaaaaaaaaaaaaaaaa.onion" in
  let e := sample_env (Replies {| status_code := 200; parsed := self_linking_page |}) in
  let out := MultiThreadedDarkCrawler.crawl no_eval self_linking_config
               [MultiThreadedDarkCrawler.MainRound;
                MultiThreadedDarkCrawler.WorkerRuns e;
                MultiThreadedDarkCrawler.MainRound;
                MultiThreadedDarkCrawler.WorkerRuns e] empty_state in
  out.1 = Ok ()
  ∧ requests (outside out.2) = requests (outside empty_state) ++ [a; a].
Proof.
  apply (mt_refetches_linked_seed no_eval self_linking_config
           (sample_env (Replies {| status_code := 200; parsed := self_linking_page |}))
           (sample_env (Replies {| status_code := 200; parsed := self_linking_page |}))
           "http://aaaaaaaaaaaaaaaaaaaaaaaaaaaaaaaaaaaaaaaaaaaaaaaaaaaaaaaa.onion"
           {| status_code := 200; parsed := self_linking_page |} [] empty_state);
    reflexivity.
Defined.

(** ** process.py: the topics of a title *)

Lemma has_match_true title keywords :
  Process.has_match title keywords = true →
  ∃ kw, kw ∈ keywords ∧ kw ∈ Process.topic_keywords
        ∧ Py.contains kw (Process.lower title) = true.
Proof.
  unfold Process.has_match. intros (kw & Hin & Hm)%existsb_exists.
  apply bool_decide_eq_true in Hm. unfold Process.matches in Hm.
  apply elem_of_list_to_set, list_elem_of_filter in Hm as [Hc Hk].
  exists kw. split_and!; [by apply list_elem_of_In|done|done].
Qed.

Lemma has_match_intro title keywords kw :
  kw ∈ keywords → kw ∈ Process.topic_keywords →
  Py.contains kw (Process.lower title) = true →
  Process.has_match title keywords = true.
Proof.
  intros Hin Hk Hc. unfold Process.has_match. apply existsb_exists.
  exists kw. split; [by apply list_elem_of_In|].
  apply bool_decide_eq_true. unfold Process.matches.
  apply elem_of_list_to_set, list_elem_of_filter. done.
Qed.

Lemma topics_head_shape (b1 b2 b3 b4 b5 : bool) :
  let head :=
    if b1 then
      (if b2 then ["bitcoin_mixer"] else [])
        ++ (if b3 then ["bitcoin_generator"] else [])
        ++ (if b4 then ["stolen_bitcoin"] else [])
    else if b5 then ["hacking"] else [] in
  head `sublist_of` ["bitcoin_mixer"; "bitcoin_generator"; "stolen_bitcoin"; "hacking"]
  ∧ ("hacking" ∈ head →
     Forall (λ t, t ∉ head) ["bitcoin_mixer"; "bitcoin_generator"; "stolen_bitcoin"])
  ∧ (b1 = true → b4 = true → "stolen_bitcoin" ∈ head ∧ "hacking" ∉ head)
  ∧ (b2 = false → b3 = false → b4 = false → b5 = false → head = []).
Proof.
  destruct b1, b2, b3, b4, b5; cbv zeta;
    (split;
     [cbn [app];
      repeat first [apply sublist_nil | apply sublist_skip | apply sublist_cons]
     |apply (bool_decide_unpack _); vm_compute; exact I]).
Qed.

Lemma topics_tail_shape (b6 b7 b8 b9 b10 : bool) :
  let tail :=
    (if b6 then ["stolen_funds"] else [])
      ++ (if b7 then ["market"] else [])
      ++ (if b8 then ["website_list"] else [])
      ++ (if b9 then ["pornography"] else [])
      ++ (if b10 then ["abusive_content"] else []) in
  tail `sublist_of` ["stolen_funds"; "market"; "website_list"; "pornography";
                     "abusive_content"]
  ∧ (b6 = false → b7 = false → b8 = false → b9 = false → b10 = false → tail = []).
Proof.
  destruct b6, b7, b8, b9, b10; cbv zeta;
    (split;
     [cbn [app];
      repeat first [apply sublist_nil | apply sublist_skip | apply sublist_cons]
     |apply (bool_decide_unpack _); vm_compute; exact I]).
Qed.

Ltac decide_strings := apply (bool_decide_unpack _); vm_compute; exact I.

Ltac each_of H :=
  repeat (apply elem_of_cons in H as [->|H]); [..|by apply elem_of_nil in H].

Lemma sublist_elem (x : string) (l1 l2 : list string) :
  l1 `sublist_of` l2 → x ∈ l1 → x ∈ l2.
Proof. intros Hsub Hin. by apply (elem_of_sublist l1 l2 x). Qed.

(** X17: [categorize_by_title] returns the topics of the list in its
    source, each at most once and in the order of that list, joined by
    [", "]; never an empty text; [other] only on its own; [hacking] never
    together with one of the three bitcoin topics.  A title with [hack]
    and a bitcoin keyword is filed under [stolen_bitcoin], not under
    [hacking]; and a title whose only keywords are [bitcoin], [btc] or
    [bit] is filed under [other]. *)
Theorem categorize_by_title_topics (title : string) :
  let topics := Process.topics_of title in
  Process.categorize_by_title title = Py.join ", " topics
  ∧ topics `sublist_of` Process.topic_names
  ∧ topics ≠ []
  ∧ ("other" ∈ topics → topics = ["other"])
  ∧ ("hacking" ∈ topics →
     Forall (λ t, t ∉ topics) ["bitcoin_mixer"; "bitcoin_generator"; "stolen_bitcoin"])
  ∧ (Py.contains "hack" (Process.lower title) = true →
     (Py.contains "bit" (Process.lower title) = true
      ∨ Py.contains "btc" (Process.lower title) = true) →
     "stolen_bitcoin" ∈ topics ∧ "hacking" ∉ topics)
  ∧ ((∀ kw, kw ∈ Process.topic_keywords →
        Py.contains kw (Process.lower title) = true →
        kw ∈ ["bitcoin"; "btc"; "bit"]) →
     Process.categorize_by_title title = "other").
Proof.
  cbv zeta. split; [done|]. unfold Process.categorize_by_title, Process.topics_of.
  set (b1 := Process.has_match title ["bitcoin"; "btc"; "bit"]).
  set (b2 := Process.has_match title ["mixer"]).
  set (b3 := Process.has_match title ["generat"; "miner"; "double"; "triple"; "multipl"]).
  set (b4 := Process.has_match title ["wallet"; "hack"; "private key"]).
  set (b5 := Process.has_match title ["hack"]).
  set (b6 := Process.has_match title
               ["card"; "paypal"; "western union"; "transfer"; "money"; "cash"]).
  set (b7 := Process.has_match title ["market"; "buy"; "sale"; "sell"]).
  set (b8 := Process.has_match title ["list"; "link"; "dir"]).
  set (b9 := Process.has_match title ["porn"; "fuck"]).
  set (b10 := Process.has_match title
                ["cp"; "rape"; "pedo"; "teen"; "child"; "underage"; "young"]).
  pose proof (topics_head_shape b1 b2 b3 b4 b5) as Hhead.
  pose proof (topics_tail_shape b6 b7 b8 b9 b10) as Htail.
  cbv zeta in Hhead, Htail.
  set (head := if b1 then _ else _) in *.
  set (tail := (if b6 then _ else _) ++ _) in *.
  destruct Hhead as (Hsub1 & Hhack & Hstolen & Hnone1).
  destruct Htail as (Hsub2 & Hnone2).
  assert (head ++ tail `sublist_of`
            ["bitcoin_mixer"; "bitcoin_generator"; "stolen_bitcoin"; "hacking";
             "stolen_funds"; "market"; "website_list"; "pornography";
             "abusive_content"]) as Hsub.
  { exact (sublist_app _ _ _ _ Hsub1 Hsub2). }
  assert (∀ t, t ∈ ["bitcoin_mixer"; "bitcoin_generator"; "stolen_bitcoin"; "hacking"] →
               t ∉ tail) as Hdisjoint.
  { intros t Ht Hin. apply (sublist_elem _ _ _ Hsub2) in Hin.
    each_of Ht; revert Hin; decide_strings. }
  assert (∀ t, t ∈ head ++ tail → t ≠ "other") as Hother.
  { intros t Hin%(sublist_elem _ _ _ Hsub) ->. revert Hin. decide_strings. }
  assert (Py.contains "hack" (Process.lower title) = true →
          Py.contains "bit" (Process.lower title) = true
          ∨ Py.contains "btc" (Process.lower title) = true →
          "stolen_bitcoin" ∈ head ++ tail ∧ "hacking" ∉ head ++ tail) as Hhacked.
  { intros Hhackw Hbit.
    assert (b1 = true) as Hb1.
    { destruct Hbit as [Hbit|Hbit].
      - apply (has_match_intro title _ "bit"); [decide_strings|decide_strings|done].
      - apply (has_match_intro title _ "btc"); [decide_strings|decide_strings|done]. }
    assert (b4 = true) as Hb4.
    { apply (has_match_intro title _ "hack"); [decide_strings|decide_strings|done]. }
    destruct (Hstolen Hb1 Hb4) as [Hin Hnot]. split.
    - apply elem_of_app. by left.
    - rewrite elem_of_app. intros [?|Ht]; [done|].
      eapply Hdisjoint; [|exact Ht]. decide_strings. }
  assert ((∀ kw, kw ∈ Process.topic_keywords →
             Py.contains kw (Process.lower title) = true →
             kw ∈ ["bitcoin"; "btc"; "bit"]) →
          head ++ tail = []) as Honly.
  { intros Honly.
    assert (∀ keywords,
              (∀ kw, kw ∈ keywords → kw ∉ ["bitcoin"; "btc"; "bit"]) →
              Process.has_match title keywords = false) as Hfalse.
    { intros keywords Hkw. destruct (Process.has_match title keywords) eqn:Hm; [|done].
      apply has_match_true in Hm as (kw & Hin & Hk & Hc).
      destruct (Hkw kw Hin). by apply Honly. }
    rewrite Hnone1, Hnone2; [done|..]; apply Hfalse; intros kw Hin;
      each_of Hin; decide_strings. }
  destruct (head ++ tail) as [|t0 topics] eqn:Htopics.
  - split_and!.
    + unfold Process.topic_names.
      repeat first [apply sublist_nil | apply sublist_skip | apply sublist_cons].
    + done.
    + done.
    + intros Hin. apply list_elem_of_singleton in Hin. done.
    + intros Hhackw Hbit. destruct (Hhacked Hhackw Hbit) as [Hin _].
      by apply elem_of_nil in Hin.
    + done.
  - rewrite <- Htopics in *. split_and!.
    + unfold Process.topic_names.
      change ["bitcoin_mixer"; "bitcoin_generator"; "stolen_bitcoin"; "hacking";
              "stolen_funds"; "market"; "website_list"; "pornography";
              "abusive_content"; "other"]
        with (["bitcoin_mixer"; "bitcoin_generator"; "stolen_bitcoin"; "hacking";
               "stolen_funds"; "market"; "website_list"; "pornography";
               "abusive_content"] ++ ["other"]).
      by apply sublist_inserts_r.
    + by rewrite Htopics.
    + intros Hin. by destruct (Hother _ Hin).
    + intros [Hin|Hin]%elem_of_app.
      2: { exfalso. eapply Hdisjoint; [|exact Hin]. decide_strings. }
      specialize (Hhack Hin). rewrite !Forall_cons in Hhack |- *.
      destruct Hhack as (H1 & H2 & H3 & _).
      split_and!; [..|done]; rewrite elem_of_app;
        (intros [?|Ht]; [done|]; eapply Hdisjoint; [|exact Ht]; decide_strings).
    + exact Hhacked.
    + intros Hkw. rewrite (Honly Hkw) in Htopics. done.
Qed.

(** ** A page without title, in the two dark-web crawlers *)

(** X18: on a fresh start the concurrent crawler always gets to its
    orderly shutdown, whatever the pages are: an exception of [scrape_url]
    stays in the future of its worker; the one thing that can stop
    [crawl] is a keyword file that does not exist.  [DarkCrawler] runs
    [scrape_url] in the main loop: when the page of its first seed has no
    title, [crawl] ends with the [AttributeError], the savestate is not
    written, and the data file is left with its opening brace, without a
    record and without the closing brace. *)
Theorem mt_crawl_survives_untitled_pages py self s :
  Py.truthy (resume_path self) = false →
  (∀ events,
     let out := MultiThreadedDarkCrawler.crawl py self events s in
     out.1 = Ok ()
     ∨ ∃ path, ahmia_keyword_path self = Some path
               ∧ files (outside s) !! path = None
               ∧ out.1 = Raise (FileNotFoundError path))
  ∧ (∀ envs fuel a rest res,
       Py.truthy (ahmia_keyword_path self) = false →
       seeds self = a :: rest →
       is_v2 a = false →
       limit_reached 0 (search_limit self) = false →
       answer (envs 0) = Replies res →
       status_code res = 200 →
       title (parsed res) = None →
       let out := DarkCrawler.crawl self (DarkCrawler._load_prev_crawl py self)
                    envs (S fuel) s in
       out.1 = Raise (AttributeError "string")
       ∧ files (outside out.2) !! savestate_path self
         = files (outside s) !! savestate_path self
       ∧ file_text (data_path self) out.2
         = file_text (data_path self) s +:+ "{" +:+ Py.nl).
Proof.
  intros Hresume. split.
  - intros events. cbv zeta. unfold MultiThreadedDarkCrawler.crawl.
    set (s0 := on_world (file_append (data_path self) ("{" +:+ Py.nl))
                 (set_searched ∅
                    (set_queue (seeds self) (set_work [] (set_seen ∅ s))))).
    pose proof (mt_setup_fresh_eq py self s Hresume) as Hsetup. fold s0 in Hsetup.
    assert (∀ s1, MultiThreadedDarkCrawler._setup_structs py self s = (Ok (), s1) →
              ((MultiThreadedDarkCrawler._setup_structs py self ;;
                print ("Running MultiThreadedDarkCrawler " +:+ Py.nl) ;;
                MultiThreadedDarkCrawler.run self events) s).1 = Ok ()) as Hok.
    { intros s1 Hs1.
      destruct (run_summary self events
                  (on_world (print_line ("Running MultiThreadedDarkCrawler " +:+ Py.nl))
                     s1)) as (s' & lines & Hrun & _).
      erewrite bind_ok; [|exact Hs1|]; [|eapply bind_ok; [reflexivity|exact Hrun]].
      done. }
    destruct (Py.truthy (ahmia_keyword_path self)) eqn:Hkw.
    + destruct (ahmia_keyword_path self) as [path|] eqn:Hpath; [|done].
      destruct (files (outside s0) !! path) as [content|] eqn:Hfile.
      * left. eapply Hok. rewrite Hsetup.
        by apply (load_ahmia_seeds_eq self s0 path content).
      * right. exists path. split; [done|].
        assert (files (outside s) !! path = None) as Hnone.
        { subst s0. cbn in Hfile.
          destruct (decide (data_path self = path)) as [<-|Hne].
          - by rewrite lookup_insert_eq in Hfile.
          - by rewrite lookup_insert_ne in Hfile. }
        split; [done|].
        erewrite bind_raise; [done|]. rewrite Hsetup.
        by apply load_ahmia_seeds_missing.
    + left. eapply Hok. by rewrite Hsetup.
  - intros envs fuel a rest res Hkw Hseeds Hv2 Hlimit Hans Hst Htitle. cbv zeta.
    set (s1 := on_world (print_line ("Running DarkCrawler " +:+ Py.nl))
                 (on_world (file_append (data_path self) ("{" +:+ Py.nl))
                    (set_searched ∅ (set_queue (seeds self) s)))).
    destruct (dark_scrape_url_200 self (envs 0) a (set_queue rest s1) res Hv2 Hans Hst)
      as (head & s2 & Ho2 & _ & _ & Hrun2).
    rewrite scrape_btc_addresses_eq, Htitle in Hrun2.
    assert (DarkCrawler.crawl self (DarkCrawler._load_prev_crawl py self)
              envs (S fuel) s = (Raise (AttributeError "string"), s2)) as ->.
    { unfold DarkCrawler.crawl, DarkCrawler._setup_structs. rewrite Hresume, Hkw.
      eapply bind_ok.
      { eapply bind_ok; [|reflexivity].
        eapply bind_ok; [reflexivity|]. eapply bind_ok; [reflexivity|].
        apply write_data_eq. }
      eapply bind_ok; [reflexivity|]. fold s1. eapply bind_raise.
      cbn [DarkCrawler.crawl_loop]. eapply bind_ok; [reflexivity|].
      assert (queue s1 = a :: rest) as -> by (by rewrite <- Hseeds).
      assert (size (searched s1) = 0) as -> by done. rewrite Hlimit.
      eapply bind_ok; [reflexivity|]. eapply bind_raise. exact Hrun2. }
    cbn [fst snd]. split; [done|].
    pose proof (savestate_path_ne_data_path self) as Hsd.
    assert (data_path self ≠ savestate_path self) as Hds by done.
    split.
    + rewrite Ho2, files_logged by apply savestate_path_ne_log_path.
      subst s1. cbn. by rewrite lookup_insert_ne.
    + unfold file_text at 1. rewrite Ho2.
      change (default "" (files (outside ?x) !! data_path self))
        with (file_text (data_path self) x).
      rewrite file_text_logged_data. subst s1.
      unfold file_text. cbn. rewrite lookup_insert_eq. done.
Qed.

Lemma mt_crawl_survives_untitled_pages_witness :
  (∀ events,
     let out := MultiThreadedDarkCrawler.crawl no_eval self_linking_config events
                  empty_state in
     out.1 = Ok ()
     ∨ ∃ path, ahmia_keyword_path self_linking_config = Some path
               ∧ files (outside empty_state) !! path = None
               ∧ out.1 = Raise (FileNotFoundError path))
  ∧ (∀ envs fuel a rest res,
       Py.truthy (ahmia_keyword_path self_linking_config) = false →
       seeds self_linking_config = a :: rest →
       is_v2 a = false →
       limit_reached 0 (search_limit self_linking_config) = false →
       answer (envs 0) = Replies res →
       status_code res = 200 →
       title (parsed res) = None →
       let out := DarkCrawler.crawl self_linking_config
                    (DarkCrawler._load_prev_crawl no_eval self_linking_config)
                    envs (S fuel) empty_state in
       out.1 = Raise (AttributeError "string")
       ∧ files (outside out.2) !! savestate_path self_linking_config
         = files (outside empty_state) !! savestate_path self_linking_config
       ∧ file_text (data_path self_linking_config) out.2
         = file_text (data_path self_linking_config) empty_state +:+ "{" +:+ Py.nl).
Proof.
  apply (mt_crawl_survives_untitled_pages no_eval self_linking_config empty_state).
  reflexivity.
Defined.

(** ** C1: an address that is pending and passes the check again *)

Lemma elem_of_addresses (page : list (option string)) (a : string) :
  a ∈ Threads.addresses page →
  ∃ href, href ∈ page ∧ DarkCrawler.onion_address_search href = Some a.
Proof.
  induction page as [|href page IH]; cbn [Threads.addresses].
  - by intros ?%elem_of_empty.
  - intros [[Ho _]%elem_of_fed|Hin]%elem_of_union.
    + exists href. split; [by left|done].
    + destruct (IH Hin) as (href' & ? & ?). exists href'. split; [by right|done].
Qed.

(** C1, where the code departs from it: a fresh run puts its seeds into
    the queue and leaves the seen set empty, so the check of
    [_scrape_links] takes a seed for new.  When a fetched page links to a
    seed, every run of the workers to the end appends that seed to the
    queue, into which it was put at the start: the address is admitted a
    second time.  With the worker of that page running alone and the main
    thread not yet draining, the queue is the seeds followed by what the
    worker appended, the seed among it. *)
Theorem seed_is_admitted_twice py self s a page :
  Py.truthy (resume_path self) = false →
  Py.truthy (ahmia_keyword_path self) = false →
  a ∈ seeds self →
  a ∈ Threads.addresses page →
  ∃ s1,
    MultiThreadedDarkCrawler._setup_structs py self s = (Ok (), s1)
    ∧ queue s1 = seeds self
    ∧ seen s1 = ∅
    ∧ (∀ pages tr σ,
         page ∈ pages →
         Threads.reaches (Threads.init s1 pages) tr σ →
         Threads.finished σ →
         a ∈ queue s1 ∧ a ∈ tr)
    ∧ (∃ n,
         let run := Threads.exec (replicate n (Threads.WorkerThread 0))
                      (Threads.init s1 [page]) in
         Threads.finished run.1
         ∧ queue (Threads.shared run.1) = seeds self ++ run.2
         ∧ a ∈ run.2).
Proof.
  intros Hresume Hkw Hseed Hpage.
  set (s1 := on_world (file_append (data_path self) ("{" +:+ Py.nl))
               (set_searched ∅
                  (set_queue (seeds self) (set_work [] (set_seen ∅ s))))).
  assert (∀ pages tr σ,
            page ∈ pages →
            Threads.reaches (Threads.init s1 pages) tr σ →
            Threads.finished σ → a ∈ tr) as Hagain.
  { intros pages tr σ Hin Hreach Hfin.
    destruct (invariant_reaches _ _ _ _ Hreach)
      as (Hlen & Hth & _ & _ & Hseen & _ & _).
    apply list_elem_of_lookup in Hin as [i Hi].
    destruct (Threads.threads σ !! i) as [p|] eqn:Hp.
    2: { apply lookup_lt_Some in Hi. apply lookup_ge_None in Hp. lia. }
    destruct (Hth i page p Hi Hp) as (_ & Hfed & _).
    rewrite (Hfin i p Hp) in Hfed. cbn in Hfed.
    assert (a ∈ seen (Threads.shared σ)) as Ha by set_solver.
    destruct (Hseen a Ha) as [Hs0|[Htr|(j & rest & Hj)]]; [|done|].
    - subst s1. cbn in Hs0. by apply elem_of_empty in Hs0.
    - by apply Hfin in Hj. }
  exists s1. split_and!.
  - rewrite mt_setup_fresh_eq by done. by rewrite Hkw.
  - done.
  - done.
  - intros pages tr σ Hin Hreach Hfin. split; [done|]. by eapply Hagain.
  - destruct (solo_loop 0 page (Threads.init s1 [page]))
      as (n & tr & s' & Hrun & _ & Hq); [done..|].
    exists n. cbv zeta.
    assert (Threads.finished
              (Threads.exec (replicate n (Threads.WorkerThread 0))
                 (Threads.init s1 [page])).1) as Hfin.
    { rewrite Hrun. cbn [fst]. intros i p Hp. cbn in Hp.
      destruct i as [|i]; cbn in Hp; [by injection Hp|done]. }
    split_and!; [exact Hfin| |].
    + rewrite Hrun. cbn [fst snd Threads.shared]. exact Hq.
    + apply (Hagain [page] _ _ ltac:(by left)
               (exec_reaches (replicate n (Threads.WorkerThread 0))
                  (Threads.init s1 [page])) Hfin).
Qed.

Lemma seed_is_admitted_twice_witness :
  let a := "http://aaaaaaaaaaaaaaaaaaaaaaaaaaaaaaaaaaaaaaaaaaaaaaaaaaaaaaaa.onion" in
  ∃ s1,
    MultiThreadedDarkCrawler._setup_structs no_eval self_linking_config empty_state
    = (Ok (), s1)
    ∧ queue s1 = seeds self_linking_config
    ∧ seen s1 = ∅
    ∧ (∀ pages tr σ,
         hrefs self_linking_page ∈ pages →
         Threads.reaches (Threads.init s1 pages) tr σ →
         Threads.finished σ →
         a ∈ queue s1 ∧ a ∈ tr)
    ∧ (∃ n,
         let run := Threads.exec (replicate n (Threads.WorkerThread 0))
                      (Threads.init s1 [hrefs self_linking_page]) in
         Threads.finished run.1
         ∧ queue (Threads.shared run.1) = seeds self_linking_config ++ run.2
         ∧ a ∈ run.2).
Proof.
  apply (seed_is_admitted_twice no_eval self_linking_config empty_state
           "http://aaaaaaaaaaaaaaaaaaaaaaaaaaaaaaaaaaaaaaaaaaaaaaaaaaaaaaaa.onion"
           (hrefs self_linking_page)).
  - reflexivity.
  - reflexivity.
  - apply list_elem_of_singleton. reflexivity.
  - unfold self_linking_page. cbn [hrefs Threads.addresses].
    apply elem_of_union_l, elem_of_fed. split; reflexivity.
Defined.

(** ** C8: the records of the data file, line by line *)

Lemma string_of_uint_one_line (d : Decimal.uint) :
  one_line (DecimalString.NilZero.string_of_uint d).
Proof.
  assert (one_line (DecimalString.NilEmpty.string_of_uint d)) as Hd.
  { induction d; cbn; [constructor|..]; (constructor; [done|exact IHd]). }
  destruct d; try exact Hd. by repeat constructor.
Qed.

Lemma str_of_nat_one_line (n : nat) : one_line (Py.str_of_nat n).
Proof. apply string_of_uint_one_line. Qed.

Lemma word_plain (c : ascii) : Re.word c = true → c ≠ Py.LF ∧ c ≠ Py.CR.
Proof.
  destruct c as [[] [] [] [] [] [] [] []]; vm_compute; intros H;
    first [discriminate H | split; discriminate].
Qed.

Lemma onion_shape_one_line (a : string) : DarkCrawler.onion_shape a → one_line a.
Proof.
  intros (scheme & name & -> & Hscheme & _ & Hname).
  repeat (apply one_line_app; split).
  - destruct Hscheme as [-> | ->]; by repeat constructor.
  - by repeat constructor.
  - eapply Forall_impl; [exact Hname|]. intros c. apply word_plain.
  - by repeat constructor.
Qed.

Lemma onion_address_search_one_line (href : option string) (a : string) :
  DarkCrawler.onion_address_search href = Some a → one_line a.
Proof.
  intros Ho. apply onion_shape_one_line.
  unfold DarkCrawler.onion_address_search in Ho. destruct href as [t|]; [|done].
  destruct (Py.truthy (Some t)); [|done].
  unfold Re.search in Ho. destruct (Re.search_go _ _) as [l|] eqn:Hgo; [|done].
  injection Ho as <-. apply search_go_sound in Hgo as (pre & post & _ & Hlang).
  by apply lang_onion_pattern.
Qed.

Lemma lstrip_list_plain (P : ascii → Prop) (l : list ascii) :
  Forall P l → Forall P (Py.lstrip_list l).
Proof.
  induction 1 as [|c l Hc Hl IH]; [constructor|]. cbn [Py.lstrip_list].
  destruct (Py.is_space c); [done|by constructor].
Qed.

Lemma strip_list_plain (P : ascii → Prop) (l : list ascii) :
  Forall P l → Forall P (Py.strip_list l).
Proof.
  intros H. unfold Py.strip_list.
  by apply Forall_reverse, lstrip_list_plain, Forall_reverse, lstrip_list_plain.
Qed.

Lemma lstrip_list_line (P : ascii → Prop) (l : list ascii) :
  Forall P l →
  Py.lstrip_list (l ++ [Py.LF]) = []
  ∨ ∃ l', Py.lstrip_list (l ++ [Py.LF]) = l' ++ [Py.LF] ∧ Forall P l'.
Proof.
  induction 1 as [|c l Hc Hl IH]; [by left|]. cbn [app Py.lstrip_list].
  destruct (Py.is_space c); [exact IH|]. right. exists (c :: l). by split; [|constructor].
Qed.

Lemma strip_list_line (P : ascii → Prop) (l : list ascii) :
  Forall P l → Forall P (Py.strip_list (l ++ [Py.LF])).
Proof.
  intros H. unfold Py.strip_list.
  destruct (lstrip_list_line P l H) as [->|(l' & -> & Hl')]; [constructor|].
  rewrite reverse_app. change (reverse [Py.LF]) with [Py.LF]. cbn [app].
  change (Py.lstrip_list (Py.LF :: reverse l')) with (Py.lstrip_list (reverse l')).
  by apply Forall_reverse, lstrip_list_plain, Forall_reverse.
Qed.

Lemma flush_line (cur : list ascii) (line : string) :
  Forall (λ c, c ≠ Py.LF ∧ c ≠ Py.CR) cur →
  line ∈ Py.flush cur → one_line line.
Proof.
  intros Hcur. unfold Py.flush. destruct cur as [|c cur]; [by intros ?%elem_of_nil|].
  intros ->%list_elem_of_singleton. unfold one_line. rewrite to_of_list.
  by apply Forall_reverse.
Qed.

(** A line that [readlines] returns holds no line break before the line
    feed at its end, if it has one. *)
Lemma readlines_go_lines (l cur : list ascii) (line : string) :
  Forall (λ c, c ≠ Py.LF ∧ c ≠ Py.CR) cur →
  line ∈ Py.readlines_go cur l →
  ∃ x, Forall (λ c, c ≠ Py.LF ∧ c ≠ Py.CR) x
       ∧ (Py.to_list line = x ∨ Py.to_list line = x ++ [Py.LF]).
Proof.
  remember (length l) as n eqn:Hn. revert l cur Hn.
  induction n as [n IH] using lt_wf_ind. intros l cur Hn Hcur Hin.
  destruct l as [|c l]; cbn [Py.readlines_go] in Hin.
  { exists (Py.to_list line). split; [by eapply flush_line|by left]. }
  cbn [length] in Hn.
  assert (Py.to_list (Py.of_list (reverse (Py.LF :: cur))) = reverse cur ++ [Py.LF])
    as Hended by (by rewrite to_of_list, reverse_cons).
  destruct (bool_decide (c = Py.LF)) eqn:Hlf.
  { apply elem_of_cons in Hin as [->|Hin].
    - exists (reverse cur). split; [by apply Forall_reverse|by right].
    - apply (IH (length l) ltac:(lia) l [] eq_refl); [constructor|done]. }
  destruct (bool_decide (c = Py.CR)) eqn:Hcr.
  { apply elem_of_cons in Hin as [->|Hin].
    - exists (reverse cur). split; [by apply Forall_reverse|by right].
    - destruct l as [|c' l']; [by apply elem_of_nil in Hin|].
      destruct (bool_decide (c' = Py.LF)).
      + apply (IH (length l') ltac:(cbn [length] in Hn; lia) l' [] eq_refl);
          [constructor|done].
      + apply (IH (length (c' :: l')) ltac:(lia) (c' :: l') [] eq_refl);
          [constructor|done]. }
  apply bool_decide_eq_false in Hlf, Hcr.
  apply (IH (length l) ltac:(lia) l (c :: cur) eq_refl); [by constructor|done].
Qed.

Lemma keyword_link_one_line (content kw : string) :
  kw ∈ Py.readlines content → one_line (DarkCrawler.keyword_link kw).
Proof.
  intros Hin. unfold DarkCrawler.keyword_link.
  apply one_line_app. split; [by repeat constructor|].
  destruct (readlines_go_lines _ [] kw ltac:(constructor) Hin) as (x & Hx & Hkw).
  assert (Forall (λ c, c ≠ Py.LF ∧ c ≠ Py.CR) (Py.strip_list (Py.to_list kw)))
    as Hstrip.
  { destruct Hkw as [-> | ->]; [by apply strip_list_plain|by apply strip_list_line]. }
  unfold one_line, Py.replace_char, Py.strip. rewrite !to_of_list.
  apply Forall_flat_map. eapply Forall_impl; [exact Hstrip|].
  intros c Hc. case_bool_decide; [by repeat constructor|by constructor].
Qed.

Lemma first_line_unique (a b r r' : list ascii) :
  Forall (λ c, c ≠ Py.LF ∧ c ≠ Py.CR) a →
  Forall (λ c, c ≠ Py.LF ∧ c ≠ Py.CR) b →
  a ++ Py.LF :: r = b ++ Py.LF :: r' → a = b.
Proof.
  intros Ha. revert b. induction Ha as [|c a [Hc _] _ IH]; intros b Hb Heq.
  - destruct Hb as [|c b [Hc _] _]; [done|]. cbn in Heq. injection Heq as <- _. done.
  - destruct Hb as [|c' b _ Hb]; cbn in Heq.
    + injection Heq as -> _. done.
    + injection Heq as <- Heq. f_equal. by apply IH.
Qed.

Lemma status_line (url text : string) :
  one_line url → one_line text → Spec.status_text text →
  Spec.record_line url ("  '" +:+ url +:+ "': '" +:+ text +:+ "'," +:+ Py.nl).
Proof.
  intros Hurl Htext Hstatus. exists ("'" +:+ text +:+ "'"). split_and!.
  - left. by exists text.
  - repeat (apply one_line_app; split); first [done|by repeat constructor].
  - do 2 f_equal. rewrite !str_app_assoc. reflexivity.
Qed.

Lemma page_line (url title : string) (btc_addrs : list string) :
  one_line url →
  Spec.record_line url
    ("  '" +:+ url +:+ "': " +:+ DarkCrawler.str_of_out_value btc_addrs title
       +:+ "," +:+ Py.nl).
Proof.
  intros Hurl. exists (DarkCrawler.str_of_out_value btc_addrs title). split_and!.
  - right. by exists btc_addrs, title.
  - unfold DarkCrawler.str_of_out_value.
    repeat first [assumption|apply repr_list_one_line|apply repr_one_line
                 |apply one_line_app; split];
      by repeat constructor.
  - done.
Qed.

(** A call of [scrape_url] for an address without a line break, whose
    request, if it fails, fails with an exception of a name without one,
    appends one record line or nothing, and every address it adds to the
    queue is without a line break. *)
Lemma mt_scrape_url_lines self e url s :
  one_line url →
  (∀ c, answer e = Fails c → one_line c) →
  Forall one_line (queue s) →
  ∃ r s' lines,
    MultiThreadedDarkCrawler.scrape_url self e url s = (r, s')
    ∧ work s' = work s
    ∧ Forall one_line (queue s')
    ∧ Forall (λ line, ∃ address, Spec.record_line address line) lines
    ∧ file_text (data_path self) s'
      = file_text (data_path self) s +:+ foldr String.app "" lines.
Proof.
  intros Hurl Hkind Hqueue.
  destruct (is_v2 url) eqn:Hv2.
  { destruct (mt_scrape_url_v2 self e url s Hv2) as [head ->].
    eexists _, _, [_]. split; [done|]. split_and!; [done|done| |].
    - constructor; [|constructor]. exists url.
      apply (status_line url "V2 address (deprecated)");
        [done|by repeat constructor|by left].
    - cbn [foldr]. by rewrite str_app_nil_r, file_text_append_eq, file_text_logged_data. }
  destruct (answer e) as [c|res] eqn:Hans.
  { destruct (mt_scrape_url_fails self e url s c Hv2 Hans) as [head ->].
    eexists _, _, [_]. split; [done|]. split_and!; [done|done| |].
    - constructor; [|constructor]. exists url.
      apply (status_line url ("Exception: " +:+ c)); [done| |].
      + apply one_line_app. split; [by repeat constructor|by apply Hkind].
      + right. left. by eexists.
    - cbn [foldr]. rewrite str_app_nil_r, file_text_append_eq, file_text_logged_data.
      do 2 f_equal; try (rewrite !str_app_assoc; reflexivity). }
  destruct (decide (status_code res = 200)) as [Hst|Hst].
  - pose proof Hv2 as Hv2'. unfold is_v2 in Hv2'.
    destruct (mt_log_iter_eq self e url ("HTTP " +:+ Py.str_of_nat (status_code res))
                (on_world (send_request url) s)) as [head Hlog].
    set (s1 := logged self url _ _) in Hlog.
    destruct (mt_scrape_links_loop (hrefs (parsed res)) s1) as (new & Hlinks & _ & Hnew).
    set (s2 := set_queue _ _) in Hlinks.
    assert (MultiThreadedDarkCrawler.scrape_url self e url s
            = DarkCrawler._scrape_btc_addresses self (parsed res) url s2) as ->.
    { unfold MultiThreadedDarkCrawler.scrape_url. rewrite Hv2'.
      eapply bind_ok.
      - eapply try_ok, bind_ok; [by apply requests_get_replies|].
        eapply bind_ok; [exact Hlog|reflexivity].
      - cbv beta iota. rewrite Hst. cbn [Nat.eqb].
        eapply bind_ok; [exact Hlinks|reflexivity]. }
    assert (Forall one_line (queue s2)) as Hqueue2.
    { subst s2. cbn [queue set_queue]. apply Forall_app. split; [done|].
      apply Forall_forall. intros a [Ha _]%Hnew.
      apply elem_of_addresses in Ha as (href & _ & Ho).
      by eapply onion_address_search_one_line. }
    assert (file_text (data_path self) s2 = file_text (data_path self) s) as Hdata.
    { apply (file_text_logged_data self url _ (on_world (send_request url) s)). }
    rewrite scrape_btc_addresses_eq.
    destruct (title (parsed res)) as [[t|]|] eqn:Htitle.
    + eexists _, _, [_]. split; [done|]. split_and!; [done|done| |].
      * constructor; [|constructor]. exists url. by apply page_line.
      * cbn [foldr]. by rewrite str_app_nil_r, file_text_append_eq, Hdata.
    + eexists _, _, []. split; [done|]. split_and!; [done|done|constructor|].
      cbn [foldr]. by rewrite str_app_nil_r.
    + eexists _, _, []. split; [done|]. split_and!; [done|done|constructor|].
      cbn [foldr]. by rewrite str_app_nil_r.
  - destruct (mt_scrape_url_http_error self e url s res Hv2 Hans Hst) as [head ->].
    eexists _, _, [_]. split; [done|]. split_and!; [done|done| |].
    + constructor; [|constructor]. exists url.
      apply (status_line url ("HTTP error: " +:+ Py.str_of_nat (status_code res)));
        [done| |].
      * apply one_line_app. split; [by repeat constructor|apply str_of_nat_one_line].
      * right. right. by eexists.
    + cbn [foldr]. rewrite str_app_nil_r, file_text_append_eq, file_text_logged_data.
      do 2 f_equal; try (rewrite !str_app_assoc; reflexivity).
Qed.

Lemma worker_lines self e s :
  (∀ c, answer e = Fails c → one_line c) →
  Forall one_line (work s) →
  Forall one_line (queue s) →
  ∃ s' lines,
    MultiThreadedDarkCrawler.worker self e s = (Ok (), s')
    ∧ Forall one_line (work s')
    ∧ Forall one_line (queue s')
    ∧ Forall (λ line, ∃ address, Spec.record_line address line) lines
    ∧ file_text (data_path self) s'
      = file_text (data_path self) s +:+ foldr String.app "" lines.
Proof.
  intros Hkind Hwork Hqueue.
  unfold MultiThreadedDarkCrawler.worker, bind at 1, get.
  destruct (work s) as [|url rest] eqn:Hw.
  - exists s, []. split_and!; [done|by rewrite Hw|done|constructor|].
    cbn. by rewrite str_app_nil_r.
  - apply Forall_cons in Hwork as [Hurl Hrest].
    unfold bind at 1, modify at 1.
    destruct (mt_scrape_url_lines self e url (set_work rest s) Hurl Hkind Hqueue)
      as (r & s' & lines & Hrun & Hw' & Hq' & Hlines & Hdata).
    exists s', lines. split_and!; [|by rewrite Hw'|done|done|exact Hdata].
    unfold try_except. rewrite Hrun. by destruct r as [[]|].
Qed.

Lemma run_lines self (events : list MultiThreadedDarkCrawler.event) s :
  (∀ e c, MultiThreadedDarkCrawler.WorkerRuns e ∈ events →
          answer e = Fails c → one_line c) →
  Forall one_line (work s) →
  Forall one_line (queue s) →
  ∃ s' lines,
    MultiThreadedDarkCrawler.run self events s = (Ok (), s')
    ∧ Forall (λ line, ∃ address, Spec.record_line address line) lines
    ∧ file_text (data_path self) s'
      = file_text (data_path self) s
          +:+ foldr String.app "" lines +:+ "}" +:+ Py.nl.
Proof.
  revert s. induction events as [|ev events IH]; intros s Hkind Hwork Hqueue.
  - destruct (mt_on_shutdown_eq self s) as (s' & Hrun & Hdata & _).
    exists s', []. split_and!; [done|constructor|done].
  - assert (∀ e c, MultiThreadedDarkCrawler.WorkerRuns e ∈ events →
                   answer e = Fails c → one_line c) as Hkind'.
    { intros e c Hin. apply Hkind. by right. }
    destruct ev as [|e]; cbn [MultiThreadedDarkCrawler.run].
    + unfold bind at 1, get.
      destruct (limit_reached _ _).
      * destruct (mt_on_shutdown_eq self
                    (on_world (print_line "Search limit reached.") s))
          as (s' & Hrun & Hdata & _).
        exists s', []. split_and!; [|constructor|done].
        eapply bind_ok; [reflexivity|exact Hrun].
      * destruct (IH (set_queue [] (set_work (work s ++ queue s) s)) Hkind')
          as (s' & lines & Hrun & Hlines & Hdata).
        { cbn [work set_queue set_work]. by apply Forall_app. }
        { constructor. }
        exists s', lines. split_and!; [|done..].
        eapply bind_ok; [reflexivity|exact Hrun].
    + destruct (worker_lines self e s) as (s1 & lines1 & Hw & Hw1 & Hq1 & Hlines1 & Hdata1);
        [intros c; apply Hkind; by left|done|done|].
      destruct (IH s1 Hkind' Hw1 Hq1) as (s' & lines & Hrun & Hlines & Hdata).
      exists s', (lines1 ++ lines). split_and!.
      * eapply bind_ok; [exact Hw|exact Hrun].
      * by apply Forall_app.
      * by rewrite Hdata, Hdata1, foldr_app_app, !str_app_assoc.
Qed.



